(** * game-of-life-3d: the automaton, the organism clustering and the
      generation transition, embedded from the JavaScript sources

    - [Js]: the fragment of JavaScript the code relies on: integers and
      [NaN], [undefined], the remainder operator, array indexing, template
      keys, exceptions, and a state-and-exception monad for methods.
    - [GameOfLife]: [src/gameOfLife.js].
    - [BlobVisualizer]: the bookkeeping of [src/blobVisualizer.js]: blobs,
      [blobsMap], organism groups, the pending transition and the promise
      chains of [animateNextGeneration].
    - [App]: the application class that drives both: [init], [step],
      [reset], [togglePlay], [animate] and the controls of [setupGUI].

    Numbers are mathematical integers, or [NaN], and the arithmetic of the
    model is exact. The code computes in doubles, which is the same as
    long as the operands and the results are safe integers
    ([Js.isSafeInteger]: below 2^53 in magnitude). The numbers the
    automaton and the visualizer compute with by themselves are array
    indices and sums of two of them, far below that; a statement about a
    call with arbitrary arguments assumes the range. Rendering attributes
    (geometry, materials, radii, tween easing) are left out. *)

From Stdlib Require Import ZArith QArith Lia Ascii String.
From stdpp Require Import base tactics option list list_numbers numbers
  strings pretty gmap sets relations.

Local Open Scope Z_scope.

(* ================================================================== *)
(** * JavaScript fragment *)
(* ================================================================== *)

Module Js.

(** The numbers the code computes with. *)
Inductive number : Type :=
  | NaN : number
  | Int : Z -> number.

(** Values read out of an array of numbers. *)
Inductive value : Type :=
  | Undefined : value
  | Number : number -> value.

Inductive error : Type :=
  | TypeError : error.

Inductive completion (A : Type) : Type :=
  | Normal : A -> completion A
  | Throw : error -> completion A.
Arguments Normal {A} _.
Arguments Throw {A} _.

#[global] Instance error_eq_dec : EqDecision error.
Proof. solve_decision. Defined.
#[global] Instance completion_eq_dec {A} `{EqDecision A} :
  EqDecision (completion A).
Proof. solve_decision. Defined.
#[global] Instance number_eq_dec : EqDecision number.
Proof. solve_decision. Defined.
#[global] Instance value_eq_dec : EqDecision value.
Proof. solve_decision. Defined.

(** [Number.isSafeInteger(z)]: on these integers the sums and remainders
    of doubles are the exact ones. *)
Definition isSafeInteger (z : Z) : Prop :=
  - (2 ^ 53 - 1) <= z <= 2 ^ 53 - 1.

(** [a % b] on integers: the sign follows the dividend, [% 0] is [NaN].
    (A negative zero prints and indexes like [0].) *)
Definition rem (a b : Z) : number :=
  if b =? 0 then NaN else Int (Z.rem a b).

(** [count += v] *)
Definition add (a : number) (v : value) : number :=
  match a, v with
  | Int x, Number (Int y) => Int (x + y)
  | _, _ => NaN
  end.

(** [a === b] on values.  [NaN] is not equal to itself. *)
Definition strict_eq (a b : value) : bool :=
  match a, b with
  | Number NaN, _ | _, Number NaN => false
  | _, _ => bool_decide (a = b)
  end.

(** [arr[i]]: [None] stands for [undefined]. *)
Definition index {A} (arr : list A) (i : number) : option A :=
  match i with
  | Int z => if z <? 0 then None else arr !! Z.to_nat z
  | NaN => None
  end.

(** An element read out of an array of numbers. *)
Definition read (row : list Z) (i : number) : value :=
  match index row i with
  | Some c => Number (Int c)
  | None => Undefined
  end.

(** [`${n}`] *)
Definition to_string (n : number) : string :=
  match n with
  | NaN => "NaN"
  | Int z => pretty z
  end.

(** [`${x},${y}`] *)
Definition key (x y : number) : string :=
  to_string x +:+ "," +:+ to_string y.

(** [for (let i = 0; i < n; i++)] visits these values of [i]. *)
Definition range (n : Z) : list Z := seqZ 0 n.

(** The two nested loops over [dy] and [dx] in [-1..1] that skip the
    centre, as [(dx, dy)] in visiting order. *)
Definition offsets : list (Z * Z) :=
  dy ← [-1; 0; 1];
  dx ← [-1; 0; 1];
  if (dx =? 0) && (dy =? 0) then [] else [(dx, dy)].

(** ** Methods: state of the receiver, and exceptions *)

Definition M (S A : Type) : Type := S -> completion A * S.

Definition ret {S A} (a : A) : M S A := fun s => (Normal a, s).

Definition bind {S A B} (m : M S A) (f : A -> M S B) : M S B :=
  fun s =>
    match m s with
    | (Normal a, s') => f a s'
    | (Throw e, s') => (Throw e, s')
    end.

Definition get {S} : M S S := fun s => (Normal s, s).
Definition put {S} (s : S) : M S unit := fun _ => (Normal tt, s).
Definition modify {S} (f : S -> S) : M S unit := fun s => (Normal tt, f s).
Definition throw {S A} (e : error) : M S A := fun s => (Throw e, s).

(** Reading [a[i][j]] throws when [a[i]] is [undefined]. *)
Definition read2 {S} (a : list (list Z)) (i j : number) : M S value :=
  match index a i with
  | Some row => ret (read row j)
  | None => throw TypeError
  end.

Fixpoint mapM {S A B} (f : A -> M S B) (l : list A) : M S (list B) :=
  match l with
  | [] => ret []
  | a :: l' =>
      bind (f a) (fun b => bind (mapM f l') (fun bs => ret (b :: bs)))
  end.

Fixpoint foldM {S A B} (f : B -> A -> M S B) (b : B) (l : list A) : M S B :=
  match l with
  | [] => ret b
  | a :: l' => bind (f b a) (fun b' => foldM f b' l')
  end.

End Js.

Declare Scope js_scope.
Delimit Scope js_scope with js.
Notation "'let*' x ':=' m 'in' k" := (Js.bind m (fun x => k))
  (at level 10, x pattern, m at level 100, k at level 200) : js_scope.
Notation "m ';;' k" := (Js.bind m (fun _ => k))
  (at level 100, k at level 200, right associativity) : js_scope.

(* ================================================================== *)
(** * src/gameOfLife.js *)
(* ================================================================== *)

Module GameOfLife.
Import Js.
Local Open Scope js_scope.

Record t : Type := mk {
  size : Z;
  initialDensity : Q;
  grid : list (list Z);
}.

Definition set_grid (g : list (list Z)) (this : t) : t :=
  {| size := size this; initialDensity := initialDensity this; grid := g |}.

(** [Math.random() < density ? 1 : 0] *)
Definition random_cell (r density : Q) : Z :=
  if Qle_bool density r then 0 else 1.

(** One row of [reset]: [n] cells, drawing from [random] at [k], [k+1], ... *)
Fixpoint reset_row (random : nat -> Q) (density : Q) (n k : nat) : list Z :=
  match n with
  | O => []
  | S n' => random_cell (random k) density :: reset_row random density n' (S k)
  end.

Fixpoint reset_rows (random : nat -> Q) (density : Q) (n rows k : nat)
  : list (list Z) :=
  match rows with
  | O => []
  | S rows' =>
      reset_row random density n k
        :: reset_rows random density n rows' (k + n)%nat
  end.

(** [reset(density = this.initialDensity)]; the [i]-th call of
    [Math.random()] made during the reset returns [random i]. *)
Definition reset (random : nat -> Q) (density : option Q) : M t unit :=
  let* this := get in
  let d := default (initialDensity this) density in
  let n := Z.to_nat (size this) in
  modify (set_grid []) ;;
  modify (set_grid (reset_rows random d n n 0)).

(** [constructor(size = 40, initialDensity = 0.3)] *)
Definition constructor (random : nat -> Q) (size' : option Z)
    (initialDensity' : option Q) : completion unit * t :=
  let s := default 40 size' in
  let d := default (3 # 10)%Q initialDensity' in
  reset random (Some d) {| size := s; initialDensity := d; grid := [] |}.

(** [getCell(x, y)]. The two sums are exact here; they are the code's
    when [x], [y] and the sums are safe integers. *)
Definition getCell (x y : Z) : M t value :=
  let* this := get in
  let wrappedX := rem (x + size this) (size this) in
  let wrappedY := rem (y + size this) (size this) in
  read2 (grid this) wrappedY wrappedX.

Definition countNeighbors (x y : Z) : M t number :=
  foldM (fun count '(dx, dy) =>
           let* c := getCell (x + dx) (y + dy) in
           ret (add count c))
        (Int 0) offsets.

Definition computeNextGeneration : M t (list (list Z)) :=
  let* this := get in
  mapM (fun y =>
    mapM (fun x =>
      let* cell := getCell x y in
      let* neighbors := countNeighbors x y in
      if strict_eq cell (Number (Int 1)) then
        ret (if strict_eq (Number neighbors) (Number (Int 2))
                || strict_eq (Number neighbors) (Number (Int 3))
             then 1 else 0)
      else
        ret (if strict_eq (Number neighbors) (Number (Int 3))
             then 1 else 0))
      (range (size this)))
    (range (size this)).

Record changed : Type := mk_changed {
  cx : Z;
  cy : Z;
  cstate : value;
}.

Definition getChangedCells (oldGrid newGrid : list (list Z))
  : M t (list changed) :=
  let* this := get in
  foldM (fun changedCells y =>
    foldM (fun changedCells x =>
      let* o := read2 oldGrid (Int y) (Int x) in
      let* n := read2 newGrid (Int y) (Int x) in
      if negb (strict_eq o n) then
        let* s := read2 newGrid (Int y) (Int x) in
        ret (changedCells ++ [ {| cx := x; cy := y; cstate := s |} ])
      else ret changedCells)
      changedCells (range (size this)))
    [] (range (size this)).

End GameOfLife.

(* ================================================================== *)
(** * src/blobVisualizer.js *)
(* ================================================================== *)

Module BlobVisualizer.
Import Js.
Local Open Scope js_scope.

(** A blob object: [handle] is its identity, the coordinates are fixed
    when [createBlob] builds it. *)
Record blob : Type := mk_blob {
  handle : nat;
  blob_x : Z;
  blob_y : Z;
}.

#[global] Instance blob_eq_dec : EqDecision blob.
Proof. solve_decision. Defined.

(** The fields of a blob object that are assigned after creation. *)
Record blob_fields : Type := mk_fields {
  visible : bool;          (* blob.mesh.visible *)
  organismId : Z;
  isNew : bool;
}.

Record organism : Type := mk_organism {
  id : Z;
  members : list blob;     (* organism.blobs *)
  color : option Z;
}.

(** The value stored in [pendingChanges]. *)
Record changes : Type := mk_changes {
  appearingCells : list (Z * Z);
  disappearingCells : list (Z * Z);
  persistentCells : list (Z * Z);
  newBlobs : list blob;
  blobsToRemove : list blob;
}.

#[global] Instance organism_eq_dec : EqDecision organism.
Proof. solve_decision. Defined.
#[global] Instance changes_eq_dec : EqDecision changes.
Proof. solve_decision. Defined.

(** The children of [this.object]: blob groups and marching-cubes objects. *)
Inductive child : Type :=
  | Group : nat -> child
  | Cubes : nat -> child.

#[global] Instance child_eq_dec : EqDecision child.
Proof. solve_decision. Defined.

Record metaball : Type := mk_metaball {
  object : nat;
  metaball_organism : organism;
}.

#[global] Instance metaball_eq_dec : EqDecision metaball.
Proof. solve_decision. Defined.

(** A promise chain started by [animateNextGeneration] that has not run to
    its end: the blobs whose tween has not completed yet, and the callback
    that [then] registered. *)
Inductive chain : Type :=
  | AwaitShrink : list blob -> changes -> chain
  | AwaitGrow : list blob -> chain.

#[global] Instance chain_eq_dec : EqDecision chain.
Proof. solve_decision. Defined.

Record t : Type := mk {
  blobColors : list Z;
  children : list child;
  blobs : list blob;
  blobsMap : gmap string blob;
  organismGroups : list organism;
  pendingChanges : option changes;
  isAnimating : bool;
  metaballsMap : gmap Z metaball;
  (** run-time state outside the fields of the object *)
  heap : gmap nat blob_fields;
  next_handle : nat;
  chains : list chain;
}.

Definition set_children (f : list child -> list child) (v : t) : t :=
  mk (blobColors v) (f (children v)) (blobs v) (blobsMap v)
     (organismGroups v) (pendingChanges v) (isAnimating v) (metaballsMap v)
     (heap v) (next_handle v) (chains v).
Definition set_blobs (f : list blob -> list blob) (v : t) : t :=
  mk (blobColors v) (children v) (f (blobs v)) (blobsMap v)
     (organismGroups v) (pendingChanges v) (isAnimating v) (metaballsMap v)
     (heap v) (next_handle v) (chains v).
Definition set_blobsMap (f : gmap string blob -> gmap string blob) (v : t) : t :=
  mk (blobColors v) (children v) (blobs v) (f (blobsMap v))
     (organismGroups v) (pendingChanges v) (isAnimating v) (metaballsMap v)
     (heap v) (next_handle v) (chains v).
Definition set_organismGroups (g : list organism) (v : t) : t :=
  mk (blobColors v) (children v) (blobs v) (blobsMap v)
     g (pendingChanges v) (isAnimating v) (metaballsMap v)
     (heap v) (next_handle v) (chains v).
Definition set_pendingChanges (c : option changes) (v : t) : t :=
  mk (blobColors v) (children v) (blobs v) (blobsMap v)
     (organismGroups v) c (isAnimating v) (metaballsMap v)
     (heap v) (next_handle v) (chains v).
Definition set_isAnimating (b : bool) (v : t) : t :=
  mk (blobColors v) (children v) (blobs v) (blobsMap v)
     (organismGroups v) (pendingChanges v) b (metaballsMap v)
     (heap v) (next_handle v) (chains v).
Definition set_metaballsMap (f : gmap Z metaball -> gmap Z metaball) (v : t) : t :=
  mk (blobColors v) (children v) (blobs v) (blobsMap v)
     (organismGroups v) (pendingChanges v) (isAnimating v) (f (metaballsMap v))
     (heap v) (next_handle v) (chains v).
Definition set_heap (f : gmap nat blob_fields -> gmap nat blob_fields) (v : t) : t :=
  mk (blobColors v) (children v) (blobs v) (blobsMap v)
     (organismGroups v) (pendingChanges v) (isAnimating v) (metaballsMap v)
     (f (heap v)) (next_handle v) (chains v).
Definition set_next_handle (n : nat) (v : t) : t :=
  mk (blobColors v) (children v) (blobs v) (blobsMap v)
     (organismGroups v) (pendingChanges v) (isAnimating v) (metaballsMap v)
     (heap v) n (chains v).
Definition set_chains (f : list chain -> list chain) (v : t) : t :=
  mk (blobColors v) (children v) (blobs v) (blobsMap v)
     (organismGroups v) (pendingChanges v) (isAnimating v) (metaballsMap v)
     (heap v) (next_handle v) (f (chains v)).

(** [`${blob.x},${blob.y}`] *)
Definition blob_key (b : blob) : string :=
  key (Int (blob_x b)) (Int (blob_y b)).

(** [this.object.add(c)]: a child that is already there moves to the end. *)
Definition add_child (c : child) (cs : list child) : list child :=
  filter (fun c' => c' <> c) cs ++ [c].

(** [this.object.remove(c)], also [c.parent.remove(c)] when [c] has a parent. *)
Definition remove_child (c : child) (cs : list child) : list child :=
  filter (fun c' => c' <> c) cs.

Definition set_visible (b : bool) (f : blob_fields) : blob_fields :=
  mk_fields b (organismId f) (isNew f).
Definition set_organismId (i : Z) (f : blob_fields) : blob_fields :=
  mk_fields (visible f) i (isNew f).
Definition set_isNew (b : bool) (f : blob_fields) : blob_fields :=
  mk_fields (visible f) (organismId f) b.

(** The colours of [initMaterials]. *)
Record colors : Type := mk_colors {
  primary : Z;
  secondary : Z;
  accent : Z;
}.

Definition initMaterials (c : colors) : list Z :=
  [primary c; secondary c; accent c; 0xc88fff; 0x98ff8f; 0xe6c19c].

(** [createBlob(x, y, gridSize, cellSize, halfGrid, visible = true)] *)
Definition createBlob (x y : Z) (vis : bool) : M t blob :=
  let* v := get in
  let b := mk_blob (next_handle v) x y in
  modify (set_next_handle (S (next_handle v))) ;;
  modify (set_heap <[handle b := mk_fields vis (-1) (negb vis)]>) ;;
  ret b.

(** ** [identifyOrganismGroups] *)

(** The variables of the breadth-first search of one organism. *)
Record search : Type := mk_search {
  queue : list blob;
  visited : gset string;
  found : list blob;       (* organism.blobs *)
  fields : gmap nat blob_fields;
}.

(** The body of the two neighbour loops for one offset. *)
Definition examine (map : gmap string blob) (size : Z) (current : blob)
    (st : search) (d : Z * Z) : search :=
  let nx := rem (blob_x current + d.1 + size) size in
  let ny := rem (blob_y current + d.2 + size) size in
  let neighborKey := key nx ny in
  match map !! neighborKey with
  | Some neighbor =>
      if decide (neighborKey ∈ visited st) then st
      else mk_search (queue st ++ [neighbor]) ({[neighborKey]} ∪ visited st)
                     (found st) (fields st)
  | None => st
  end.

(** One turn of [while (queue.length > 0)]. *)
Definition visit (map : gmap string blob) (size : Z) (currentOrganismId : Z)
    (currentBlob : blob) (rest : list blob) (st : search) : search :=
  foldl (examine map size currentBlob)
    (mk_search rest (visited st) (found st ++ [currentBlob])
       (alter (set_organismId currentOrganismId) (handle currentBlob)
          (fields st)))
    offsets.

(** The loop, for at most [fuel] turns. *)
Fixpoint bfs (fuel : nat) (map : gmap string blob) (size : Z)
    (currentOrganismId : Z) (st : search) : search :=
  match fuel with
  | O => st
  | S fuel' =>
      match queue st with
      | [] => st
      | currentBlob :: rest =>
          bfs fuel' map size currentOrganismId
            (visit map size currentOrganismId currentBlob rest st)
      end
  end.

(** Every turn takes one blob off the queue, and a blob is only put on the
    queue when its key is in [blobsMap] and not yet visited: the loop ends
    within this many turns. *)
Definition turns (map : gmap string blob) (st : search) : nat :=
  (length (queue st) + size (dom map ∖ visited st))%nat.

(** The variables of the [forEach] over [this.blobs]. *)
Record grouping : Type := mk_grouping {
  groups : list organism;
  currentOrganismId : Z;
  seen : gset string;      (* visited *)
  store : gmap nat blob_fields;
}.

(** The search for the organism of an unvisited blob: the queue starts
    with that blob, already marked visited. *)
Definition search_from (map : gmap string blob) (size : Z) (g : grouping)
    (b : blob) : search :=
  let st0 := mk_search [b] ({[blob_key b]} ∪ seen g) [] (store g) in
  bfs (S (turns map st0)) map size (currentOrganismId g) st0.

#[global] Arguments visit : simpl never.
#[global] Arguments search_from : simpl never.

(** The body of [this.blobs.forEach]. *)
Definition group_from (palette : list Z) (map : gmap string blob) (size : Z)
    (g : grouping) (b : blob) : grouping :=
  if decide (blob_key b ∈ seen g) then g
  else
    let color := index palette
      (rem (currentOrganismId g) (Z.of_nat (length palette))) in
    let st := search_from map size g b in
    mk_grouping
      (groups g ++ [mk_organism (currentOrganismId g) (found st) color])
      (currentOrganismId g + 1) (visited st) (fields st).

#[global] Arguments group_from : simpl never.

Definition identifyOrganismGroups (game : GameOfLife.t) : M t unit :=
  let* v := get in
  modify (set_organismGroups []) ;;
  let g := foldl (group_from (blobColors v) (blobsMap v) (GameOfLife.size game))
             (mk_grouping [] 0 ∅ (heap v)) (blobs v) in
  modify (set_heap (fun _ => store g)) ;;
  modify (set_organismGroups (groups g)).

(** ** Metaballs *)

(** Detaches the marching-cubes object of every entry of [metaballsMap]. *)
Definition detach_metaballs (v : t) : t :=
  set_children (fun cs =>
    foldr (fun m cs => remove_child (Cubes (object m)) cs) cs
      ((map_to_list (metaballsMap v)).*2)) v.

Definition createMetaballOrganisms : M t unit :=
  modify detach_metaballs ;;
  modify (set_metaballsMap (fun _ => ∅)) ;;
  let* v := get in
  foldM (fun (_ : unit) organism =>
      if decide (members organism = []) then ret tt
      else
        let* v := get in
        let h := next_handle v in
        modify (set_next_handle (S h)) ;;
        modify (set_metaballsMap <[id organism := mk_metaball h organism]>) ;;
        modify (set_children (add_child (Cubes h))))
    tt (organismGroups v).

(** [this.organismGroups.find(org => org.id === organismId)] *)
Definition find_organism (groups : list organism) (organismId : Z)
  : option organism :=
  list_find (fun org => id org = organismId) groups ≫= fun r => Some r.2.

Definition updateMetaballPositions : M t unit :=
  let* v := get in
  foldM (fun (_ : unit) '(organismId, m) =>
      let* v := get in
      match find_organism (organismGroups v) organismId with
      | Some org =>
          if decide (members org = []) then
            modify (set_children (remove_child (Cubes (object m)))) ;;
            modify (set_metaballsMap (delete organismId))
          else ret tt
      | None =>
          modify (set_children (remove_child (Cubes (object m)))) ;;
          modify (set_metaballsMap (delete organismId))
      end)
    tt (map_to_list (metaballsMap v)).

(** ** Construction and reset *)

(** The body of the two loops of [createBlobs]. *)
Definition create_cell (grid : list (list Z)) (y x : Z) : M t unit :=
  let* c := read2 grid (Int y) (Int x) in
  if strict_eq c (Number (Int 1)) then
    let* blob := createBlob x y true in
    modify (set_blobs (fun bs => bs ++ [blob])) ;;
    modify (set_blobsMap <[key (Int x) (Int y) := blob]>) ;;
    modify (set_children (add_child (Group (handle blob))))
  else ret tt.

(** The two loops of [createBlobs]: a blob for every cell that is 1. *)
Definition create_all (game : GameOfLife.t) : M t unit :=
  let gridSize := GameOfLife.size game in
  let grid := GameOfLife.grid game in
  foldM (fun (_ : unit) y =>
    foldM (fun (_ : unit) x => create_cell grid y x) tt (range gridSize))
    tt (range gridSize).

Definition createBlobs (game : GameOfLife.t) : M t unit :=
  modify (set_children (fun _ => [])) ;;
  modify (set_blobs (fun _ => [])) ;;
  modify (set_blobsMap (fun _ => ∅)) ;;
  modify (set_metaballsMap (fun _ => ∅)) ;;
  create_all game ;;
  identifyOrganismGroups game ;;
  createMetaballOrganisms.

(** The fields as the constructor leaves them before [createBlobs]. *)
Definition initial (c : colors) : t :=
  mk (initMaterials c) [] [] ∅ [] None false ∅ ∅ 0 [].

Definition constructor (game : GameOfLife.t) (c : colors)
  : completion unit * t :=
  createBlobs game (initial c).

Definition resetBlobs (game : GameOfLife.t) : M t unit :=
  modify (set_children (fun _ => [])) ;;
  modify (set_blobs (fun _ => [])) ;;
  modify (set_blobsMap (fun _ => ∅)) ;;
  modify (set_organismGroups []) ;;
  modify (set_pendingChanges None) ;;
  modify (set_isAnimating false) ;;
  modify (set_metaballsMap (fun _ => ∅)) ;;
  createBlobs game.

(** ** The generation transition *)

Definition no_changes : changes := mk_changes [] [] [] [] [].

(** The body of the two loops of [prepareNextGeneration]. *)
Definition prepare_cell (currentGrid nextGrid : list (list Z))
    (changes : BlobVisualizer.changes) (y x : Z) : M t BlobVisualizer.changes :=
  let key := key (Int x) (Int y) in
  let* c := read2 currentGrid (Int y) (Int x) in
  if strict_eq c (Number (Int 0)) then
    let* n := read2 nextGrid (Int y) (Int x) in
    if strict_eq n (Number (Int 1)) then
      (* the cell becomes alive *)
      let* newBlob := createBlob x y false in
      modify (set_children (add_child (Group (handle newBlob)))) ;;
      ret (mk_changes (appearingCells changes ++ [(x, y)])
             (disappearingCells changes) (persistentCells changes)
             (newBlobs changes ++ [newBlob]) (blobsToRemove changes))
    else ret changes
  else if strict_eq c (Number (Int 1)) then
    let* n := read2 nextGrid (Int y) (Int x) in
    if strict_eq n (Number (Int 0)) then
      (* the cell dies *)
      let* v := get in
      ret (mk_changes (appearingCells changes)
             (disappearingCells changes ++ [(x, y)])
             (persistentCells changes) (newBlobs changes)
             (match blobsMap v !! key with
              | Some blobToRemove => blobsToRemove changes ++ [blobToRemove]
              | None => blobsToRemove changes
              end))
    else if strict_eq n (Number (Int 1)) then
      (* the cell stays alive *)
      ret (mk_changes (appearingCells changes) (disappearingCells changes)
             (persistentCells changes ++ [(x, y)])
             (newBlobs changes) (blobsToRemove changes))
    else ret changes
  else ret changes.

Definition prepareNextGeneration (game : GameOfLife.t)
    (currentGrid nextGrid : list (list Z)) : M t bool :=
  let* v := get in
  if isAnimating v then ret false
  else
    let* changes :=
      foldM (fun changes y =>
        foldM (fun changes x => prepare_cell currentGrid nextGrid changes y x)
          changes (range (GameOfLife.size game)))
        no_changes (range (GameOfLife.size game)) in
    modify (set_pendingChanges (Some changes)) ;;
    ret true.

(** The synchronous part of [animateNextGeneration]: the shrink tweens are
    started and [Promise.all(shrinkPromises).then(...)] is registered. *)
Definition animateNextGeneration : M t bool :=
  let* v := get in
  match pendingChanges v with
  | None => ret false
  | Some changes =>
      if isAnimating v then ret false
      else
        modify (set_isAnimating true) ;;
        modify (set_chains (fun cs =>
          cs ++ [AwaitShrink (blobsToRemove changes) changes])) ;;
        ret true
  end.

(** Steps 2 of the first [then] callback: the dying blobs leave [blobsMap],
    [blobs] and the scene, the new blobs enter [blobsMap] and [blobs]. *)
Definition remove_dying (changes : changes) : M t unit :=
  foldM (fun (_ : unit) blob =>
      modify (set_blobsMap (delete (blob_key blob))) ;;
      modify (set_blobs (filter (fun b => b <> blob))) ;;
      modify (set_children (remove_child (Group (handle blob)))))
    tt (blobsToRemove changes).

Definition add_new (changes : changes) : M t unit :=
  foldM (fun (_ : unit) blob =>
      modify (set_blobsMap <[blob_key blob := blob]>) ;;
      modify (set_blobs (fun bs => bs ++ [blob])))
    tt (newBlobs changes).

(** Step 5: the new blobs become visible and their grow tweens start;
    [Promise.all(growPromises).then(...)] is registered in place of the
    chain that ran. *)
Definition start_grow (changes : changes) : M t unit :=
  foldM (fun (_ : unit) blob =>
      modify (set_heap (alter (set_visible true) (handle blob))))
    tt (newBlobs changes).

(** The callback of [Promise.all(shrinkPromises).then]. *)
Definition regroup (game : GameOfLife.t) (changes : changes) : M t unit :=
  remove_dying changes ;;
  add_new changes ;;
  identifyOrganismGroups game ;;
  createMetaballOrganisms ;;
  start_grow changes.

(** The callback of [Promise.all(growPromises).then]. *)
Definition finish : M t unit :=
  let* v := get in
  foldM (fun (_ : unit) blob =>
      modify (set_heap (alter (set_isNew false) (handle blob))))
    tt (blobs v) ;;
  updateMetaballPositions ;;
  modify (set_pendingChanges None) ;;
  modify (set_isAnimating false).

(** [updateBlobSettings(newSettings)]: the settings it stores and the
    scale tweens it starts are rendering attributes, and those tweens
    have no [onComplete]. What reaches the bookkeeping is the call of
    [createMetaballOrganisms] that it leaves to a timer; [settings_timer]
    is that callback. *)
Definition updateBlobSettings : M t unit := ret tt.

Definition settings_timer : M t unit := createMetaballOrganisms.

(** The part of [update()] that touches the bookkeeping. *)
Definition update : M t unit :=
  let* v := get in
  if isAnimating v then ret tt else updateMetaballPositions.

Definition updateBlobs (game : GameOfLife.t)
    (currentGrid nextGrid : list (list Z)) : M t bool :=
  let* prepared := prepareNextGeneration game currentGrid nextGrid in
  if (prepared : bool) then animateNextGeneration ;; ret true
  else ret false.

(** ** What happens between calls *)

Inductive event : Type :=
  (** the tween of [blob], started by chain [i], calls [onComplete] *)
  | TweenComplete (i : nat) (b : blob)
  (** all promises of chain [i] are resolved and its callback runs (a
      job of the promise queue: it runs between events, never inside a
      method call) *)
  | Callback (i : nat).

Definition resolve (b : blob) (c : chain) : chain :=
  match c with
  | AwaitShrink waiting changes =>
      AwaitShrink (list_difference waiting [b]) changes
  | AwaitGrow waiting => AwaitGrow (list_difference waiting [b])
  end.

(** [None]: the event cannot happen in this state. *)
Definition happen (game : GameOfLife.t) (e : event) (v : t)
  : option (completion unit * t) :=
  match e with
  | TweenComplete i b =>
      match chains v !! i with
      | Some c => Some (Normal tt, set_chains (alter (resolve b) i) v)
      | None => None
      end
  | Callback i =>
      match chains v !! i with
      | Some (AwaitShrink [] changes) =>
          Some ((regroup game changes ;;
                 modify (set_chains
                   (alter (fun _ => AwaitGrow (newBlobs changes)) i))) v)
      | Some (AwaitGrow []) =>
          Some ((finish ;; modify (set_chains (delete i))) v)
      | _ => None
      end
  end.

(** The events in turn; [None] when one of them cannot happen. *)
Fixpoint happen_all (game : GameOfLife.t) (es : list event) (v : t)
  : option t :=
  match es with
  | [] => Some v
  | e :: es' =>
      match happen game e v with
      | Some (Normal _, v') => happen_all game es' v'
      | _ => None
      end
  end.

(** ** [findNearbyOrganisms] *)




End BlobVisualizer.

(* ================================================================== *)
(** * The application class that owns the game and the visualizer *)
(* ================================================================== *)

Module App.
Import Js.
Local Open Scope js_scope.

Record config : Type := mk_config {
  gridSize : Z;
  initialDensity : Q;
  autoplay : bool;
  colors : BlobVisualizer.colors;
}.

(** [this.config] as the constructor sets it. *)
Definition default_config : config :=
  mk_config 40 (2 # 10) true
    (BlobVisualizer.mk_colors 0xff8fe8 0x8fe3ff 0xffe38f).

(** [game] is the one object that both the application and the visualizer
    refer to: the visualizer's methods read it from here. *)
Record t : Type := mk {
  cfg : config;
  game : GameOfLife.t;
  blobVisualizer : BlobVisualizer.t;
  isPaused : bool;
}.

Definition set_game (f : GameOfLife.t -> GameOfLife.t) (app : t) : t :=
  mk (cfg app) (f (game app)) (blobVisualizer app) (isPaused app).
Definition set_blobVisualizer (v : BlobVisualizer.t) (app : t) : t :=
  mk (cfg app) (game app) v (isPaused app).
Definition set_isPaused (b : bool) (app : t) : t :=
  mk (cfg app) (game app) (blobVisualizer app) b.
Definition set_cfg (f : config -> config) (app : t) : t :=
  mk (f (cfg app)) (game app) (blobVisualizer app) (isPaused app).
Definition set_initialDensity (d : Q) (c : config) : config :=
  mk_config (gridSize c) d (autoplay c) (colors c).

Definition on_game {A} (m : M GameOfLife.t A) : M t A :=
  fun app => let (r, g) := m (game app) in (r, set_game (fun _ => g) app).

Definition on_visualizer {A} (m : GameOfLife.t -> M BlobVisualizer.t A)
  : M t A :=
  fun app =>
    let (r, v) := m (game app) (blobVisualizer app) in
    (r, set_blobVisualizer v app).

(** [init()], with [random] the results of [Math.random()]. *)
Definition init (c : config) (random : nat -> Q) : completion t :=
  match GameOfLife.constructor random (Some (gridSize c))
          (Some (initialDensity c)) with
  | (Normal _, g) =>
      match BlobVisualizer.constructor g (colors c) with
      | (Normal _, v) => Normal (mk c g v (negb (autoplay c)))
      | (Throw e, _) => Throw e
      end
  | (Throw e, _) => Throw e
  end.

Definition step : M t unit :=
  let* nextGrid := on_game GameOfLife.computeNextGeneration in
  let* app := get in
  on_visualizer (fun g =>
    BlobVisualizer.updateBlobs g (GameOfLife.grid (game app)) nextGrid) ;;
  modify (set_game (GameOfLife.set_grid nextGrid)).

Definition reset (random : nat -> Q) : M t unit :=
  let* app := get in
  on_game (GameOfLife.reset random (Some (initialDensity (cfg app)))) ;;
  on_visualizer BlobVisualizer.resetBlobs.

Definition togglePlay : M t unit :=
  let* app := get in modify (set_isPaused (negb (isPaused app))).

(** One animation frame; [elapsed] tells whether the step interval has
    passed since the last step. *)
Definition animate (elapsed : bool) : M t unit :=
  let* app := get in
  (if negb (isPaused app)
      && negb (BlobVisualizer.isAnimating (blobVisualizer app))
      && elapsed
   then step else ret tt) ;;
  on_visualizer (fun _ => BlobVisualizer.update).

(** The handler of the "Initial Density" slider: the controller has
    stored the new value in [config.initialDensity] when it calls
    [onChange], which calls [reset()]. *)
Definition slideDensity (density : Q) (random : nat -> Q) : M t unit :=
  modify (set_cfg (set_initialDensity density)) ;;
  reset random.

(** What the browser can deliver to the application: an animation
    frame, the controls of [setupGUI], and what the visualizer has left
    to tweens, promises and timers. *)
Inductive input : Type :=
  | Frame (elapsed : bool)
  | ClickStep
  | ClickReset (random : nat -> Q)
  | ClickPlayPause
  | Visual (e : BlobVisualizer.event)
  (** the "Initial Density" slider is moved to [density] *)
  | SlideDensity (density : Q) (random : nat -> Q)
  (** one of the three "Slime Settings" sliders is moved *)
  | SlideSettings
  (** a timer set by [updateBlobSettings] fires; the timers are not
      kept in the state, one may fire at any time *)
  | SettingsTimer
  (** "Step Interval", "Show Grid", "Reset Camera View", the orbit
      controls, a resize of the window: they touch the camera, the dish
      and [config.stepInterval] only, which decides [elapsed] *)
  | Display.

Definition react (i : input) (app : t) : option (completion unit * t) :=
  match i with
  | Frame elapsed => Some (animate elapsed app)
  | ClickStep => Some (step app)
  | ClickReset random => Some (reset random app)
  | ClickPlayPause => Some (togglePlay app)
  | Visual e =>
      match BlobVisualizer.happen (game app) e (blobVisualizer app) with
      | Some (r, v) => Some (r, set_blobVisualizer v app)
      | None => None
      end
  | SlideDensity density random => Some (slideDensity density random app)
  | SlideSettings =>
      Some (on_visualizer (fun _ => BlobVisualizer.updateBlobSettings) app)
  | SettingsTimer =>
      Some (on_visualizer (fun _ => BlobVisualizer.settings_timer) app)
  | Display => Some (Normal tt, app)
  end.

(** The inputs in turn; [None] when one of them cannot happen or throws. *)
Fixpoint run (inputs : list input) (app : t) : option t :=
  match inputs with
  | [] => Some app
  | i :: rest =>
      match react i app with
      | Some (Normal _, app') => run rest app'
      | _ => None
      end
  end.

End App.

(* ================================================================== *)
(** * Specification-level notions *)
(* ================================================================== *)

(** An [N]x[N] array of rows. *)
Definition square (N : Z) (g : list (list Z)) : Prop :=
  length g = Z.to_nat N /\ Forall (fun row => length row = Z.to_nat N) g.

(** Every cell is 0 (dead) or 1 (alive). *)
Definition binary (g : list (list Z)) : Prop :=
  Forall (Forall (fun c => c = 0 \/ c = 1)) g.

(** The cell in column [x] of row [y], for coordinates inside the grid. *)
Definition cell (g : list (list Z)) (x y : Z) : Z :=
  default 0 (g !! Z.to_nat y ≫= fun row => row !! Z.to_nat x).

(** The eight surrounding offsets of the specification. *)
Definition neighbours8 : list (Z * Z) :=
  [(-1, -1); (0, -1); (1, -1); (-1, 0); (1, 0); (-1, 1); (0, 1); (1, 1)].

(** The number of live cells among the eight toroidal neighbours. *)
Definition live_neighbours (N : Z) (g : list (list Z)) (x y : Z) : Z :=
  Z.of_nat (length (filter
    (fun d => cell g ((x + d.1) mod N) ((y + d.2) mod N) = 1) neighbours8)).

(** Conway's rule, in the words of the specification. *)
Definition conway (alive : bool) (n : Z) : bool :=
  if alive then bool_decide (n = 2 \/ n = 3) else bool_decide (n = 3).

(** The next state of the cell at [(x, y)] under that rule. *)
Definition next_cell (N : Z) (g : list (list Z)) (x y : Z) : Z :=
  if conway (bool_decide (cell g x y = 1)) (live_neighbours N g x y)
  then 1 else 0.

(** The coordinates that [(a + N) % N] wraps into [0 .. N-1]. *)
Definition wrappable (N a : Z) : Prop := - N <= a \/ (N | a).

(** The cells [getChangedCells] reports for row [y], column [x]. *)
Definition changed_at (old new : list (list Z)) (y x : Z)
  : list GameOfLife.changed :=
  if decide (cell old x y = cell new x y) then []
  else [ GameOfLife.mk_changed x y (Js.Number (Js.Int (cell new x y))) ].

(** ** Concrete inputs *)

(** A horizontal blinker on a 5x5 grid. *)
Definition blinker_game : GameOfLife.t :=
  GameOfLife.mk 5 (3 # 10)
    [ [0;0;0;0;0]; [0;0;0;0;0]; [0;1;1;1;0]; [0;0;0;0;0]; [0;0;0;0;0] ].

(** A 3x3 grid with one live cell at column 0 of row 0. *)
Definition corner_game : GameOfLife.t :=
  GameOfLife.mk 3 (3 # 10) [ [1;0;0]; [0;0;0]; [0;0;0] ].

(** Another 3x3 grid: the live cell has moved to the centre. *)
Definition centre_grid : list (list Z) := [ [0;0;0]; [0;1;0]; [0;0;0] ].

(** Grids of equal dimensions that are not the 3x3 of [corner_game]: a
    2x2 grid, and two 4x4 grids that differ at (3,3) and nowhere else. *)
Definition small_grid : list (list Z) := [ [0;1]; [1;0] ].
Definition wide_grid : list (list Z) :=
  [ [0;0;0;0]; [0;0;0;0]; [0;0;0;0]; [0;0;0;0] ].
Definition wide_grid_changed : list (list Z) :=
  [ [0;0;0;0]; [0;0;0;0]; [0;0;0;0]; [0;0;0;1] ].

(** ** The visualizer's bookkeeping *)

(** No character of the string is a comma. *)
Fixpoint comma_free (s : string) : Prop :=
  match s with
  | EmptyString => True
  | String c s' => c <> ","%char /\ comma_free s'
  end.

(** The claim about the two structures: a blob is in [blobs] iff
    [blobsMap] maps the key of its coordinates to that very blob. *)
Definition agree (v : BlobVisualizer.t) : Prop :=
  forall b, b ∈ BlobVisualizer.blobs v
            <-> BlobVisualizer.blobsMap v !! BlobVisualizer.blob_key b = Some b.

(** Every entry of the map sits under the key of its blob. *)
Definition keyed (m : gmap string BlobVisualizer.blob) : Prop :=
  map_Forall (fun k b => k = BlobVisualizer.blob_key b) m.

(** The bookkeeping describes one set of blobs, each once. *)
Definition consistent (v : BlobVisualizer.t) : Prop :=
  NoDup (BlobVisualizer.blobs v) /\ agree v /\ keyed (BlobVisualizer.blobsMap v).

Definition in_grid (N : Z) (b : BlobVisualizer.blob) : Prop :=
  0 <= BlobVisualizer.blob_x b < N /\ 0 <= BlobVisualizer.blob_y b < N.

(** The keys the search looks up around a blob. *)
Definition neighbour_keys (N : Z) (b : BlobVisualizer.blob) : list string :=
  (fun d => Js.key (Js.rem (BlobVisualizer.blob_x b + d.1 + N) N)
                   (Js.rem (BlobVisualizer.blob_y b + d.2 + N) N))
    <$> Js.offsets.

(** Two cells that differ by at most one modulo [N] in each axis. *)
Definition adjacent (N : Z) (a b : BlobVisualizer.blob) : Prop :=
  exists dx dy, -1 <= dx <= 1 /\ -1 <= dy <= 1
    /\ BlobVisualizer.blob_x b = (BlobVisualizer.blob_x a + dx) mod N
    /\ BlobVisualizer.blob_y b = (BlobVisualizer.blob_y a + dy) mod N.

(** The blobs the search has reached, those of the organisms [before]
    included, are exactly the visited keys, each reached once. *)
Definition search_inv (m : gmap string BlobVisualizer.blob)
    (before : list BlobVisualizer.blob) (st : BlobVisualizer.search) : Prop :=
  let l := before ++ BlobVisualizer.found st ++ BlobVisualizer.queue st in
  NoDup (BlobVisualizer.blob_key <$> l)
  /\ (forall k, k ∈ BlobVisualizer.visited st
                <-> k ∈ BlobVisualizer.blob_key <$> l)
  /\ (forall b, b ∈ l -> m !! BlobVisualizer.blob_key b = Some b).

(** Every neighbour of a blob already taken off the queue is visited. *)
Definition explored (m : gmap string BlobVisualizer.blob) (N : Z)
    (st : BlobVisualizer.search) : Prop :=
  forall b k, b ∈ BlobVisualizer.found st -> k ∈ neighbour_keys N b ->
              is_Some (m !! k) -> k ∈ BlobVisualizer.visited st.

(** All blobs of a list of organisms, organism after organism. *)
Definition all_members (gs : list BlobVisualizer.organism)
  : list BlobVisualizer.blob :=
  mjoin (BlobVisualizer.members <$> gs).

(** The state of the [forEach] after the blobs [visited_blobs]: organisms
    partition the blobs reached so far, ids count up from 0, and each
    organism starts with the blob that seeded it, in array order. *)
Definition grouping_inv (m : gmap string BlobVisualizer.blob)
    (visited_blobs : list BlobVisualizer.blob) (g : BlobVisualizer.grouping)
  : Prop :=
  let l := all_members (BlobVisualizer.groups g) in
  NoDup (BlobVisualizer.blob_key <$> l)
  /\ (forall k, k ∈ BlobVisualizer.seen g <-> k ∈ BlobVisualizer.blob_key <$> l)
  /\ (forall b, b ∈ l -> m !! BlobVisualizer.blob_key b = Some b)
  /\ (forall b, b ∈ visited_blobs -> BlobVisualizer.blob_key b ∈ BlobVisualizer.seen g)
  /\ BlobVisualizer.id <$> BlobVisualizer.groups g
      = Z.of_nat <$> seq 0 (length (BlobVisualizer.groups g))
  /\ BlobVisualizer.currentOrganismId g
      = Z.of_nat (length (BlobVisualizer.groups g))
  /\ exists seeds,
        Forall2 (fun o s => head (BlobVisualizer.members o) = Some s)
                (BlobVisualizer.groups g) seeds
        /\ seeds `sublist_of` visited_blobs.

(** An organism contains every blob of the map that neighbours a member. *)
Definition closed (m : gmap string BlobVisualizer.blob) (N : Z)
    (gs : list BlobVisualizer.organism) : Prop :=
  forall o b k n, o ∈ gs -> b ∈ BlobVisualizer.members o ->
    k ∈ neighbour_keys N b -> m !! k = Some n -> n ∈ BlobVisualizer.members o.

(** The variables of the [forEach] of [identifyOrganismGroups] when it
    ends. *)
Definition grouped (game : GameOfLife.t) (v : BlobVisualizer.t)
  : BlobVisualizer.grouping :=
  foldl (BlobVisualizer.group_from (BlobVisualizer.blobColors v)
           (BlobVisualizer.blobsMap v) (GameOfLife.size game))
    (BlobVisualizer.mk_grouping [] 0 ∅ (BlobVisualizer.heap v))
    (BlobVisualizer.blobs v).

(** The cells in the order the two nested loops visit them, as
    (row, column). *)
Definition scan_order (N : Z) : list (Z * Z) :=
  y ← Js.range N; x ← Js.range N; [(y, x)].

(** The fields that [createMetaballOrganisms] and [updateMetaballPositions]
    leave alone. *)
Definition books (v : BlobVisualizer.t) :=
  (BlobVisualizer.blobColors v, BlobVisualizer.blobs v,
   BlobVisualizer.blobsMap v, BlobVisualizer.organismGroups v,
   BlobVisualizer.pendingChanges v, BlobVisualizer.isAnimating v,
   BlobVisualizer.heap v, BlobVisualizer.chains v).

(** The body of the loop of [createMetaballOrganisms] as a state update. *)
Definition with_metaball (o : BlobVisualizer.organism) (v : BlobVisualizer.t)
  : BlobVisualizer.t :=
  if decide (BlobVisualizer.members o = []) then v
  else
    BlobVisualizer.set_children
      (BlobVisualizer.add_child (BlobVisualizer.Cubes (BlobVisualizer.next_handle v)))
      (BlobVisualizer.set_metaballsMap
         <[BlobVisualizer.id o :=
             BlobVisualizer.mk_metaball (BlobVisualizer.next_handle v) o]>
         (BlobVisualizer.set_next_handle (S (BlobVisualizer.next_handle v)) v)).

(** The body of the loops of [createBlobs] for a live cell. *)
Definition with_blob (x y : Z) (v : BlobVisualizer.t) : BlobVisualizer.t :=
  let b := BlobVisualizer.mk_blob (BlobVisualizer.next_handle v) x y in
  BlobVisualizer.set_children
    (BlobVisualizer.add_child (BlobVisualizer.Group (BlobVisualizer.handle b)))
    (BlobVisualizer.set_blobsMap <[Js.key (Js.Int x) (Js.Int y) := b]>
       (BlobVisualizer.set_blobs (fun bs => bs ++ [b])
          (BlobVisualizer.set_heap
             <[BlobVisualizer.handle b := BlobVisualizer.mk_fields true (-1) false]>
             (BlobVisualizer.set_next_handle
                (S (BlobVisualizer.next_handle v)) v)))).

(** The blobs stand for the live cells of [g] among the cells [visited]. *)
Definition blobs_of_cells (g : list (list Z)) (visited : list (Z * Z))
    (v : BlobVisualizer.t) : Prop :=
  (forall b, b ∈ BlobVisualizer.blobs v ->
     (BlobVisualizer.blob_y b, BlobVisualizer.blob_x b) ∈ visited
     /\ cell g (BlobVisualizer.blob_x b) (BlobVisualizer.blob_y b) = 1)
  /\ (forall x y, (y, x) ∈ visited -> cell g x y = 1 ->
        exists b, b ∈ BlobVisualizer.blobs v
                  /\ BlobVisualizer.blob_x b = x /\ BlobVisualizer.blob_y b = y).

(** What the loops of [createBlobs] and [prepareNextGeneration] leave
    alone. *)
Definition untouched (v0 v : BlobVisualizer.t) : Prop :=
  BlobVisualizer.blobColors v = BlobVisualizer.blobColors v0
  /\ BlobVisualizer.organismGroups v = BlobVisualizer.organismGroups v0
  /\ BlobVisualizer.pendingChanges v = BlobVisualizer.pendingChanges v0
  /\ BlobVisualizer.isAnimating v = BlobVisualizer.isAnimating v0
  /\ BlobVisualizer.chains v = BlobVisualizer.chains v0.

(** Two search states that differ at most in the blob fields. *)
Definition same_search (s1 s2 : BlobVisualizer.search) : Prop :=
  BlobVisualizer.queue s1 = BlobVisualizer.queue s2
  /\ BlobVisualizer.visited s1 = BlobVisualizer.visited s2
  /\ BlobVisualizer.found s1 = BlobVisualizer.found s2.

Definition same_grouping (g1 g2 : BlobVisualizer.grouping) : Prop :=
  BlobVisualizer.groups g1 = BlobVisualizer.groups g2
  /\ BlobVisualizer.currentOrganismId g1 = BlobVisualizer.currentOrganismId g2
  /\ BlobVisualizer.seen g1 = BlobVisualizer.seen g2.

(** The organism groups are the ones [identifyOrganismGroups] computes from
    the current [blobs] and [blobsMap]. *)
Definition up_to_date (game : GameOfLife.t) (v : BlobVisualizer.t) : Prop :=
  BlobVisualizer.organismGroups v = BlobVisualizer.groups (grouped game v).

(** The N x N grid whose live cells are the listed (x, y). *)
Definition grid_of (N : Z) (live : list (Z * Z)) : list (list Z) :=
  (fun y => (fun x => if decide ((x, y) ∈ live) then 1 else 0) <$> Js.range N)
    <$> Js.range N.

Definition game_of (N : Z) (live : list (Z * Z)) : GameOfLife.t :=
  GameOfLife.mk N (3 # 10) (grid_of N live).

Definition palette : BlobVisualizer.colors :=
  App.colors App.default_config.

(** The coordinates of the members of each organism. *)
Definition membership (v : BlobVisualizer.t) : list (Z * list (Z * Z)) :=
  (fun o => (BlobVisualizer.id o,
             (fun b => (BlobVisualizer.blob_x b, BlobVisualizer.blob_y b))
               <$> BlobVisualizer.members o))
    <$> BlobVisualizer.organismGroups v.

(** ** The generation transition *)

(** The fields of a blob created invisible by [prepareNextGeneration]. *)
Definition hidden : BlobVisualizer.blob_fields :=
  BlobVisualizer.mk_fields false (-1) true.

(** [blob.mesh.visible], read from the heap. *)
Definition is_visible (v : BlobVisualizer.t) (b : BlobVisualizer.blob)
  : option bool :=
  BlobVisualizer.visible <$> BlobVisualizer.heap v !! BlobVisualizer.handle b.

(** The state after [createBlob(x, y, ..., false)] and [this.object.add]. *)
Definition with_new_blob (v : BlobVisualizer.t) : BlobVisualizer.t :=
  BlobVisualizer.set_children
    (BlobVisualizer.add_child (BlobVisualizer.Group (BlobVisualizer.next_handle v)))
    (BlobVisualizer.set_heap <[BlobVisualizer.next_handle v := hidden]>
       (BlobVisualizer.set_next_handle (S (BlobVisualizer.next_handle v)) v)).

(** What [prepareNextGeneration] has collected after the cells [visited],
    started in [v0] with the grids [cur] and [nxt]. *)
Definition prepared (cur nxt : list (list Z)) (v0 : BlobVisualizer.t)
    (visited : list (Z * Z)) (c : BlobVisualizer.changes)
    (v : BlobVisualizer.t) : Prop :=
  BlobVisualizer.blobs v = BlobVisualizer.blobs v0
  /\ BlobVisualizer.blobsMap v = BlobVisualizer.blobsMap v0
  /\ untouched v0 v
  /\ (forall b, b ∈ BlobVisualizer.newBlobs c ->
        (BlobVisualizer.blob_y b, BlobVisualizer.blob_x b) ∈ visited
        /\ cell cur (BlobVisualizer.blob_x b) (BlobVisualizer.blob_y b) = 0
        /\ cell nxt (BlobVisualizer.blob_x b) (BlobVisualizer.blob_y b) = 1
        /\ BlobVisualizer.heap v !! BlobVisualizer.handle b = Some hidden
        /\ (BlobVisualizer.handle b < BlobVisualizer.next_handle v)%nat)
  /\ (forall x y, (y, x) ∈ visited -> cell cur x y = 0 -> cell nxt x y = 1 ->
        exists b, b ∈ BlobVisualizer.newBlobs c
                  /\ BlobVisualizer.blob_x b = x /\ BlobVisualizer.blob_y b = y)
  /\ NoDup (BlobVisualizer.blob_key <$> BlobVisualizer.newBlobs c)
  /\ (forall b, b ∈ BlobVisualizer.blobsToRemove c <->
        exists x y, (y, x) ∈ visited /\ cell cur x y = 1 /\ cell nxt x y = 0
          /\ BlobVisualizer.blobsMap v0 !! Js.key (Js.Int x) (Js.Int y) = Some b).

(** The bodies of the loops of the first [then] callback as state updates. *)
Definition without_blob (b : BlobVisualizer.blob) (v : BlobVisualizer.t)
  : BlobVisualizer.t :=
  BlobVisualizer.set_children
    (BlobVisualizer.remove_child (BlobVisualizer.Group (BlobVisualizer.handle b)))
    (BlobVisualizer.set_blobs (filter (fun b' => b' <> b))
       (BlobVisualizer.set_blobsMap (delete (BlobVisualizer.blob_key b)) v)).

Definition with_added_blob (b : BlobVisualizer.blob) (v : BlobVisualizer.t)
  : BlobVisualizer.t :=
  BlobVisualizer.set_blobs (fun bs => bs ++ [b])
    (BlobVisualizer.set_blobsMap <[BlobVisualizer.blob_key b := b]> v).

Definition shown (b : BlobVisualizer.blob) (v : BlobVisualizer.t)
  : BlobVisualizer.t :=
  BlobVisualizer.set_heap
    (alter (BlobVisualizer.set_visible true) (BlobVisualizer.handle b)) v.

(** Two heaps that agree on [mesh.visible] of every blob. *)
Definition same_visibility (h1 h2 : gmap nat BlobVisualizer.blob_fields)
  : Prop :=
  forall n, BlobVisualizer.visible <$> h1 !! n
            = BlobVisualizer.visible <$> h2 !! n.

(** A 5x5 game with a vertical blinker, the current grid of the examples
    of a transition, and the next generation, the horizontal blinker. *)
Definition vertical : list (Z * Z) := [(2, 1); (2, 2); (2, 3)].
Definition horizontal : list (Z * Z) := [(1, 2); (2, 2); (3, 2)].
Definition blinker_start : GameOfLife.t := game_of 5 vertical.

(** The visualizer built for it. *)
Definition blinker_view : BlobVisualizer.t :=
  (BlobVisualizer.constructor blinker_start palette).2.

(** The fields that the second [then] callback leaves alone, apart from
    the two flags it clears. *)
Definition ledger (v : BlobVisualizer.t) :=
  (BlobVisualizer.blobColors v, BlobVisualizer.blobs v,
   BlobVisualizer.blobsMap v, BlobVisualizer.organismGroups v,
   BlobVisualizer.pendingChanges v, BlobVisualizer.isAnimating v,
   BlobVisualizer.chains v).

(** The next grid of the example transition. *)
Definition horizontal_grid : list (list Z) := grid_of 5 horizontal.

(** The two blobs of [blinker_view] that die in the example transition. *)
Definition dying : list BlobVisualizer.blob :=
  [BlobVisualizer.mk_blob 0 2 1; BlobVisualizer.mk_blob 2 2 3].

(** ** A run of the application *)

(** Results of [Math.random()] that make the initial 40x40 grid a vertical
    blinker at (2,1), (2,2), (2,3): with density 0.2 a cell is alive when
    its draw is below 0.2. *)
Definition blinker_random (i : nat) : Q :=
  if bool_decide (i ∈ [42; 82; 122]%nat) then 0 else 1 # 2.

(** The timer steps once; while that transition is still animating the
    user clicks "Step Forward"; the transition runs to its end; the timer
    steps again and that transition runs to its end too. The blobs named
    are the ones whose tweens complete. *)
Definition step_during_animation : list App.input :=
  [ App.Frame true;
    App.ClickStep;
    App.Visual (BlobVisualizer.TweenComplete 0 (BlobVisualizer.mk_blob 0 2 1));
    App.Visual (BlobVisualizer.TweenComplete 0 (BlobVisualizer.mk_blob 2 2 3));
    App.Visual (BlobVisualizer.Callback 0);
    App.Visual (BlobVisualizer.TweenComplete 0 (BlobVisualizer.mk_blob 4 1 2));
    App.Visual (BlobVisualizer.TweenComplete 0 (BlobVisualizer.mk_blob 5 3 2));
    App.Visual (BlobVisualizer.Callback 0);
    App.Frame true;
    App.Visual (BlobVisualizer.Callback 0);
    App.Visual (BlobVisualizer.TweenComplete 0 (BlobVisualizer.mk_blob 7 1 2));
    App.Visual (BlobVisualizer.TweenComplete 0 (BlobVisualizer.mk_blob 8 3 2));
    App.Visual (BlobVisualizer.Callback 0) ].

(** The application after these inputs, started with the configuration of
    the source. *)
Definition after_step_during_animation : option App.t :=
  match App.init App.default_config blinker_random with
  | Js.Normal app => App.run step_during_animation app
  | Js.Throw _ => None
  end.

(** The timer steps once; while that transition is still animating the
    user clicks "Reset Game" (the new random grid is again the vertical
    blinker); then the shrink tweens of the abandoned transition complete
    and its callback runs. *)
Definition reset_during_animation : list App.input :=
  [ App.Frame true;
    App.ClickReset blinker_random;
    App.Visual (BlobVisualizer.TweenComplete 0 (BlobVisualizer.mk_blob 0 2 1));
    App.Visual (BlobVisualizer.TweenComplete 0 (BlobVisualizer.mk_blob 2 2 3));
    App.Visual (BlobVisualizer.Callback 0) ].

Definition after_reset_during_animation : option App.t :=
  match App.init App.default_config blinker_random with
  | Js.Normal app => App.run reset_during_animation app
  | Js.Throw _ => None
  end.

(** The run of [step_during_animation], followed by the next step of the
    timer and the completion of the shrink tweens it starts: the first
    callback of that transition is about to run. *)
Definition stale_transition : list App.input :=
  step_during_animation ++
  [ App.Frame true;
    App.Visual (BlobVisualizer.TweenComplete 0 (BlobVisualizer.mk_blob 7 1 2));
    App.Visual (BlobVisualizer.TweenComplete 0 (BlobVisualizer.mk_blob 8 3 2)) ].

Definition before_stale_regroup : option App.t :=
  match App.init App.default_config blinker_random with
  | Js.Normal app => App.run stale_transition app
  | Js.Throw _ => None
  end.

(** The grid moved by [a] columns and [b] rows around the torus. *)
Definition shift (N a b : Z) (g : list (list Z)) : list (list Z) :=
  (fun y => (fun x => cell g ((x - a) mod N) ((y - b) mod N)) <$> Js.range N)
    <$> Js.range N.

(** The [N]x[N] grid whose cells all hold [c]. *)
Definition uniform (N c : Z) : list (list Z) :=
  replicate (Z.to_nat N) (replicate (Z.to_nat N) c).

(** The cells, as (x, y) in the order the two nested loops visit them,
    that hold [a] in the current grid and [b] in the next one. *)
Definition transitions (N : Z) (cur nxt : list (list Z)) (a b : Z)
  : list (Z * Z) :=
  (fun p => (p.2, p.1))
    <$> filter (fun p => cell cur p.2 p.1 = a /\ cell nxt p.2 p.1 = b)
          (scan_order N).

(** What [prepareNextGeneration] has sorted into its lists after the
    cells [visited], started in [v0]. *)
Definition classified (cur nxt : list (list Z)) (v0 : BlobVisualizer.t)
    (visited : list (Z * Z)) (c : BlobVisualizer.changes)
    (v : BlobVisualizer.t) : Prop :=
  let moved a b :=
    (fun p : Z * Z => (p.2, p.1))
      <$> filter (fun p => cell cur p.2 p.1 = a /\ cell nxt p.2 p.1 = b)
            visited in
  BlobVisualizer.appearingCells c = moved 0 1
  /\ BlobVisualizer.disappearingCells c = moved 1 0
  /\ BlobVisualizer.persistentCells c = moved 1 1
  /\ (fun b => (BlobVisualizer.blob_x b, BlobVisualizer.blob_y b))
       <$> BlobVisualizer.newBlobs c
     = BlobVisualizer.appearingCells c
  /\ BlobVisualizer.blobsToRemove c
     = omap (fun p => BlobVisualizer.blobsMap v0 !! Js.key (Js.Int p.1) (Js.Int p.2))
         (BlobVisualizer.disappearingCells c)
  /\ BlobVisualizer.metaballsMap v = BlobVisualizer.metaballsMap v0.

(** Among the blobs [among], [b] is the blob that [blobsMap] holds under
    one of the eight keys that the search looks up around [a]. *)
Definition linked (m : gmap string BlobVisualizer.blob) (N : Z)
    (among : list BlobVisualizer.blob) (a b : BlobVisualizer.blob) : Prop :=
  a ∈ among /\ b ∈ among
  /\ exists k, k ∈ neighbour_keys N a /\ m !! k = Some b.

(** Every blob the search holds was reached from the seed, step by step
    through blobs the search holds. *)
Definition reached (m : gmap string BlobVisualizer.blob) (N : Z)
    (seed : BlobVisualizer.blob) (st : BlobVisualizer.search) : Prop :=
  forall b, b ∈ BlobVisualizer.found st ++ BlobVisualizer.queue st ->
    rtc (linked m N (BlobVisualizer.found st ++ BlobVisualizer.queue st))
      seed b.

(** The organism starts with its seed, and every member is reached from
    the seed through members. *)
Definition connected (m : gmap string BlobVisualizer.blob) (N : Z)
    (o : BlobVisualizer.organism) : Prop :=
  exists seed,
    head (BlobVisualizer.members o) = Some seed
    /\ forall b, b ∈ BlobVisualizer.members o ->
         rtc (linked m N (BlobVisualizer.members o)) seed b.

(** Two blobs of [l] next to each other on the torus. *)
Definition touching (N : Z) (l : list BlobVisualizer.blob)
    (a b : BlobVisualizer.blob) : Prop :=
  a ∈ l /\ b ∈ l /\ adjacent N a b.

(** The organism with id [i] is found and has blobs: the test that makes
    [updateMetaballPositions] keep the metaball stored under [i]. *)
Definition has_members (gs : list BlobVisualizer.organism) (i : Z) : Prop :=
  match BlobVisualizer.find_organism gs i with
  | Some o => BlobVisualizer.members o <> []
  | None => False
  end.

#[global] Instance has_members_dec gs i : Decision (has_members gs i).
Proof. unfold has_members. destruct (BlobVisualizer.find_organism gs i); apply _. Defined.

(** The body of the loop of [updateMetaballPositions] on [metaballsMap]. *)
Definition prune (gs : list BlobVisualizer.organism)
    (mm : gmap Z BlobVisualizer.metaball) (e : Z * BlobVisualizer.metaball)
  : gmap Z BlobVisualizer.metaball :=
  if decide (has_members gs e.1) then mm else delete e.1 mm.

(** The [organismId] that the search has written: on the blobs taken off
    the queue it is [c], the other fields and the other blobs are as in
    [h0]. *)
Definition labelled (h0 : gmap nat BlobVisualizer.blob_fields) (c : Z)
    (st : BlobVisualizer.search) : Prop :=
  forall n,
    BlobVisualizer.fields st !! n
    = if decide (n ∈ BlobVisualizer.handle <$> BlobVisualizer.found st)
      then BlobVisualizer.set_organismId c <$> h0 !! n
      else h0 !! n.

(** The same for the [forEach]: every member of an organism carries the
    organism's id. *)
Definition stored (h0 : gmap nat BlobVisualizer.blob_fields)
    (g : BlobVisualizer.grouping) : Prop :=
  (forall o b, o ∈ BlobVisualizer.groups g -> b ∈ BlobVisualizer.members o ->
     BlobVisualizer.store g !! BlobVisualizer.handle b
     = BlobVisualizer.set_organismId (BlobVisualizer.id o)
         <$> h0 !! BlobVisualizer.handle b)
  /\ (forall n,
        n ∉ BlobVisualizer.handle
              <$> all_members (BlobVisualizer.groups g) ->
        BlobVisualizer.store g !! n = h0 !! n).

(** [this.blobColors[id % this.blobColors.length]] *)
Definition coloured (palette : list Z) (o : BlobVisualizer.organism) : Prop :=
  BlobVisualizer.color o
  = Js.index palette
      (Js.rem (BlobVisualizer.id o) (Z.of_nat (length palette))).

(** The blobs as [createBlobs] makes them: visible, not new, in no
    organism yet, each a different object. *)
Definition fresh (v : BlobVisualizer.t) : Prop :=
  NoDup (BlobVisualizer.handle <$> BlobVisualizer.blobs v)
  /\ forall b, b ∈ BlobVisualizer.blobs v ->
       (BlobVisualizer.handle b < BlobVisualizer.next_handle v)%nat
       /\ BlobVisualizer.heap v !! BlobVisualizer.handle b
          = Some (BlobVisualizer.mk_fields true (-1) false).

(** The visualizer at rest on the grid of [game]: the two structures
    agree and stand for the live cells, the organisms are those of the
    blobs, every blob is a visible object of its own that is not new and
    carries the id of its organism, and there is one metaball for each
    organism and no other. *)
Definition settled (game : GameOfLife.t) (v : BlobVisualizer.t) : Prop :=
  consistent v
  /\ blobs_of_cells (GameOfLife.grid game) (scan_order (GameOfLife.size game)) v
  /\ up_to_date game v
  /\ NoDup (BlobVisualizer.handle <$> BlobVisualizer.blobs v)
  /\ (forall b, b ∈ BlobVisualizer.blobs v ->
        (BlobVisualizer.handle b < BlobVisualizer.next_handle v)%nat)
  /\ (forall o b, o ∈ BlobVisualizer.organismGroups v ->
        b ∈ BlobVisualizer.members o ->
        BlobVisualizer.heap v !! BlobVisualizer.handle b
        = Some (BlobVisualizer.mk_fields true (BlobVisualizer.id o) false))
  /\ (forall o, o ∈ BlobVisualizer.organismGroups v ->
        exists h, BlobVisualizer.metaballsMap v !! BlobVisualizer.id o
                  = Some (BlobVisualizer.mk_metaball h o))
  /\ (forall i mb, BlobVisualizer.metaballsMap v !! i = Some mb ->
        BlobVisualizer.metaball_organism mb ∈ BlobVisualizer.organismGroups v
        /\ BlobVisualizer.id (BlobVisualizer.metaball_organism mb) = i)
  /\ BlobVisualizer.isAnimating v = false
  /\ BlobVisualizer.pendingChanges v = None.



(** What [prepareNextGeneration] has done to the blob objects: the ones
    that existed before are as they were, and the new ones are objects of
    their own, made after all of those. *)
Definition extended (v0 : BlobVisualizer.t) (c : BlobVisualizer.changes)
    (v : BlobVisualizer.t) : Prop :=
  (BlobVisualizer.next_handle v0 <= BlobVisualizer.next_handle v)%nat
  /\ (forall n, (n < BlobVisualizer.next_handle v0)%nat ->
        BlobVisualizer.heap v !! n = BlobVisualizer.heap v0 !! n)
  /\ (forall b, b ∈ BlobVisualizer.newBlobs c ->
        (BlobVisualizer.next_handle v0 <= BlobVisualizer.handle b
         < BlobVisualizer.next_handle v)%nat)
  /\ NoDup (BlobVisualizer.handle <$> BlobVisualizer.newBlobs c).

(** The visualizer between the two callbacks of a transition: as at
    rest on the grid of [game], except that the animation flag is set and
    the blobs that appeared are still flagged new. *)
Definition growing (game : GameOfLife.t) (v : BlobVisualizer.t) : Prop :=
  consistent v
  /\ blobs_of_cells (GameOfLife.grid game) (scan_order (GameOfLife.size game)) v
  /\ up_to_date game v
  /\ NoDup (BlobVisualizer.handle <$> BlobVisualizer.blobs v)
  /\ (forall b, b ∈ BlobVisualizer.blobs v ->
        (BlobVisualizer.handle b < BlobVisualizer.next_handle v)%nat)
  /\ (forall o b, o ∈ BlobVisualizer.organismGroups v ->
        b ∈ BlobVisualizer.members o ->
        exists nw,
          BlobVisualizer.heap v !! BlobVisualizer.handle b
          = Some (BlobVisualizer.mk_fields true (BlobVisualizer.id o) nw))
  /\ (forall o, o ∈ BlobVisualizer.organismGroups v ->
        exists h, BlobVisualizer.metaballsMap v !! BlobVisualizer.id o
                  = Some (BlobVisualizer.mk_metaball h o))
  /\ (forall i mb, BlobVisualizer.metaballsMap v !! i = Some mb ->
        BlobVisualizer.metaball_organism mb ∈ BlobVisualizer.organismGroups v
        /\ BlobVisualizer.id (BlobVisualizer.metaball_organism mb) = i)
  /\ BlobVisualizer.isAnimating v = true.

(** The automaton holds a square grid of 0/1 cells of its size. *)
Definition valid_game (g : GameOfLife.t) : Prop :=
  square (GameOfLife.size g) (GameOfLife.grid g) /\ binary (GameOfLife.grid g).

(** The grid that [computeNextGeneration] returns for a valid game. *)
Definition next_grid (g : GameOfLife.t) : list (list Z) :=
  (fun y => (fun x => next_cell (GameOfLife.size g) (GameOfLife.grid g) x y)
              <$> Js.range (GameOfLife.size g))
    <$> Js.range (GameOfLife.size g).

(** The visualizer while the shrink tweens of a transition run: the
    transition was prepared on a visualizer at rest on the previous grid
    [cur], and the blobs, the map and the blob objects are as that call
    left them; [w] are the blobs whose tween is still running. *)
Definition shrinking (game : GameOfLife.t) (v : BlobVisualizer.t) : Prop :=
  exists cur v0 v1 c w,
    square (GameOfLife.size game) cur /\ binary cur
    /\ settled (GameOfLife.set_grid cur game) v0
    /\ BlobVisualizer.prepareNextGeneration game cur
         (GameOfLife.grid game) v0 = (Js.Normal true, v1)
    /\ BlobVisualizer.pendingChanges v1 = Some c
    /\ BlobVisualizer.blobColors v = BlobVisualizer.blobColors v1
    /\ BlobVisualizer.blobs v = BlobVisualizer.blobs v1
    /\ BlobVisualizer.blobsMap v = BlobVisualizer.blobsMap v1
    /\ BlobVisualizer.heap v = BlobVisualizer.heap v1
    /\ (BlobVisualizer.next_handle v1 <= BlobVisualizer.next_handle v)%nat
    /\ BlobVisualizer.isAnimating v = true
    /\ BlobVisualizer.chains v = [BlobVisualizer.AwaitShrink w c].

(** The states that the application passes through when a step or a
    reset is only started while no transition is animating: at rest on
    the grid of the automaton; or with the shrink tweens of a transition
    running; or between the two callbacks of a transition. *)
Definition orderly (app : App.t) : Prop :=
  let game := App.game app in
  let v := App.blobVisualizer app in
  valid_game game
  /\ ((settled game v /\ BlobVisualizer.chains v = [])
      \/ shrinking game v
      \/ (exists w, growing game v
                    /\ BlobVisualizer.chains v = [BlobVisualizer.AwaitGrow w])).

(** A click on "Step Forward" or "Reset Game" and a move of the "Initial
    Density" slider wait until no transition is animating; the other
    inputs come at any time. *)
Definition safe (app : App.t) (i : App.input) : Prop :=
  match i with
  | App.ClickStep | App.ClickReset _ | App.SlideDensity _ _ =>
      BlobVisualizer.isAnimating (App.blobVisualizer app) = false
  | _ => True
  end.

(** Every input of the run is safe in the state it arrives in. *)
Fixpoint safely (inputs : list App.input) (app : App.t) : Prop :=
  match inputs with
  | [] => True
  | i :: rest =>
      safe app i
      /\ match App.react i app with
         | Some (Js.Normal _, app') => safely rest app'
         | _ => True
         end
  end.

(** A 5x5 application whose random draws give the vertical blinker, and
    a run in which the step, the reset and the density slider wait: the
    timer starts a transition; while it animates a slime slider is moved
    and its timer fires, frames and other controls come in between, and
    the tweens and callbacks of the transition run; at rest the density
    slider is moved and "Step Forward" is clicked. *)
Definition small_config : App.config :=
  App.mk_config 5 (2 # 10) true (App.colors App.default_config).

Definition small_random (i : nat) : Q :=
  if bool_decide (i ∈ [7; 12; 17]%nat) then 0 else 1 # 2.

Definition calm_inputs : list App.input :=
  [ App.Frame true;
    App.SlideSettings;
    App.Visual (BlobVisualizer.TweenComplete 0 (BlobVisualizer.mk_blob 0 2 1));
    App.SettingsTimer;
    App.Frame true;
    App.Display;
    App.Visual (BlobVisualizer.TweenComplete 0 (BlobVisualizer.mk_blob 2 2 3));
    App.Visual (BlobVisualizer.Callback 0);
    App.ClickPlayPause;
    App.SettingsTimer;
    App.Visual (BlobVisualizer.TweenComplete 0 (BlobVisualizer.mk_blob 4 1 2));
    App.Visual (BlobVisualizer.TweenComplete 0 (BlobVisualizer.mk_blob 5 3 2));
    App.Visual (BlobVisualizer.Callback 0);
    App.SettingsTimer;
    App.Frame true;
    App.SlideDensity (3 # 10) small_random;
    App.ClickStep ].

(** The paused application showing the vertical blinker. *)
Definition paused_blinker : App.t :=
  App.mk small_config blinker_start blinker_view true.

(* ================================================================== *)
(** * Properties *)
(* ================================================================== *)

(** Closes a decidable goal about concrete data by evaluating its decision
    procedure. *)
Ltac decide_by_computation :=
  match goal with
  | |- ?P => apply (bool_decide_unpack P); vm_compute; exact I
  end.

Section MonadFacts.
Import Js.
Context {S : Type}.

(** A loop whose body neither throws nor writes collects its results. *)
Lemma mapM_pure {A B} (f : A -> M S B) (g : A -> B) (l : list A) (s : S) :
  (forall a, a ∈ l -> f a s = (Normal (g a), s)) ->
  mapM f l s = (Normal (g <$> l), s).
Proof.
  induction l as [|a l IH]; intros Hf; [done|].
  cbn [mapM]. unfold bind at 1. rewrite Hf by left.
  unfold bind at 1. rewrite IH; [done|].
  intros b Hb. apply Hf. by right.
Qed.

Lemma foldM_pure {A B} (f : B -> A -> M S B) (g : B -> A -> B)
    (l : list A) (b : B) (s : S) :
  (forall b a, a ∈ l -> f b a s = (Normal (g b a), s)) ->
  foldM f b l s = (Normal (foldl g b l), s).
Proof.
  revert b. induction l as [|a l IH]; intros b Hf; [done|].
  cbn [foldM foldl]. unfold bind. rewrite Hf by left.
  apply IH. intros b' a' Ha'. apply Hf. by right.
Qed.

Lemma bind_run {A B} (m : M S A) (f : A -> M S B) (s s' : S) (a : A) :
  m s = (Normal a, s') -> bind m f s = f a s'.
Proof. intros Hm. unfold bind. by rewrite Hm. Qed.

Lemma foldM_app {A B} (f : B -> A -> M S B) (l1 l2 : list A) (b : B) (s : S) :
  foldM f b (l1 ++ l2) s = bind (foldM f b l1) (fun b' => foldM f b' l2) s.
Proof.
  revert b s. induction l1 as [|a l1 IH]; intros b s; [done|].
  cbn [foldM app]. unfold bind.
  destruct (f b a s) as [[b'|e] s']; [|done]. by rewrite IH.
Qed.

(** Two nested loops visit the pairs of their ranges in row order. *)
Lemma foldM_product {A1 A2 B} (f : B -> A1 -> A2 -> M S B)
    (l1 : list A1) (l2 : list A2) (b : B) (s : S) :
  foldM (fun b a1 => foldM (fun b a2 => f b a1 a2) b l2) b l1 s
  = foldM (fun b p => f b p.1 p.2) b (a1 ← l1; a2 ← l2; [(a1, a2)]) s.
Proof.
  revert b s. induction l1 as [|a1 l1 IH]; intros b s; [done|].
  csimpl. rewrite foldM_app. unfold bind.
  assert (forall b s, foldM (fun b a2 => f b a1 a2) b l2 s
            = foldM (fun b p => f b p.1 p.2) b (a2 ← l2; [(a1, a2)]) s)
    as Hrow.
  { clear. intros b s. revert b s.
    induction l2 as [|a2 l2 IH2]; intros b s; [done|].
    csimpl. unfold bind. destruct (f b a1 a2 s) as [[b'|e] s']; [|done].
    apply IH2. }
  rewrite Hrow.
  destruct (foldM _ b (a2 ← l2; [(a1, a2)]) s) as [[b'|e] s']; [|done].
  apply IH.
Qed.

Lemma foldM_ext {A B} (f g : B -> A -> M S B) (l : list A) (b : B) (s : S) :
  (forall b a s, f b a s = g b a s) -> foldM f b l s = foldM g b l s.
Proof.
  intros Hfg. revert b s. induction l as [|a l IH]; intros b s; [done|].
  cbn [foldM]. unfold bind. rewrite Hfg.
  destruct (g b a s) as [[b'|e] s']; [apply IH|done].
Qed.

(** The same for loops that carry no value. *)
Lemma forM_product {A1 A2} (f : A1 -> A2 -> M S unit)
    (l1 : list A1) (l2 : list A2) (s : S) :
  foldM (fun _ a1 => foldM (fun _ a2 => f a1 a2) tt l2) tt l1 s
  = foldM (fun _ p => f p.1 p.2) tt (a1 ← l1; a2 ← l2; [(a1, a2)]) s.
Proof.
  rewrite <- (foldM_product (fun _ a1 a2 => f a1 a2)).
  apply foldM_ext. by intros [] a1 s'.
Qed.

(** A loop whose body only updates the state. *)
Lemma foldM_modify {A} (body : A -> M S unit) (F : A -> S -> S)
    (l : list A) (s : S) :
  (forall a s, body a s = (Normal tt, F a s)) ->
  foldM (fun _ a => body a) tt l s = (Normal tt, foldl (fun s a => F a s) s l).
Proof.
  intros Hbody. revert s. induction l as [|a l IH]; intros s; [done|].
  cbn [foldM foldl]. unfold bind. rewrite Hbody. apply IH.
Qed.

(** A loop that keeps an invariant [I], indexed by the elements visited
    so far, completes normally and ends in the invariant. *)
Lemma foldM_invariant {A B} (f : B -> A -> M S B)
    (I : list A -> B -> S -> Prop) (l : list A) (b : B) (s : S) :
  I [] b s ->
  (forall visited a rest b s,
      l = visited ++ a :: rest -> I visited b s ->
      exists b' s', f b a s = (Normal b', s') /\ I (visited ++ [a]) b' s') ->
  exists b' s', foldM f b l s = (Normal b', s') /\ I l b' s'.
Proof.
  intros Hinit Hstep.
  assert (forall rest visited b s,
    l = visited ++ rest -> I visited b s ->
    exists b' s', foldM f b rest s = (Normal b', s') /\ I l b' s') as Hgen.
  { induction rest as [|a rest IH]; intros visited b0 s0 Hl HI.
    - rewrite app_nil_r in Hl. subst. exists b0, s0. by split.
    - destruct (Hstep visited a rest b0 s0 Hl HI) as (b1 & s1 & Hf & HI1).
      destruct (IH (visited ++ [a]) b1 s1) as (b2 & s2 & Hfold & HI2).
      { by rewrite <- (assoc_L (++)). }
      { done. }
      exists b2, s2. split; [|done].
      cbn [foldM]. unfold bind. by rewrite Hf. }
  by apply (Hgen l []).
Qed.
End MonadFacts.

Section GridFacts.
Import Js.

Lemma range_lookup (N i : Z) :
  0 <= i < N -> range N !! Z.to_nat i = Some i.
Proof.
  intros Hi. unfold range. rewrite lookup_seqZ. split; lia.
Qed.

Lemma elem_of_range (N i : Z) : i ∈ range N <-> 0 <= i < N.
Proof. unfold range. rewrite elem_of_seqZ. lia. Qed.

Lemma range_length (N : Z) : length (range N) = Z.to_nat N.
Proof. unfold range. apply length_seqZ. Qed.

Lemma square_row (N : Z) (g : list (list Z)) (y : Z) :
  square N g -> 0 <= y < N ->
  exists row, g !! Z.to_nat y = Some row /\ length row = Z.to_nat N.
Proof.
  intros [Hlen Hrows] Hy.
  destruct (lookup_lt_is_Some_2 g (Z.to_nat y)) as [row Hrow]; [lia|].
  exists row. split; [done|].
  rewrite Forall_forall in Hrows. apply Hrows.
  by eapply list_elem_of_lookup_2.
Qed.

Lemma square_cell (N : Z) (g : list (list Z)) (x y : Z) :
  square N g -> 0 <= x < N -> 0 <= y < N ->
  exists row, g !! Z.to_nat y = Some row
              /\ row !! Z.to_nat x = Some (cell g x y).
Proof.
  intros Hsq Hx Hy.
  destruct (square_row N g y Hsq Hy) as (row & Hrow & Hlen).
  destruct (lookup_lt_is_Some_2 row (Z.to_nat x)) as [c Hc]; [lia|].
  exists row. split; [done|].
  unfold cell. rewrite Hrow. cbn. by rewrite Hc.
Qed.

Lemma binary_cell (N : Z) (g : list (list Z)) (x y : Z) :
  square N g -> binary g -> 0 <= x < N -> 0 <= y < N ->
  cell g x y = 0 \/ cell g x y = 1.
Proof.
  intros Hsq Hbin Hx Hy.
  destruct (square_cell N g x y Hsq Hx Hy) as (row & Hrow & Hc).
  unfold binary in Hbin. rewrite Forall_forall in Hbin.
  specialize (Hbin row (list_elem_of_lookup_2 _ _ _ Hrow)).
  rewrite Forall_forall in Hbin.
  exact (Hbin _ (list_elem_of_lookup_2 _ _ _ Hc)).
Qed.

(** Reading inside an [N]x[N] grid succeeds. *)
Lemma read2_inside {S} (N : Z) (g : list (list Z)) (x y : Z) (s : S) :
  square N g -> 0 <= x < N -> 0 <= y < N ->
  read2 g (Int y) (Int x) s = (Normal (Number (Int (cell g x y))), s).
Proof.
  intros Hsq Hx Hy.
  destruct (square_cell N g x y Hsq Hx Hy) as (row & Hrow & Hc).
  unfold read2, read, index.
  destruct (Z.ltb_spec y 0); [lia|]. rewrite Hrow.
  destruct (Z.ltb_spec x 0); [lia|]. by rewrite Hc.
Qed.

Lemma rem_wrap (N a : Z) :
  1 <= N -> - N <= a -> rem (a + N) N = Int (a mod N).
Proof.
  intros HN Ha. unfold rem.
  destruct (Z.eqb_spec N 0); [lia|].
  rewrite Z.rem_mod_nonneg by lia.
  replace (a + N) with (a + 1 * N) by lia. by rewrite Z_mod_plus_full.
Qed.

Lemma rem_multiple (N a : Z) :
  1 <= N -> (N | a) -> rem (a + N) N = Int (a mod N).
Proof.
  intros HN [k ->]. unfold rem.
  destruct (Z.eqb_spec N 0); [lia|].
  replace (k * N + N) with ((k + 1) * N) by lia.
  rewrite Z.rem_mul by lia. by rewrite Z_mod_mult.
Qed.

Lemma rem_negative (N a : Z) :
  1 <= N -> a < - N -> ~ (N | a) -> exists r, rem (a + N) N = Int r /\ r < 0.
Proof.
  intros HN Ha Hdiv. unfold rem.
  destruct (Z.eqb_spec N 0); [lia|].
  exists (Z.rem (a + N) N). split; [done|].
  pose proof (Z.rem_bound_pos_neg (a + N) N ltac:(lia) ltac:(lia)) as Hb.
  destruct (Z.eq_dec (Z.rem (a + N) N) 0) as [Hz|]; [|lia].
  exfalso. apply Hdiv.
  apply Z.rem_divide in Hz; [|lia].
  destruct Hz as [k Hk]. exists (k - 1). lia.
Qed.
End GridFacts.

Section GameOfLifeFacts.
Import Js GameOfLife.

Lemma getCell_wrapped (this : t) (N x y : Z) :
  size this = N -> 1 <= N -> square N (grid this) ->
  wrappable N x -> wrappable N y ->
  getCell x y this
  = (Normal (Number (Int (cell (grid this) (x mod N) (y mod N)))), this).
Proof.
  intros HN Hpos Hsq Hx Hy. unfold getCell, bind, get. rewrite HN.
  assert (rem (x + N) N = Int (x mod N)) as ->
    by (destruct Hx; [by apply rem_wrap | by apply rem_multiple]).
  assert (rem (y + N) N = Int (y mod N)) as ->
    by (destruct Hy; [by apply rem_wrap | by apply rem_multiple]).
  apply (read2_inside N); [done|apply Z.mod_pos_bound; lia..].
Qed.

Lemma strict_eq_int (a b : Z) :
  strict_eq (Number (Int a)) (Number (Int b)) = bool_decide (a = b).
Proof.
  unfold strict_eq. apply bool_decide_ext. split; [by intros [= ->]|by intros ->].
Qed.

Lemma offsets_eq : offsets = neighbours8.
Proof. reflexivity. Qed.

Lemma offsets_small (dx dy : Z) :
  (dx, dy) ∈ offsets -> -1 <= dx <= 1 /\ -1 <= dy <= 1.
Proof.
  rewrite offsets_eq. unfold neighbours8.
  rewrite !elem_of_cons, elem_of_nil. intros H.
  repeat destruct H as [H|H]; try done; inversion H; lia.
Qed.

(** Summing cells that are 0 or 1 counts the live ones. *)
Lemma add_counts {A} (h : A -> Z) (l : list A) (a : Z) :
  (forall d, d ∈ l -> h d = 0 \/ h d = 1) ->
  foldl (fun c d => add c (Number (Int (h d)))) (Int a) l
  = Int (a + Z.of_nat (length (filter (fun d => h d = 1) l))).
Proof.
  revert a. induction l as [|d l IH]; intros a Hl.
  - cbn. f_equal. lia.
  - cbn [foldl add]. rewrite IH by (intros; apply Hl; by right).
    rewrite filter_cons. destruct (Hl d ltac:(left)) as [Hd|Hd].
    + rewrite decide_False by lia. f_equal. lia.
    + rewrite decide_True by done. cbn [length]. f_equal. lia.
Qed.

Lemma countNeighbors_inside (this : t) (N x y : Z) :
  size this = N -> square N (grid this) -> binary (grid this) ->
  0 <= x < N -> 0 <= y < N ->
  countNeighbors x y this
  = (Normal (Int (live_neighbours N (grid this) x y)), this).
Proof.
  intros HN Hsq Hbin Hx Hy. unfold countNeighbors.
  rewrite (foldM_pure _ (fun c d => add c (Number (Int
    (cell (grid this) ((x + d.1) mod N) ((y + d.2) mod N)))))).
  - rewrite add_counts.
    { rewrite offsets_eq. unfold live_neighbours. by rewrite Z.add_0_l. }
    intros d _.
    apply (binary_cell N); [done|done|apply Z.mod_pos_bound; lia..].
  - intros c [dx dy] Hd. apply offsets_small in Hd.
    unfold bind. cbn [fst snd].
    rewrite (getCell_wrapped this N); [done|done|lia|done|left; lia..].
Qed.

Lemma live_neighbours_bound (N : Z) (g : list (list Z)) (x y : Z) :
  0 <= live_neighbours N g x y <= 8.
Proof.
  unfold live_neighbours.
  pose proof (length_filter
    (fun d => cell g ((x + d.1) mod N) ((y + d.2) mod N) = 1) neighbours8) as H.
  cbn [neighbours8 length] in H. lia.
Qed.

Lemma next_cell_body (this : t) (N x y : Z) :
  size this = N -> square N (grid this) -> binary (grid this) ->
  0 <= x < N -> 0 <= y < N ->
  (let* cell := getCell x y in
   let* neighbors := countNeighbors x y in
   if strict_eq cell (Number (Int 1)) then
     ret (if strict_eq (Number neighbors) (Number (Int 2))
             || strict_eq (Number neighbors) (Number (Int 3))
          then 1 else 0)
   else
     ret (if strict_eq (Number neighbors) (Number (Int 3))
          then 1 else 0))%js this
  = (Normal (next_cell N (grid this) x y), this).
Proof.
  intros HN Hsq Hbin Hx Hy. unfold bind at 1.
  rewrite (getCell_wrapped this N) by (done || lia || (left; lia)).
  unfold bind. rewrite (countNeighbors_inside this N) by done.
  rewrite !Z.mod_small by lia.
  rewrite !strict_eq_int. unfold next_cell, conway, ret.
  set (n := live_neighbours N (grid this) x y).
  set (c := cell (grid this) x y).
  repeat case_bool_decide; cbn; try done; exfalso; lia.
Qed.

Lemma computeNextGeneration_run (this : t) (N : Z) :
  size this = N -> square N (grid this) -> binary (grid this) ->
  computeNextGeneration this
  = (Normal ((fun y => (fun x => next_cell N (grid this) x y) <$> range N)
               <$> range N), this).
Proof.
  intros HN Hsq Hbin. unfold computeNextGeneration, bind at 1, get.
  rewrite HN. apply mapM_pure. intros y Hy. apply elem_of_range in Hy.
  apply mapM_pure. intros x Hx. apply elem_of_range in Hx.
  by apply next_cell_body.
Qed.

Lemma cell_tabulate (N : Z) (f : Z -> Z -> Z) (x y : Z) :
  0 <= x < N -> 0 <= y < N ->
  cell ((fun y => (fun x => f x y) <$> range N) <$> range N) x y = f x y.
Proof.
  intros Hx Hy. unfold cell.
  rewrite list_lookup_fmap, range_lookup by done. cbn.
  by rewrite list_lookup_fmap, range_lookup.
Qed.

Lemma square_tabulate (N : Z) (f : Z -> Z -> Z) :
  square N ((fun y => (fun x => f x y) <$> range N) <$> range N).
Proof.
  split.
  - by rewrite length_fmap, range_length.
  - apply Forall_fmap, Forall_forall. intros y _. cbn.
    by rewrite length_fmap, range_length.
Qed.
End GameOfLifeFacts.

Section GameOfLifeClaims.
Import Js GameOfLife.

Lemma binary_tabulate (N : Z) (f : Z -> Z -> Z) :
  (forall x y, f x y = 0 \/ f x y = 1) ->
  binary ((fun y => (fun x => f x y) <$> range N) <$> range N).
Proof.
  intros Hf. apply Forall_fmap, Forall_forall. intros y _. cbn.
  apply Forall_fmap, Forall_forall. intros x _. apply Hf.
Qed.

Lemma next_cell_binary (N : Z) (g : list (list Z)) (x y : Z) :
  next_cell N g x y = 0 \/ next_cell N g x y = 1.
Proof. unfold next_cell. destruct (conway _ _); auto. Qed.

Lemma next_cell_alive (N : Z) (g : list (list Z)) (x y : Z) :
  cell g x y = 0 \/ cell g x y = 1 ->
  next_cell N g x y = 1 <->
    (cell g x y = 1
     /\ (live_neighbours N g x y = 2 \/ live_neighbours N g x y = 3))
    \/ (cell g x y = 0 /\ live_neighbours N g x y = 3).
Proof.
  intros Hc. unfold next_cell, conway.
  repeat case_bool_decide; split; intros ?; try done; try lia.
Qed.

(** C1: on an N x N grid of 0/1 cells (N >= 1) [computeNextGeneration]
    returns an N x N grid of 0/1 cells in which the cell at (x, y) is
    alive iff it is alive in the current grid with 2 or 3 live toroidal
    neighbours, or dead with exactly 3; the receiver is returned
    unchanged, and the result depends on the grid (and its size) only. *)
Theorem computeNextGeneration_conway (this : t) (N : Z) :
  size this = N -> 1 <= N -> square N (grid this) -> binary (grid this) ->
  exists next,
    computeNextGeneration this = (Normal next, this)
    /\ square N next /\ binary next
    /\ (forall x y, 0 <= x < N -> 0 <= y < N ->
          cell next x y = 1 <->
            (cell (grid this) x y = 1
             /\ (live_neighbours N (grid this) x y = 2
                 \/ live_neighbours N (grid this) x y = 3))
            \/ (cell (grid this) x y = 0
                /\ live_neighbours N (grid this) x y = 3))
    /\ (forall other, size other = N -> grid other = grid this ->
          computeNextGeneration other = (Normal next, other)).
Proof.
  intros HN Hpos Hsq Hbin. eexists. split_and!.
  - by apply computeNextGeneration_run.
  - apply square_tabulate.
  - apply binary_tabulate. intros x y. apply next_cell_binary.
  - intros x y Hx Hy.
    rewrite (cell_tabulate N (next_cell N (grid this))) by done.
    apply next_cell_alive. by apply (binary_cell N).
  - intros other Ho Hg.
    rewrite (computeNextGeneration_run other N) by (by rewrite ?Hg).
    by rewrite Hg.
Qed.

Lemma computeNextGeneration_conway_witness :
  exists next,
    computeNextGeneration blinker_game = (Normal next, blinker_game)
    /\ square 5 next /\ binary next
    /\ (forall x y, 0 <= x < 5 -> 0 <= y < 5 ->
          cell next x y = 1 <->
            (cell (grid blinker_game) x y = 1
             /\ (live_neighbours 5 (grid blinker_game) x y = 2
                 \/ live_neighbours 5 (grid blinker_game) x y = 3))
            \/ (cell (grid blinker_game) x y = 0
                /\ live_neighbours 5 (grid blinker_game) x y = 3))
    /\ (forall other, size other = 5 -> grid other = grid blinker_game ->
          computeNextGeneration other = (Normal next, other)).
Proof.
  apply (computeNextGeneration_conway blinker_game 5).
  - reflexivity.
  - lia.
  - split; [reflexivity|]. decide_by_computation.
  - decide_by_computation.
Defined.

(** The blinker of the specification turns vertical and back. *)
Example blinker_period_2 :
  fst (computeNextGeneration blinker_game)
  = Normal [ [0;0;0;0;0]; [0;0;1;0;0]; [0;0;1;0;0]; [0;0;1;0;0]; [0;0;0;0;0] ]
  /\ fst (computeNextGeneration (set_grid
       [ [0;0;0;0;0]; [0;0;1;0;0]; [0;0;1;0;0]; [0;0;1;0;0]; [0;0;0;0;0] ]
       blinker_game))
     = Normal (grid blinker_game).
Proof. split; reflexivity. Qed.

(** C7 (as amended): on an N x N grid, for coordinates in the range in
    which the code's sums [x + size] and [y + size] are exact (x, y, N
    and the two sums are safe integers), [getCell x y] returns the cell
    at the wrapped coordinates (x mod N, y mod N) exactly when each of x
    and y is at least -N or a multiple of N. *)
Theorem getCell_wraps_iff (this : t) (N x y : Z) :
  size this = N -> 1 <= N -> square N (grid this) ->
  isSafeInteger N -> isSafeInteger x -> isSafeInteger y ->
  isSafeInteger (x + N) -> isSafeInteger (y + N) ->
  getCell x y this
    = (Normal (Number (Int (cell (grid this) (x mod N) (y mod N)))), this)
  <-> wrappable N x /\ wrappable N y.
Proof.
  intros HN Hpos Hsq _ _ _ _ _.
  split; [|intros []; by apply getCell_wrapped].
  unfold getCell, bind, get. rewrite HN. intros Hget.
  assert (wrappable N y) as Hy.
  { destruct (Z_le_dec (- N) y) as [|Hlow]; [by left|].
    destruct (Z.eq_dec (y mod N) 0) as [Hz|Hnz];
    [right; apply Z.mod_divide; [lia|done]|].
  assert (~ (N | y)) as Hdiv by (rewrite <- Z.mod_divide by lia; done).
    destruct (rem_negative N y) as (r & Hr & Hneg); [lia..|done|].
    rewrite Hr in Hget. unfold read2, index in Hget.
    destruct (Z.ltb_spec r 0); [done|lia]. }
  split; [|done].
  destruct (Z_le_dec (- N) x) as [|Hlow]; [by left|].
  destruct (Z.eq_dec (x mod N) 0) as [Hz|Hnz];
    [right; apply Z.mod_divide; [lia|done]|].
  assert (~ (N | x)) as Hdiv by (rewrite <- Z.mod_divide by lia; done).
  destruct (rem_negative N x) as (r & Hr & Hneg); [lia..|done|].
  rewrite Hr in Hget. unfold read2, read in Hget.
  destruct (index (grid this) _); [|done].
  unfold index in Hget. by destruct (Z.ltb_spec r 0); [|lia].
Qed.

Lemma getCell_wraps_iff_witness :
  getCell (-1) 3 corner_game
    = (Normal (Number (Int (cell (grid corner_game) ((-1) mod 3) (3 mod 3)))),
       corner_game)
  <-> wrappable 3 (-1) /\ wrappable 3 3.
Proof.
  apply (getCell_wraps_iff corner_game 3 (-1) 3).
  - reflexivity.
  - lia.
  - split; [reflexivity|]. decide_by_computation.
  - unfold isSafeInteger. lia.
  - unfold isSafeInteger. lia.
  - unfold isSafeInteger. lia.
  - unfold isSafeInteger. lia.
  - unfold isSafeInteger. lia.
Defined.

(** C7 as stated fails, already at small coordinates: beyond -N the
    column index is negative, so the read yields [undefined]; a negative
    row index makes the read throw. *)
Lemma getCell_beyond_minus_size :
  getCell (-4) 0 corner_game = (Normal Undefined, corner_game)
  /\ getCell 0 (-4) corner_game = (Throw TypeError, corner_game).
Proof. split; reflexivity. Qed.
End GameOfLifeClaims.

Section InitialisationClaims.
Import Js GameOfLife.

Lemma random_cell_binary (r d : Q) : random_cell r d = 0 \/ random_cell r d = 1.
Proof. unfold random_cell. destruct (Qle_bool d r); auto. Qed.

Lemma reset_row_length (random : nat -> Q) (d : Q) (n k : nat) :
  length (reset_row random d n k) = n.
Proof. revert k. induction n as [|n IH]; intros k; cbn; [done|by rewrite IH]. Qed.

Lemma reset_row_binary (random : nat -> Q) (d : Q) (n k : nat) :
  Forall (fun c => c = 0 \/ c = 1) (reset_row random d n k).
Proof.
  revert k. induction n as [|n IH]; intros k; cbn; constructor;
    [apply random_cell_binary|apply IH].
Qed.

Lemma reset_rows_shape (random : nat -> Q) (d : Q) (n rows k : nat) :
  length (reset_rows random d n rows k) = rows
  /\ Forall (fun row => length row = n) (reset_rows random d n rows k)
  /\ binary (reset_rows random d n rows k).
Proof.
  revert k. induction rows as [|rows IH]; intros k; cbn.
  - split_and!; [done|constructor|constructor].
  - destruct (IH (k + n)%nat) as (Hlen & Hrows & Hbin). split_and!.
    + by rewrite Hlen.
    + constructor; [apply reset_row_length|done].
    + constructor; [apply reset_row_binary|done].
Qed.

Lemma reset_run (random : nat -> Q) (density : option Q) (this : t) :
  reset random density this
  = (Normal tt,
     set_grid (reset_rows random (default (initialDensity this) density)
                 (Z.to_nat (size this)) (Z.to_nat (size this)) 0) this).
Proof. reflexivity. Qed.

(** C8 (as amended): initialisation performs no validation and never
    fails. For every size and density the constructor and [reset] complete
    normally and leave a grid of max(size, 0) rows of max(size, 0) cells,
    each 0 or 1: an N x N grid when size = N >= 1, the empty grid when
    size <= 0. *)
Theorem initialisation_never_fails (random : nat -> Q) :
  (forall (n : Z) (density : Q),
      exists g, constructor random (Some n) (Some density)
                = (Normal tt, mk n density g)
                /\ square n g /\ binary g)
  /\ (forall (this : t) (density : option Q),
      exists g, reset random density this = (Normal tt, set_grid g this)
                /\ square (size this) g /\ binary g).
Proof.
  split.
  - intros n density. unfold constructor. rewrite reset_run.
    eexists. split; [reflexivity|]. cbn.
    destruct (reset_rows_shape random density (Z.to_nat n) (Z.to_nat n) 0)
      as (Hlen & Hrows & Hbin).
    by split; [split|].
  - intros this density. rewrite reset_run.
    eexists. split; [reflexivity|].
    destruct (reset_rows_shape random
      (default (initialDensity this) density)
      (Z.to_nat (size this)) (Z.to_nat (size this)) 0)
      as (Hlen & Hrows & Hbin).
    by split; [split|].
Qed.

(** C8 as stated fails: a non-positive size and a density outside [0,1]
    are accepted, and the call completes normally. *)
Lemma constructor_accepts_invalid_config :
  constructor (fun _ => 0%Q) (Some (-1)) (Some (2 # 1)%Q)
    = (Normal tt, mk (-1) (2 # 1) [])
  /\ constructor (fun _ => 0%Q) (Some 0) (Some (1 # 2)%Q)
    = (Normal tt, mk 0 (1 # 2) [])
  /\ constructor (fun _ => 0%Q) (Some 2) (Some (- (1 # 2))%Q)
    = (Normal tt, mk 2 (- (1 # 2)) [ [0; 0]; [0; 0] ]).
Proof. split_and!; reflexivity. Qed.
End InitialisationClaims.

Section DiffClaims.
Import Js GameOfLife.

Lemma foldl_snoc_bind {A B} (h : A -> list B) (l : list A) (acc : list B) :
  foldl (fun acc a => acc ++ h a) acc l = acc ++ (l ≫= h).
Proof.
  revert acc. induction l as [|a l IH]; intros acc; csimpl.
  - by rewrite app_nil_r.
  - by rewrite IH, app_assoc.
Qed.

Lemma bind_all_nil {A B} (h : A -> list B) (l : list A) :
  (forall a, h a = []) -> l ≫= h = [].
Proof.
  intros Hh. induction l as [|a l IH]; csimpl; [done|]. by rewrite Hh, IH.
Qed.

Lemma changed_step {S} (N : Z) (old new : list (list Z)) (x y : Z)
    (acc : list changed) (s : S) :
  square N old -> square N new -> 0 <= x < N -> 0 <= y < N ->
  (let* o := read2 old (Int y) (Int x) in
   let* n := read2 new (Int y) (Int x) in
   if negb (strict_eq o n) then
     let* st := read2 new (Int y) (Int x) in
     ret (acc ++ [ {| cx := x; cy := y; cstate := st |} ])
   else ret acc)%js s
  = (Normal (acc ++ changed_at old new y x), s).
Proof.
  intros Ho Hn Hx Hy. unfold bind.
  rewrite (read2_inside N old), (read2_inside N new) by done.
  rewrite strict_eq_int. unfold changed_at.
  case_bool_decide; cbn.
  - rewrite decide_True by done. by rewrite app_nil_r.
  - rewrite decide_False by done.
    by rewrite (read2_inside N new).
Qed.

Lemma getChangedCells_run (this : t) (N : Z) (old new : list (list Z)) :
  size this = N -> square N old -> square N new ->
  getChangedCells old new this
  = (Normal (y ← range N; x ← range N; changed_at old new y x), this).
Proof.
  intros HN Ho Hn. unfold getChangedCells, bind at 1, get. rewrite HN.
  rewrite (foldM_pure _
    (fun acc y => acc ++ (range N ≫= changed_at old new y))).
  - by rewrite foldl_snoc_bind.
  - intros acc y Hy. apply elem_of_range in Hy.
    rewrite (foldM_pure _ (fun acc x => acc ++ changed_at old new y x)).
    + by rewrite foldl_snoc_bind.
    + intros acc' x Hx. apply elem_of_range in Hx.
      by apply (changed_step N).
Qed.

Lemma elem_of_changed_at (old new : list (list Z)) (x y : Z) (c : changed) :
  c ∈ changed_at old new y x
  <-> cell old x y <> cell new x y
      /\ c = mk_changed x y (Number (Int (cell new x y))).
Proof.
  unfold changed_at. case_decide.
  - rewrite elem_of_nil. by split; [|intros []].
  - rewrite list_elem_of_singleton. by split; [|intros []].
Qed.

(** C9 (as amended): for two N x N grids, N the size of the automaton
    that the method is called on, [getChangedCells] returns, without
    repetition, exactly the coordinates at which the grids differ, each
    with the new grid's value there; it returns the empty list for
    identical grids, and leaves the receiver unchanged. *)
Theorem getChangedCells_exact (this : t) (N : Z) (old new : list (list Z)) :
  size this = N -> square N old -> square N new ->
  exists l,
    getChangedCells old new this = (Normal l, this)
    /\ NoDup l
    /\ (forall x y st,
          mk_changed x y st ∈ l
          <-> 0 <= x < N /\ 0 <= y < N
              /\ cell old x y <> cell new x y
              /\ st = Number (Int (cell new x y)))
    /\ (old = new -> l = []).
Proof.
  intros HN Ho Hn. eexists. split; [by apply getChangedCells_run|].
  split_and!.
  - apply NoDup_bind; [| |apply NoDup_seqZ].
    + intros y1 y2 c _ _.
      intros (x1 & [_ ->]%elem_of_changed_at & _)%list_elem_of_bind.
      intros (x2 & [_ Heq]%elem_of_changed_at & _)%list_elem_of_bind.
      by injection Heq.
    + intros y _. apply NoDup_bind; [| |apply NoDup_seqZ].
      * intros x1 x2 c _ _ [_ ->]%elem_of_changed_at
          [_ Heq]%elem_of_changed_at.
        by injection Heq.
      * intros x _. unfold changed_at. case_decide;
          [constructor|apply NoDup_singleton].
  - intros x y st. rewrite list_elem_of_bind. split.
    + intros (y' & (x' & [Hne Heq]%elem_of_changed_at & Hx)%list_elem_of_bind
                & Hy).
      apply elem_of_range in Hx, Hy. by simplify_eq.
    + intros (Hx & Hy & Hne & ->). exists y.
      split; [|by apply elem_of_range].
      apply list_elem_of_bind. exists x.
      split; [|by apply elem_of_range].
      by apply elem_of_changed_at.
  - intros ->. apply bind_all_nil. intros y. apply bind_all_nil. intros x.
    unfold changed_at. by rewrite decide_True.
Qed.

Lemma getChangedCells_exact_witness :
  exists l,
    getChangedCells (grid corner_game) centre_grid corner_game
      = (Normal l, corner_game)
    /\ NoDup l
    /\ (forall x y st,
          mk_changed x y st ∈ l
          <-> 0 <= x < 3 /\ 0 <= y < 3
              /\ cell (grid corner_game) x y <> cell centre_grid x y
              /\ st = Number (Int (cell centre_grid x y)))
    /\ (grid corner_game = centre_grid -> l = []).
Proof.
  apply (getChangedCells_exact corner_game 3).
  - reflexivity.
  - split; [reflexivity|]. decide_by_computation.
  - split; [reflexivity|]. decide_by_computation.
Defined.

(** C9 as stated fails: the loops run to [this.size], whatever the
    dimensions of the two grids. On the 3x3 automaton two identical 2x2
    grids make the call throw at the row that is missing, where the claim
    promises the empty list; and for two 4x4 grids that differ at (3,3)
    the call returns the empty list, the difference lying outside the
    cells it compares. *)
Lemma getChangedCells_other_dimensions :
  getChangedCells small_grid small_grid corner_game
    = (Throw TypeError, corner_game)
  /\ cell wide_grid 3 3 <> cell wide_grid_changed 3 3
  /\ getChangedCells wide_grid wide_grid_changed corner_game
     = (Normal [], corner_game).
Proof. split; [reflexivity|]. split; [discriminate|reflexivity]. Qed.
End DiffClaims.

Section KeyFacts.
Import Js.

Lemma pretty_N_char_no_comma (n : N) : pretty_N_char n <> ","%char.
Proof. unfold pretty_N_char. by repeat case_match. Qed.

Lemma pretty_N_go_comma_free (n : N) (s : string) :
  comma_free s -> comma_free (pretty_N_go n s).
Proof.
  revert s. induction (N.lt_wf_0 n) as [n _ IH]; intros s Hs.
  destruct (decide (n = 0)%N) as [->|Hn]; [by rewrite pretty_N_go_0|].
  rewrite pretty_N_go_step by lia. apply IH.
  - apply N.div_lt; lia.
  - split; [apply pretty_N_char_no_comma|done].
Qed.

Lemma pretty_N_comma_free (n : N) : comma_free (pretty n).
Proof.
  unfold pretty, pretty_N. case_decide; [by cbn|].
  by apply pretty_N_go_comma_free.
Qed.

Lemma pretty_Z_comma_free (z : Z) : comma_free (pretty z).
Proof.
  destruct z as [|p|p]; unfold pretty, pretty_Z.
  - by cbn.
  - apply pretty_N_comma_free.
  - split; [done|apply pretty_N_comma_free].
Qed.

(** A string splits at its first comma in one way only. *)
Lemma split_at_comma (s1 s2 t1 t2 : string) :
  comma_free s1 -> comma_free s2 ->
  s1 +:+ "," +:+ t1 = s2 +:+ "," +:+ t2 -> s1 = s2 /\ t1 = t2.
Proof.
  revert s2. induction s1 as [|c s1 IH]; intros [|c' s2] H1 H2 Heq;
    cbn in *.
  - by injection Heq.
  - injection Heq as Hc _. destruct H2 as [H2 _]. by rewrite Hc in H2.
  - injection Heq as Hc _. destruct H1 as [H1 _]. by rewrite Hc in H1.
  - injection Heq as -> Heq. destruct H1 as [_ H1], H2 as [_ H2].
    destruct (IH s2 H1 H2 Heq) as [-> ->]. done.
Qed.

(** Distinct cells have distinct keys. *)
Lemma key_inj (x1 y1 x2 y2 : Z) :
  key (Int x1) (Int y1) = key (Int x2) (Int y2) -> x1 = x2 /\ y1 = y2.
Proof.
  unfold key, to_string. intros Heq.
  apply split_at_comma in Heq as [Hx Hy]; [|apply pretty_Z_comma_free..].
  by apply (inj pretty) in Hx, Hy.
Qed.

Lemma blob_key_inj (a b : BlobVisualizer.blob) :
  BlobVisualizer.blob_key a = BlobVisualizer.blob_key b ->
  BlobVisualizer.blob_x a = BlobVisualizer.blob_x b
  /\ BlobVisualizer.blob_y a = BlobVisualizer.blob_y b.
Proof. apply key_inj. Qed.
End KeyFacts.

Section SearchFacts.
Import Js BlobVisualizer.
Context (m : gmap string blob) (N : Z) (organism_id : Z).
Hypothesis Hkeyed : keyed m.

Lemma examine_found (cur : blob) (st : search) (d : Z * Z) :
  found (examine m N cur st d) = found st
  /\ fields (examine m N cur st d) = fields st
  /\ visited st ⊆ visited (examine m N cur st d).
Proof using Type.
  clear Hkeyed.
  unfold examine. destruct (m !! _); [|done].
  case_decide; [done|]. cbn. split_and!; [done..|set_solver].
Qed.

Lemma examine_inv (before : list blob) (cur : blob) (st : search)
    (d : Z * Z) :
  search_inv m before st -> search_inv m before (examine m N cur st d).
Proof using Hkeyed.
  intros (Hnd & Hvis & Hmap). unfold examine.
  destruct (m !! _) as [n|] eqn:Hn; [|done].
  case_decide as Hseen; [done|].
  pose proof (Hkeyed _ _ Hn) as Hk. rewrite Hk in Hseen, Hn |- *.
  unfold search_inv. cbn.
  rewrite !(assoc_L (++)) in *. rewrite fmap_app. cbn.
  split_and!.
  - apply NoDup_app. split_and!; [done| |apply NoDup_singleton].
    intros k Hin ->%list_elem_of_singleton. by apply Hseen, Hvis.
  - intros k. rewrite elem_of_union, elem_of_singleton, elem_of_app,
      list_elem_of_singleton, Hvis. tauto.
  - intros b [Hb| ->%list_elem_of_singleton]%elem_of_app; [by apply Hmap|done].
Qed.

Lemma examine_turns (cur : blob) (st : search) (d : Z * Z) :
  turns m (examine m N cur st d) = turns m st.
Proof using Type.
  clear Hkeyed.
  unfold examine. destruct (m !! _) as [n|] eqn:Hn; [|done].
  case_decide as Hseen; [done|]. unfold turns. cbn.
  rewrite length_app. cbn.
  set (k := key _ _) in *.
  assert (dom m ∖ ({[k]} ∪ visited st) = (dom m ∖ visited st) ∖ {[k]})
    as -> by set_solver.
  assert ({[k]} ⊆ dom m ∖ visited st) as Hsub.
  { apply singleton_subseteq_l, elem_of_difference. split; [|done].
    by apply elem_of_dom. }
  rewrite size_difference by done. rewrite size_singleton.
  apply subseteq_size in Hsub. rewrite size_singleton in Hsub. lia.
Qed.

Lemma scan_found (cur : blob) (ds : list (Z * Z)) (st : search) :
  found (foldl (examine m N cur) st ds) = found st
  /\ fields (foldl (examine m N cur) st ds) = fields st
  /\ visited st ⊆ visited (foldl (examine m N cur) st ds).
Proof using Type.
  clear Hkeyed.
  revert st. induction ds as [|d ds IH]; intros st; cbn; [done|].
  destruct (IH (examine m N cur st d)) as (-> & -> & Hsub).
  destruct (examine_found cur st d) as (-> & -> & Hsub').
  split_and!; [done..|set_solver].
Qed.

Lemma scan_inv (before : list blob) (cur : blob) (ds : list (Z * Z))
    (st : search) :
  search_inv m before st ->
  search_inv m before (foldl (examine m N cur) st ds).
Proof using Hkeyed.
  revert st. induction ds as [|d ds IH]; intros st Hst; cbn; [done|].
  by apply IH, examine_inv.
Qed.

Lemma scan_turns (cur : blob) (ds : list (Z * Z)) (st : search) :
  turns m (foldl (examine m N cur) st ds) = turns m st.
Proof using Type.
  revert st. induction ds as [|d ds IH]; intros st; cbn; [done|].
  by rewrite IH, examine_turns.
Qed.

(** After the scan every key looked up and present in the map is visited. *)
Lemma scan_visits (cur : blob) (ds : list (Z * Z)) (st : search) (d : Z * Z) :
  d ∈ ds ->
  is_Some (m !! key (rem (blob_x cur + d.1 + N) N)
                    (rem (blob_y cur + d.2 + N) N)) ->
  key (rem (blob_x cur + d.1 + N) N) (rem (blob_y cur + d.2 + N) N)
    ∈ visited (foldl (examine m N cur) st ds).
Proof using Type.
  clear Hkeyed.
  revert st. induction ds as [|d' ds IH]; intros st Hd Hsome;
    [by apply elem_of_nil in Hd|].
  apply elem_of_cons in Hd as [->|Hd]; cbn; [|by apply IH].
  apply (proj2 (proj2 (scan_found cur ds _))).
  unfold examine. destruct Hsome as [n ->].
  case_decide; [done|]. cbn. set_solver.
Qed.

Lemma visit_inv (before : list blob) (b : blob) (rest : list blob)
    (st : search) :
  queue st = b :: rest -> search_inv m before st ->
  search_inv m before (visit m N organism_id b rest st).
Proof using Hkeyed.
  intros Hq Hst. apply scan_inv. unfold search_inv in *. cbn.
  rewrite Hq in Hst. by rewrite <- (assoc_L (++) (found st)).
Qed.

Lemma visit_turns (b : blob) (rest : list blob) (st : search) :
  queue st = b :: rest ->
  S (turns m (visit m N organism_id b rest st)) = turns m st.
Proof using Type.
  intros Hq. unfold visit. rewrite scan_turns. unfold turns. cbn.
  by rewrite Hq.
Qed.

Lemma visit_found (b : blob) (rest : list blob) (st : search) :
  found (visit m N organism_id b rest st) = found st ++ [b]
  /\ visited st ⊆ visited (visit m N organism_id b rest st).
Proof using Type.
  unfold visit.
  destruct (scan_found b offsets
    (mk_search rest (visited st) (found st ++ [b])
       (alter (set_organismId organism_id) (handle b) (fields st))))
    as (-> & _ & Hsub).
  done.
Qed.

Lemma visit_explored (b : blob) (rest : list blob) (st : search) :
  explored m N st -> explored m N (visit m N organism_id b rest st).
Proof using Type.
  intros Hex c k Hc Hk Hsome.
  destruct (visit_found b rest st) as [Hfound Hsub].
  rewrite Hfound in Hc. apply elem_of_app in Hc as [Hc|Hc].
  - apply Hsub. by eapply Hex.
  - apply list_elem_of_singleton in Hc as ->.
    unfold neighbour_keys in Hk.
    apply list_elem_of_fmap in Hk as (d & -> & Hd).
    by apply scan_visits.
Qed.

(** The loop preserves the invariants and, given enough turns, empties
    the queue. *)
Lemma bfs_inv (before : list blob) (fuel : nat) (st : search) :
  search_inv m before st ->
  search_inv m before (bfs fuel m N organism_id st).
Proof using Hkeyed.
  revert st. induction fuel as [|fuel IH]; intros st Hst; cbn [bfs]; [done|].
  destruct (queue st) as [|b rest] eqn:Hq; [done|].
  by apply IH, visit_inv.
Qed.

Lemma bfs_explored (fuel : nat) (st : search) :
  explored m N st -> explored m N (bfs fuel m N organism_id st).
Proof using Type.
  revert st. induction fuel as [|fuel IH]; intros st Hst; cbn [bfs]; [done|].
  destruct (queue st) as [|b rest] eqn:Hq; [done|].
  by apply IH, visit_explored.
Qed.

Lemma bfs_terminates (fuel : nat) (st : search) :
  (turns m st < fuel)%nat -> queue (bfs fuel m N organism_id st) = [].
Proof using Type.
  revert st. induction fuel as [|fuel IH]; intros st Hlt; [lia|]. cbn [bfs].
  destruct (queue st) as [|b rest] eqn:Hq; [done|].
  apply IH. pose proof (visit_turns b rest st Hq). lia.
Qed.

(** More fuel than needed changes nothing. *)
Lemma bfs_fuel_irrelevant (fuel fuel' : nat) (st : search) :
  (turns m st < fuel)%nat -> (turns m st < fuel')%nat ->
  bfs fuel m N organism_id st = bfs fuel' m N organism_id st.
Proof using Type.
  revert fuel' st. induction fuel as [|fuel IH]; intros fuel' st H1 H2;
    [lia|].
  destruct fuel' as [|fuel']; [lia|]. cbn [bfs].
  destruct (queue st) as [|b rest] eqn:Hq; [done|].
  pose proof (visit_turns b rest st Hq). apply IH; lia.
Qed.

Lemma bfs_step (fuel : nat) (b : blob) (rest : list blob) (st : search) :
  queue st = b :: rest ->
  bfs (S fuel) m N organism_id st
  = bfs fuel m N organism_id (visit m N organism_id b rest st).
Proof using Type. intros Hq. cbn [bfs]. by rewrite Hq. Qed.

Lemma bfs_seed_first (fuel : nat) (st : search) :
  exists tail, found (bfs fuel m N organism_id st) = found st ++ tail.
Proof using Type.
  revert st. induction fuel as [|fuel IH]; intros st; cbn [bfs].
  - exists []. by rewrite app_nil_r.
  - destruct (queue st) as [|b rest] eqn:Hq.
    + exists []. by rewrite app_nil_r.
    + destruct (IH (visit m N organism_id b rest st)) as [tail ->].
      destruct (visit_found b rest st) as [-> _].
      exists (b :: tail). by rewrite <- (assoc_L (++)).
Qed.
End SearchFacts.

Section GroupingFacts.
Import Js BlobVisualizer.
Context (palette : list Z) (m : gmap string blob) (N : Z).
Hypothesis Hkeyed : keyed m.

Lemma all_members_snoc (gs : list organism) (o : organism) :
  all_members (gs ++ [o]) = all_members gs ++ members o.
Proof using Type.
  unfold all_members. rewrite fmap_app, join_app. cbn.
  by rewrite app_nil_r.
Qed.

Lemma group_from_unseen (g : grouping) (b : blob) :
  blob_key b ∉ seen g ->
  group_from palette m N g b
  = mk_grouping
      (groups g ++ [mk_organism (currentOrganismId g) (found (search_from m N g b))
         (index palette (rem (currentOrganismId g)
                           (Z.of_nat (length palette))))])
      (currentOrganismId g + 1) (visited (search_from m N g b))
      (fields (search_from m N g b)).
Proof using Type. intros Hb. unfold group_from. by rewrite decide_False. Qed.

Lemma search_from_facts (g : grouping) (b : blob) (visited_blobs : list blob) :
  grouping_inv m visited_blobs g ->
  m !! blob_key b = Some b -> blob_key b ∉ seen g ->
  search_inv m (all_members (groups g)) (search_from m N g b)
  /\ queue (search_from m N g b) = []
  /\ explored m N (search_from m N g b)
  /\ exists tail, found (search_from m N g b) = b :: tail.
Proof using Hkeyed.
  intros (Hnd & Hseen & Hmap & _) Hb Hnew. unfold search_from.
  set (st0 := mk_search [b] ({[blob_key b]} ∪ seen g) [] (store g)).
  assert (search_inv m (all_members (groups g)) st0) as Hst0.
  { unfold search_inv. cbn. rewrite fmap_app. cbn. split_and!.
    - apply NoDup_app. split_and!; [done| |apply NoDup_singleton].
      intros k Hk ->%list_elem_of_singleton. by apply Hnew, Hseen.
    - intros k. rewrite elem_of_union, elem_of_singleton, elem_of_app,
        list_elem_of_singleton, Hseen. tauto.
    - intros c [Hc| ->%list_elem_of_singleton]%elem_of_app;
        [by apply Hmap|done]. }
  split_and!.
  - by apply bfs_inv.
  - apply bfs_terminates. lia.
  - apply bfs_explored. by intros c k Hc%elem_of_nil.
  - rewrite (bfs_step m N (currentOrganismId g) _ b [] st0) by done.
    destruct (bfs_seed_first m N (currentOrganismId g) (turns m st0)
      (visit m N (currentOrganismId g) b [] st0)) as [tail ->].
    destruct (visit_found m N (currentOrganismId g) b [] st0) as [-> _].
    by exists tail.
Qed.

(** The invariant after a new organism with members [l], found from the
    seed [b], has been pushed. *)
Lemma grouping_inv_extend (g : grouping) (b : blob) (visited_blobs : list blob)
    (l : list blob) (col : option Z) (vis : gset string)
    (flds : gmap nat blob_fields) :
  grouping_inv m visited_blobs g ->
  NoDup (blob_key <$> all_members (groups g) ++ l) ->
  (forall k, k ∈ vis <-> k ∈ blob_key <$> all_members (groups g) ++ l) ->
  (forall c, c ∈ all_members (groups g) ++ l -> m !! blob_key c = Some c) ->
  (exists tail, l = b :: tail) ->
  grouping_inv m (visited_blobs ++ [b])
    (mk_grouping (groups g ++ [mk_organism (currentOrganismId g) l col])
       (currentOrganismId g + 1) vis flds).
Proof using Type.
  intros (Hnd & Hseen & Hmap & Hdone & Hids & Hcur & seeds & Hs & Hsub)
    Hnd' Hvis' Hmap' [tail ->].
  unfold grouping_inv. cbn [groups seen currentOrganismId].
  rewrite all_members_snoc. cbn [members].
  split_and!; try done.
  - intros c [Hc| ->%list_elem_of_singleton]%elem_of_app.
    + apply Hvis'. rewrite fmap_app, elem_of_app. left.
      by apply Hseen, Hdone.
    + apply Hvis'. rewrite fmap_app, elem_of_app. right. cbn. left.
  - rewrite fmap_app, length_app. cbn.
    rewrite Nat.add_1_r, seq_S, fmap_app. cbn. by rewrite Hids, Hcur.
  - rewrite length_app. cbn. lia.
  - exists (seeds ++ [b]). split.
    + apply Forall2_app; [done|]. by constructor; [|constructor].
    + by apply sublist_app.
Qed.

Lemma group_from_inv (g : grouping) (b : blob) (visited_blobs : list blob) :
  grouping_inv m visited_blobs g -> m !! blob_key b = Some b ->
  grouping_inv m (visited_blobs ++ [b]) (group_from palette m N g b).
Proof using Hkeyed.
  intros Hg Hb.
  destruct (decide (blob_key b ∈ seen g)) as [Hold|Hnew].
  - unfold group_from. rewrite decide_True by done.
    destruct Hg as (Hnd & Hseen & Hmap & Hdone & Hids & Hcur & seeds & Hs & Hsub).
    split_and!; try done.
    + intros c [Hc| ->%list_elem_of_singleton]%elem_of_app; [by apply Hdone|done].
    + exists seeds. split; [done|]. by apply sublist_inserts_r.
  - destruct (search_from_facts g b visited_blobs Hg Hb Hnew)
      as (Hinv & Hq & _ & Hfound).
    unfold search_inv in Hinv. rewrite Hq, app_nil_r in Hinv.
    destruct Hinv as (Hnd' & Hvis' & Hmap').
    rewrite group_from_unseen by done.
    by apply grouping_inv_extend.
Qed.

Lemma grouping_inv_fold (rest visited_blobs : list blob) (g : grouping) :
  grouping_inv m visited_blobs g ->
  (forall b, b ∈ rest -> m !! blob_key b = Some b) ->
  grouping_inv m (visited_blobs ++ rest)
    (foldl (group_from palette m N) g rest).
Proof using Hkeyed.
  revert visited_blobs g.
  induction rest as [|b rest IH]; intros visited_blobs g Hg Hrest.
  - by rewrite app_nil_r.
  - cbn [foldl]. rewrite (cons_middle b), (assoc_L (++)). apply IH.
    + apply group_from_inv; [done|]. apply Hrest. left.
    + intros c Hc. apply Hrest. by right.
Qed.

Lemma grouping_inv_initial (h : gmap nat blob_fields) :
  grouping_inv m [] (mk_grouping [] 0 ∅ h).
Proof using Type.
  unfold grouping_inv, all_members. cbn. split_and!; try done.
  - constructor.
  - intros k. by rewrite elem_of_empty, elem_of_nil.
  - by intros b ?%elem_of_nil.
  - by intros b ?%elem_of_nil.
  - exists []. split; [constructor|done].
Qed.
End GroupingFacts.

Section ClosureFacts.
Import Js BlobVisualizer.
Context (palette : list Z) (m : gmap string blob) (N : Z).
Hypothesis Hkeyed : keyed m.
Hypothesis Hgrid : forall k b, m !! k = Some b -> in_grid N b.

Lemma offsets_opposite (dx dy : Z) :
  (dx, dy) ∈ offsets -> (- dx, - dy) ∈ offsets.
Proof using Type.
  rewrite offsets_eq. unfold neighbours8.
  rewrite !elem_of_cons, elem_of_nil. intros H.
  repeat destruct H as [H|H]; try done; injection H as -> ->; cbn; tauto.
Qed.

Lemma neighbour_key_wrap (b : blob) (d : Z * Z) :
  in_grid N b -> d ∈ offsets ->
  key (rem (blob_x b + d.1 + N) N) (rem (blob_y b + d.2 + N) N)
  = key (Int ((blob_x b + d.1) mod N)) (Int ((blob_y b + d.2) mod N)).
Proof using Type.
  intros [Hx Hy] Hd. destruct d as [dx dy]. apply offsets_small in Hd.
  cbn [fst snd]. by rewrite !rem_wrap by lia.
Qed.

(** Adjacency on the torus is symmetric. *)
Lemma neighbour_symmetric (b n : blob) :
  in_grid N b -> in_grid N n ->
  blob_key n ∈ neighbour_keys N b -> blob_key b ∈ neighbour_keys N n.
Proof using Type.
  intros Hb Hn Hk. unfold neighbour_keys in *.
  apply list_elem_of_fmap in Hk as ([dx dy] & Hk & Hd).
  rewrite neighbour_key_wrap in Hk by done.
  apply key_inj in Hk as [Hx Hy]. cbn [fst snd] in *.
  apply list_elem_of_fmap. exists (- dx, - dy).
  split; [|by apply offsets_opposite].
  rewrite neighbour_key_wrap by (done || by apply offsets_opposite).
  cbn [fst snd]. unfold blob_key. rewrite Hx, Hy.
  destruct Hb as [Hbx Hby].
  rewrite !Zplus_mod_idemp_l.
  replace (blob_x b + dx + - dx) with (blob_x b) by lia.
  replace (blob_y b + dy + - dy) with (blob_y b) by lia.
  by rewrite !Z.mod_small by lia.
Qed.

Lemma elem_of_all_members (gs : list organism) (b : blob) :
  b ∈ all_members gs <-> exists o, o ∈ gs /\ b ∈ members o.
Proof using Type.
  unfold all_members. rewrite list_elem_of_join. split.
  - intros (l & Hb & (o & -> & Ho)%list_elem_of_fmap). by exists o.
  - intros (o & Ho & Hb). exists (members o). split; [done|].
    by apply list_elem_of_fmap_2.
Qed.

(** A new organism whose members have all their neighbours among the
    blobs reached so far keeps the organisms closed. *)
Lemma closed_extend (gs : list organism) (c : Z) (l : list blob)
    (col : option Z) :
  closed m N gs ->
  NoDup (blob_key <$> all_members gs ++ l) ->
  (forall b, b ∈ all_members gs ++ l -> m !! blob_key b = Some b) ->
  (forall b k, b ∈ l -> k ∈ neighbour_keys N b -> is_Some (m !! k) ->
               k ∈ blob_key <$> all_members gs ++ l) ->
  closed m N (gs ++ [mk_organism c l col]).
Proof using Hkeyed Hgrid.
  intros Hclosed Hnd Hmap Hexp o b k n
    [Ho| ->%list_elem_of_singleton]%elem_of_app Hb Hk Hn;
    [by eapply Hclosed|].
  cbn in *. pose proof (Hkeyed _ _ Hn) as ->.
  assert (blob_key n ∈ blob_key <$> all_members gs ++ l) as Hreached
    by (by apply (Hexp b)).
  rewrite fmap_app, elem_of_app in Hreached.
  destruct Hreached as [Hbefore|Hhere].
  - (* [n] belongs to an earlier organism, which is closed: so would [b] *)
    exfalso.
    apply list_elem_of_fmap in Hbefore as (n' & Hkey & Hn').
    assert (n' = n) as ->.
    { assert (m !! blob_key n' = Some n') as Hn''
        by (apply Hmap, elem_of_app; by left).
      rewrite <- Hkey in Hn''. congruence. }
    apply elem_of_all_members in Hn' as (o' & Ho' & Hno').
    assert (m !! blob_key b = Some b) as Hbm
      by (apply Hmap, elem_of_app; by right).
    assert (b ∈ members o') as Hbo'.
    { apply (Hclosed o' n (blob_key b) b); [done..| |done].
      apply neighbour_symmetric; [by eapply Hgrid..|done]. }
    rewrite fmap_app in Hnd. apply NoDup_app in Hnd as (_ & Hdisj & _).
    apply (Hdisj (blob_key b)).
    + apply list_elem_of_fmap_2, elem_of_all_members. by exists o'.
    + by apply list_elem_of_fmap_2.
  - apply list_elem_of_fmap in Hhere as (n' & Hkey & Hn').
    assert (n' = n) as ->; [|done].
    assert (m !! blob_key n' = Some n') as Hn''
      by (apply Hmap, elem_of_app; by right).
    rewrite <- Hkey in Hn''. congruence.
Qed.

Lemma group_from_closed (g : grouping) (b : blob) (visited_blobs : list blob) :
  grouping_inv m visited_blobs g -> closed m N (groups g) ->
  m !! blob_key b = Some b ->
  closed m N (groups (group_from palette m N g b)).
Proof using Hkeyed Hgrid.
  intros Hg Hclosed Hb.
  destruct (decide (blob_key b ∈ seen g)) as [Hold|Hnew].
  { unfold group_from. by rewrite decide_True. }
  destruct (search_from_facts m N Hkeyed g b visited_blobs Hg Hb Hnew)
    as (Hinv & Hq & Hexp & _).
  unfold search_inv in Hinv. rewrite Hq, app_nil_r in Hinv.
  destruct Hinv as (Hnd' & Hvis' & Hmap').
  rewrite group_from_unseen by done. cbn [groups].
  apply closed_extend; [done..|].
  intros c k Hc Hk Hsome. apply Hvis'. by apply (Hexp c).
Qed.

Lemma closed_fold (rest visited_blobs : list blob) (g : grouping) :
  grouping_inv m visited_blobs g -> closed m N (groups g) ->
  (forall b, b ∈ rest -> m !! blob_key b = Some b) ->
  closed m N (groups (foldl (group_from palette m N) g rest)).
Proof using Hkeyed Hgrid.
  revert visited_blobs g.
  induction rest as [|b rest IH]; intros visited_blobs g Hg Hc Hrest;
    [done|].
  cbn [foldl]. apply (IH (visited_blobs ++ [b])).
  - apply group_from_inv; [done..|]. apply Hrest. left.
  - eapply group_from_closed; [done..|]. apply Hrest. left.
  - intros c Hc'. apply Hrest. by right.
Qed.
End ClosureFacts.

Section IdentifyFacts.
Import Js BlobVisualizer.

Lemma identifyOrganismGroups_run (game : GameOfLife.t) (v : t) :
  identifyOrganismGroups game v
  = (Normal tt,
     set_organismGroups (groups (grouped game v))
       (set_heap (fun _ => store (grouped game v))
          (set_organismGroups [] v))).
Proof. reflexivity. Qed.

Lemma grouped_inv (game : GameOfLife.t) (v : t) :
  consistent v ->
  grouping_inv (blobsMap v) (blobs v) (grouped game v).
Proof.
  intros (Hnd & Hagree & Hkeyed). unfold grouped.
  apply (grouping_inv_fold _ _ _ Hkeyed (blobs v) []).
  - apply grouping_inv_initial.
  - intros b Hb. by apply Hagree.
Qed.

(** The organisms hold the blobs of the bookkeeping, each once. *)
Lemma grouped_partition (game : GameOfLife.t) (v : t) :
  consistent v ->
  all_members (groups (grouped game v)) ≡ₚ blobs v.
Proof.
  intros Hv. pose proof (grouped_inv game v Hv)
    as (Hnd & Hseen & Hmap & Hdone & _).
  destruct Hv as (Hnd_blobs & Hagree & Hkeyed).
  apply NoDup_Permutation; [by eapply NoDup_fmap_1|done|].
  intros b. split.
  - intros Hb. by apply Hagree, Hmap.
  - intros Hb. pose proof (Hdone b Hb) as Hk. apply Hseen in Hk.
    apply list_elem_of_fmap in Hk as (b' & Hkey & Hb').
    assert (b' = b) as ->; [|done].
    pose proof (Hmap _ Hb') as Hm. rewrite <- Hkey in Hm.
    apply Hagree in Hb. congruence.
Qed.

Lemma grouped_closed (game : GameOfLife.t) (v : t) :
  consistent v ->
  (forall b, b ∈ blobs v -> in_grid (GameOfLife.size game) b) ->
  closed (blobsMap v) (GameOfLife.size game) (groups (grouped game v)).
Proof.
  intros (Hnd & Hagree & Hkeyed) Hgrid. unfold grouped.
  apply (closed_fold _ _ _ Hkeyed) with (visited_blobs := []).
  - intros k b Hb. apply Hgrid, Hagree.
    by rewrite <- (Hkeyed _ _ Hb).
  - apply grouping_inv_initial.
  - by intros o b k n Ho%elem_of_nil.
  - intros b Hb. by apply Hagree.
Qed.
End IdentifyFacts.

Section ScanFacts.
Import Js.

Lemma elem_of_scan_order (N x y : Z) :
  (y, x) ∈ scan_order N <-> 0 <= x < N /\ 0 <= y < N.
Proof.
  unfold scan_order. rewrite list_elem_of_bind. split.
  - intros (y' & (x' & Hp%list_elem_of_singleton & Hx)%list_elem_of_bind & Hy).
    apply elem_of_range in Hx, Hy. by simplify_eq.
  - intros [Hx Hy]. exists y. split; [|by apply elem_of_range].
    apply list_elem_of_bind. exists x. split; [|by apply elem_of_range].
    by apply list_elem_of_singleton.
Qed.

Lemma scan_order_NoDup (N : Z) : NoDup (scan_order N).
Proof.
  unfold scan_order. apply NoDup_bind; [| |apply NoDup_seqZ].
  - intros y1 y2 p _ _
      (x1 & ->%list_elem_of_singleton & _)%list_elem_of_bind
      (x2 & Heq%list_elem_of_singleton & _)%list_elem_of_bind.
    by injection Heq.
  - intros y _. apply NoDup_bind; [| |apply NoDup_seqZ].
    + intros x1 x2 p _ _ ->%list_elem_of_singleton Heq%list_elem_of_singleton.
      by injection Heq.
    + intros x _. apply NoDup_singleton.
Qed.

(** A cell about to be visited has not been visited before. *)
Lemma scan_order_fresh (N : Z) (visited rest : list (Z * Z)) (p : Z * Z) :
  scan_order N = visited ++ p :: rest ->
  (p ∉ visited) /\ 0 <= snd p < N /\ 0 <= fst p < N.
Proof.
  intros Heq. pose proof (scan_order_NoDup N) as Hnd. rewrite Heq in Hnd.
  apply NoDup_app in Hnd as (_ & Hdisj & _). split.
  - intros Hin. apply (Hdisj p Hin). left.
  - destruct p as [y x]. apply elem_of_scan_order. rewrite Heq.
    apply elem_of_app. right. left.
Qed.
End ScanFacts.

Section CreateBlobsFacts.
Import Js BlobVisualizer.
Context (game : GameOfLife.t) (N : Z).
Hypothesis Hsize : GameOfLife.size game = N.
Hypothesis Hsquare : square N (GameOfLife.grid game).

Lemma with_blob_consistent (x y : Z) (visited : list (Z * Z)) (v : t) :
  (y, x) ∉ visited ->
  consistent v -> blobs_of_cells (GameOfLife.grid game) visited v ->
  cell (GameOfLife.grid game) x y = 1 ->
  consistent (with_blob x y v)
  /\ blobs_of_cells (GameOfLife.grid game) (visited ++ [(y, x)])
       (with_blob x y v).
Proof using Type.
  intros Hfresh (Hnd & Hagree & Hkeyed) [Hin Hall] Halive.
  set (b := mk_blob (next_handle v) x y).
  assert (b ∉ blobs v) as Hb.
  { intros Hb. apply Hin in Hb as [Hb _]. by apply Hfresh. }
  assert (blobs (with_blob x y v) = blobs v ++ [b]) as Hblobs by done.
  assert (blobsMap (with_blob x y v) = <[blob_key b := b]> (blobsMap v))
    as Hmap by done.
  split; [split_and!|split].
  - rewrite Hblobs. apply NoDup_app. split_and!; [done| |apply NoDup_singleton].
    by intros b' Hb' ->%list_elem_of_singleton.
  - intros b'. rewrite Hblobs, Hmap, elem_of_app, list_elem_of_singleton.
    destruct (decide (blob_key b = blob_key b')) as [Heq|Hne].
    + rewrite Heq, lookup_insert_eq. split.
      * intros [Hb'| ->]; [|done]. exfalso.
        apply Hin in Hb' as [Hb' _]. apply blob_key_inj in Heq as [Hx Hy].
        cbn in Hx, Hy. rewrite <- Hx, <- Hy in Hb'. by apply Hfresh.
      * intros [= ->]. by right.
    + rewrite lookup_insert_ne by done. specialize (Hagree b'). split.
      * intros [Hb'| ->]; [by apply Hagree|done].
      * intros Hb'. left. by apply Hagree.
  - intros k b'. rewrite Hmap. intros [[<- <-]|[_ Hk]]%lookup_insert_Some;
      [done|by apply Hkeyed].
  - intros b'. rewrite Hblobs.
    intros [Hb'| ->%list_elem_of_singleton]%elem_of_app.
    + destruct (Hin b' Hb') as [Hv Hc]. split; [|done].
      apply elem_of_app. by left.
    + cbn. split; [|done]. apply elem_of_app. right. left.
  - intros x' y'. rewrite Hblobs.
    intros [Hv|Hv%list_elem_of_singleton]%elem_of_app Hc.
    + destruct (Hall x' y' Hv Hc) as (b' & Hb' & Hx & Hy).
      exists b'. split; [|done]. apply elem_of_app. by left.
    + injection Hv as -> ->. exists b. split; [|done].
      apply elem_of_app. right. left.
Qed.

Lemma blobs_of_cells_skip (x y : Z) (visited : list (Z * Z)) (v : t) :
  blobs_of_cells (GameOfLife.grid game) visited v ->
  cell (GameOfLife.grid game) x y <> 1 ->
  blobs_of_cells (GameOfLife.grid game) (visited ++ [(y, x)]) v.
Proof using Type.
  intros [Hin Hall] Hdead. split.
  - intros b Hb. destruct (Hin b Hb) as [Hv Hc]. split; [|done].
    apply elem_of_app. by left.
  - intros x' y' [Hv|Hv%list_elem_of_singleton]%elem_of_app Hc.
    + by apply Hall.
    + by injection Hv as -> ->.
Qed.

(** The two loops of [createBlobs], started without blobs. *)
Lemma createBlobs_loops (v0 : t) :
  blobs v0 = [] -> blobsMap v0 = ∅ ->
  exists v,
    create_all game v0 = (Normal tt, v)
    /\ consistent v
    /\ blobs_of_cells (GameOfLife.grid game) (scan_order N) v
    /\ untouched v0 v.
Proof using Hsize Hsquare.
  intros Hblobs Hmap. unfold create_all. cbv zeta. rewrite Hsize.
  rewrite (forM_product (create_cell (GameOfLife.grid game))).
  fold (scan_order N).
  destruct (foldM_invariant
    (fun (_ : unit) (p : Z * Z) => create_cell (GameOfLife.grid game) p.1 p.2)
    (fun visited _ v =>
       consistent v
       /\ blobs_of_cells (GameOfLife.grid game) visited v
       /\ untouched v0 v)
    (scan_order N) tt v0) as ([] & v & Hrun & Hv).
  - split_and!.
    + unfold consistent, agree, keyed. rewrite Hblobs, Hmap. split_and!.
      * constructor.
      * intros b. rewrite elem_of_nil, lookup_empty. naive_solver.
      * intros k b. by rewrite lookup_empty.
    + split.
      * intros b. by rewrite Hblobs, elem_of_nil.
      * intros x y. by rewrite elem_of_nil.
    + done.
  - intros visited [y x] rest [] v Hscan (Hcons & Hcells & Hframe).
    apply scan_order_fresh in Hscan as (Hfresh & Hx & Hy).
    cbn [fst snd] in *. unfold create_cell, bind at 1.
    rewrite (read2_inside N) by done. rewrite strict_eq_int.
    case_bool_decide as Halive.
    + exists tt, (with_blob x y v). split; [done|].
      destruct (with_blob_consistent x y visited v) as [Hc' Hb']; [done..|].
      split_and!; [done..|]. destruct Hframe as (?&?&?&?&?). by split_and!.
    + exists tt, v. split; [done|]. split_and!; [done| |done].
      by apply blobs_of_cells_skip.
  - by exists v.
Qed.
End CreateBlobsFacts.

Section FieldsIrrelevant.
Import Js BlobVisualizer.
Context (palette : list Z) (m : gmap string blob) (N : Z).

Lemma examine_same (cur : blob) (s1 s2 : search) (d : Z * Z) :
  same_search s1 s2 ->
  same_search (examine m N cur s1 d) (examine m N cur s2 d).
Proof.
  intros (Hq & Hv & Hf). unfold examine. cbv zeta.
  destruct (m !! _); [|done]. rewrite Hv. case_decide; [done|].
  unfold same_search. cbn. by rewrite Hq, Hf.
Qed.

Lemma scan_same (cur : blob) (ds : list (Z * Z)) (s1 s2 : search) :
  same_search s1 s2 ->
  same_search (foldl (examine m N cur) s1 ds) (foldl (examine m N cur) s2 ds).
Proof.
  revert s1 s2. induction ds as [|d ds IH]; intros s1 s2 Hs; [done|].
  cbn [foldl]. by apply IH, examine_same.
Qed.

Lemma bfs_same (fuel : nat) (c : Z) (s1 s2 : search) :
  same_search s1 s2 -> same_search (bfs fuel m N c s1) (bfs fuel m N c s2).
Proof.
  revert s1 s2. induction fuel as [|fuel IH]; intros s1 s2 Hs; [done|].
  cbn [bfs]. pose proof Hs as (Hq & Hv & Hf). rewrite Hq.
  destruct (queue s2) as [|b rest] eqn:Hq2; [done|].
  apply IH. unfold visit. apply scan_same. unfold same_search. cbn.
  by rewrite Hv, Hf.
Qed.

Lemma group_from_same (g1 g2 : grouping) (b : blob) :
  same_grouping g1 g2 ->
  same_grouping (group_from palette m N g1 b) (group_from palette m N g2 b).
Proof.
  intros (Hg & Hc & Hs). unfold group_from. rewrite Hs.
  case_decide; [done|].
  assert (same_search (search_from m N g1 b) (search_from m N g2 b))
    as (_ & Hv & Hf).
  { unfold search_from. rewrite Hc, Hs.
    assert (forall f1 f2,
      turns m (mk_search [b] ({[blob_key b]} ∪ seen g2) [] f1)
      = turns m (mk_search [b] ({[blob_key b]} ∪ seen g2) [] f2)) as Ht
      by done.
    rewrite (Ht (store g1) (store g2)). by apply bfs_same. }
  unfold same_grouping. cbn. by rewrite Hg, Hc, Hv, Hf.
Qed.

Lemma grouping_same (l : list blob) (g1 g2 : grouping) :
  same_grouping g1 g2 ->
  same_grouping (foldl (group_from palette m N) g1 l)
                (foldl (group_from palette m N) g2 l).
Proof.
  revert g1 g2. induction l as [|b l IH]; intros g1 g2 Hg; [done|].
  cbn [foldl]. by apply IH, group_from_same.
Qed.
End FieldsIrrelevant.

Section MetaballFacts.
Import Js BlobVisualizer.

(** The organisms depend on [blobColors], [blobs] and [blobsMap] only. *)
Lemma grouped_books (game : GameOfLife.t) (v1 v2 : t) :
  blobColors v1 = blobColors v2 -> blobs v1 = blobs v2 ->
  blobsMap v1 = blobsMap v2 ->
  groups (grouped game v1) = groups (grouped game v2).
Proof.
  intros Hc Hb Hm. unfold grouped. rewrite Hc, Hb, Hm.
  by apply grouping_same.
Qed.

Lemma with_metaball_books (o : organism) (v : t) :
  books (with_metaball o v) = books v.
Proof. unfold with_metaball. by case_decide. Qed.

Lemma metaballs_books (os : list organism) (v : t) :
  books (foldl (fun v o => with_metaball o v) v os) = books v.
Proof.
  revert v. induction os as [|o os IH]; intros v; [done|].
  cbn [foldl]. by rewrite IH, with_metaball_books.
Qed.

Lemma createMetaballOrganisms_run (v : t) :
  createMetaballOrganisms v
  = (Normal tt,
     foldl (fun v o => with_metaball o v)
       (set_metaballsMap (fun _ => ∅) (detach_metaballs v))
       (organismGroups v)).
Proof.
  unfold createMetaballOrganisms, bind at 1 2 3, modify, get.
  apply foldM_modify. intros o v'. unfold with_metaball.
  by case_decide.
Qed.

Lemma createMetaballOrganisms_books (v : t) :
  exists v', createMetaballOrganisms v = (Normal tt, v')
             /\ books v' = books v.
Proof.
  eexists. split; [apply createMetaballOrganisms_run|].
  by rewrite metaballs_books.
Qed.
End MetaballFacts.

Section ConstructionFacts.
Import Js BlobVisualizer.

Lemma grouped_after_identify (game : GameOfLife.t) (v : t) :
  up_to_date game
    (set_organismGroups (groups (grouped game v))
       (set_heap (fun _ => store (grouped game v))
          (set_organismGroups [] v))).
Proof. unfold up_to_date. cbn [organismGroups set_organismGroups]. by apply grouped_books. Qed.

Lemma up_to_date_books (game : GameOfLife.t) (v v' : t) :
  books v' = books v -> up_to_date game v -> up_to_date game v'.
Proof.
  unfold books, up_to_date. intros [= Hc Hb Hm Hg Hp Ha Hh Hch] Hv.
  rewrite Hg, Hv. by apply grouped_books.
Qed.

Lemma consistent_books (v v' : t) :
  blobs v' = blobs v -> blobsMap v' = blobsMap v ->
  consistent v -> consistent v'.
Proof.
  unfold consistent, agree. intros -> ->. done.
Qed.

(** [createBlobs] on an N x N grid: one blob per live cell, in both
    structures, grouped into organisms. *)
Lemma createBlobs_run (game : GameOfLife.t) (N : Z) (v : t) :
  GameOfLife.size game = N -> square N (GameOfLife.grid game) ->
  exists v',
    createBlobs game v = (Normal tt, v')
    /\ consistent v'
    /\ blobs_of_cells (GameOfLife.grid game) (scan_order N) v'
    /\ up_to_date game v'
    /\ blobColors v' = blobColors v
    /\ pendingChanges v' = pendingChanges v
    /\ isAnimating v' = isAnimating v
    /\ chains v' = chains v.
Proof.
  intros Hsize Hsq.
  set (v0 := set_metaballsMap (fun _ => ∅) (set_blobsMap (fun _ => ∅)
               (set_blobs (fun _ => []) (set_children (fun _ => []) v)))).
  destruct (createBlobs_loops game N Hsize Hsq v0 eq_refl eq_refl)
    as (vl & Hrun & Hcons & Hcells & Hframe).
  set (vi := set_organismGroups (groups (grouped game vl))
               (set_heap (fun _ => store (grouped game vl))
                  (set_organismGroups [] vl))).
  destruct (createMetaballOrganisms_books vi) as (v' & Hmeta & Hbooks).
  exists v'.
  assert (createBlobs game v = (Normal tt, v')) as ->.
  { change (createBlobs game v)
      with (bind (create_all game) (fun _ =>
              bind (identifyOrganismGroups game)
                   (fun _ => createMetaballOrganisms)) v0).
    unfold bind at 1. rewrite Hrun.
    unfold bind at 1. rewrite identifyOrganismGroups_run. apply Hmeta. }
  pose proof Hbooks as Hbooks'.
  injection Hbooks' as Hc Hb Hm Hg Hp Ha Hh Hch.
  destruct Hframe as (Fc & Fg & Fp & Fa & Fch).
  split_and!; try done.
  - by apply (consistent_books vl).
  - unfold blobs_of_cells. by rewrite Hb.
  - apply (up_to_date_books game vi); [done|].
    apply grouped_after_identify.
  - by rewrite Hc.
  - by rewrite Hp.
  - by rewrite Ha.
  - by rewrite Hch.
Qed.

(** Every blob that stands for a visited cell lies in the grid. *)
Lemma blobs_of_cells_in_grid (g : list (list Z)) (N : Z) (v : t) (b : blob) :
  blobs_of_cells g (scan_order N) v -> b ∈ blobs v -> in_grid N b.
Proof.
  intros [Hin _] Hb. destruct (Hin b Hb) as [Hv _].
  by apply elem_of_scan_order in Hv.
Qed.
End ConstructionFacts.

Section ClusteringClaims.
Import Js BlobVisualizer.

Lemma offsets_complete (dx dy : Z) :
  -1 <= dx <= 1 -> -1 <= dy <= 1 -> (dx, dy) <> (0, 0) ->
  (dx, dy) ∈ offsets.
Proof.
  intros Hx Hy Hne. rewrite offsets_eq. unfold neighbours8.
  assert (dx = -1 \/ dx = 0 \/ dx = 1) as [->|[->| ->]] by lia;
  assert (dy = -1 \/ dy = 0 \/ dy = 1) as [->|[->| ->]] by lia;
    try done; rewrite !elem_of_cons; tauto.
Qed.

Lemma NoDup_coordinates (l : list blob) :
  NoDup (blob_key <$> l) ->
  NoDup ((fun b => (blob_x b, blob_y b)) <$> l).
Proof.
  intros Hnd.
  apply (NoDup_fmap_1 (fun p : Z * Z => key (Int p.1) (Int p.2))).
  by rewrite <- list_fmap_compose.
Qed.

(** C2: for every consistent bookkeeping [identifyOrganismGroups] returns
    organisms whose member lists together hold every blob exactly once
    and nothing else; ids are 0, 1, 2, ... in list order, and each
    organism starts with the blob that seeded its search, the seeds in
    the order of the [blobs] array. Built from any N x N grid, the
    members are exactly the live cells, each in one organism. For live
    cells (0,0), (0,1), (5,5) on a 10 x 10 grid there are two organisms,
    {(0,0), (0,1)} with id 0 and {(5,5)} with id 1. *)
Theorem identifyOrganismGroups_partition :
  (forall (game : GameOfLife.t) (v : t),
      consistent v ->
      exists v',
        identifyOrganismGroups game v = (Normal tt, v')
        /\ blobs v' = blobs v /\ blobsMap v' = blobsMap v
        /\ all_members (organismGroups v') ≡ₚ blobs v
        /\ id <$> organismGroups v'
           = Z.of_nat <$> seq 0 (length (organismGroups v'))
        /\ exists seeds,
             Forall2 (fun o s => head (members o) = Some s)
                     (organismGroups v') seeds
             /\ seeds `sublist_of` blobs v)
  /\ (forall (game : GameOfLife.t) (N : Z) (c : colors),
        GameOfLife.size game = N -> 1 <= N ->
        square N (GameOfLife.grid game) ->
        exists v,
          constructor game c = (Normal tt, v)
          /\ consistent v
          /\ NoDup ((fun b => (blob_x b, blob_y b))
                      <$> all_members (organismGroups v))
          /\ (forall x y,
                (exists b, b ∈ all_members (organismGroups v)
                           /\ blob_x b = x /\ blob_y b = y)
                <-> 0 <= x < N /\ 0 <= y < N
                    /\ cell (GameOfLife.grid game) x y = 1)
          /\ id <$> organismGroups v
             = Z.of_nat <$> seq 0 (length (organismGroups v)))
  /\ membership (constructor (game_of 10 [(0, 0); (0, 1); (5, 5)]) palette).2
     = [ (0, [(0, 0); (0, 1)]); (1, [(5, 5)]) ].
Proof.
  split_and!.
  - intros game v Hv. eexists.
    split; [apply identifyOrganismGroups_run|].
    pose proof (grouped_inv game v Hv)
      as (_ & _ & _ & _ & Hids & _ & Hseeds).
    split_and!; [done|done|by apply grouped_partition|done|done].
  - intros game N c Hsize HN Hsq.
    destruct (createBlobs_run game N (initial c) Hsize Hsq)
      as (v & Hrun & Hcons & [Hin Hall] & Hup & _).
    exists v. split; [done|]. split; [done|].
    pose proof (grouped_partition game v Hcons) as Hperm.
    pose proof (grouped_inv game v Hcons)
      as (Hnd & _ & _ & _ & Hids & _).
    rewrite <- Hup in Hperm, Hnd, Hids. split_and!.
    + by apply NoDup_coordinates.
    + intros x y. split.
      * intros (b & Hb & <- & <-). rewrite Hperm in Hb.
        destruct (Hin b Hb) as [Hv Hc].
        apply elem_of_scan_order in Hv. tauto.
      * intros (Hx & Hy & Hc).
        destruct (Hall x y) as (b & Hb & Hbx & Hby);
          [by apply elem_of_scan_order|done|].
        exists b. by rewrite Hperm.
    + done.
  - by vm_compute.
Qed.

Lemma identifyOrganismGroups_partition_witness :
  exists v,
    constructor (game_of 10 [(0, 0); (0, 1); (5, 5)]) palette = (Normal tt, v)
    /\ consistent v
    /\ NoDup ((fun b => (blob_x b, blob_y b))
                <$> all_members (organismGroups v))
    /\ (forall x y,
          (exists b, b ∈ all_members (organismGroups v)
                     /\ blob_x b = x /\ blob_y b = y)
          <-> 0 <= x < 10 /\ 0 <= y < 10
              /\ cell (grid_of 10 [(0, 0); (0, 1); (5, 5)]) x y = 1)
    /\ id <$> organismGroups v
       = Z.of_nat <$> seq 0 (length (organismGroups v)).
Proof.
  apply (proj1 (proj2 identifyOrganismGroups_partition)
           (game_of 10 [(0, 0); (0, 1); (5, 5)]) 10 palette).
  - reflexivity.
  - lia.
  - split; [reflexivity|]. decide_by_computation.
Defined.

(** C3: clustering adjacency is toroidal. When the blobs lie in the
    N x N grid, two distinct blobs whose coordinates differ by at most 1
    modulo N in each axis end up in the same organism; cells (0,0) and
    (9,9) of a 10 x 10 grid form a single organism. *)
Theorem identifyOrganismGroups_toroidal :
  (forall (game : GameOfLife.t) (N : Z) (v : t),
      GameOfLife.size game = N -> consistent v ->
      (forall b, b ∈ blobs v -> in_grid N b) ->
      exists v',
        identifyOrganismGroups game v = (Normal tt, v')
        /\ forall a b, a ∈ blobs v -> b ∈ blobs v -> a <> b ->
             adjacent N a b ->
             exists o, o ∈ organismGroups v'
                       /\ a ∈ members o /\ b ∈ members o)
  /\ membership (constructor (game_of 10 [(0, 0); (9, 9)]) palette).2
     = [ (0, [(0, 0); (9, 9)]) ].
Proof.
  split; [|by vm_compute].
  intros game N v Hsize Hv Hgrid. eexists.
  split; [apply identifyOrganismGroups_run|].
  cbn [organismGroups set_organismGroups].
  intros a b Ha Hb Hne (dx & dy & Hdx & Hdy & Hx & Hy).
  pose proof (grouped_partition game v Hv) as Hperm.
  pose proof (grouped_closed game v Hv) as Hclosed.
  rewrite Hsize in Hclosed. specialize (Hclosed Hgrid).
  destruct Hv as (Hnd & Hagree & Hkeyed).
  assert (a ∈ all_members (groups (grouped game v))) as Hmem
    by (by rewrite Hperm).
  apply elem_of_all_members in Hmem as (o & Ho & Hao).
  exists o. split_and!; [done..|].
  destruct (Hgrid a Ha) as [Hax Hay], (Hgrid b Hb) as [Hbx Hby].
  apply (Hclosed o a (blob_key b) b); [done..| |by apply Hagree].
  assert ((dx, dy) ∈ offsets) as Hd.
  { apply offsets_complete; [done..|]. intros [= -> ->].
    rewrite Z.add_0_r, Z.mod_small in Hx, Hy by lia.
    apply Hne. apply Hagree in Ha, Hb.
    assert (blob_key a = blob_key b) as Hk
      by (unfold blob_key; by rewrite Hx, Hy).
    rewrite Hk in Ha. congruence. }
  unfold neighbour_keys. apply list_elem_of_fmap. exists (dx, dy).
  split; [|done]. rewrite (neighbour_key_wrap N a (dx, dy)) by done.
  unfold blob_key. cbn [fst snd]. by rewrite Hx, Hy.
Qed.

Lemma identifyOrganismGroups_toroidal_witness :
  exists v',
    identifyOrganismGroups (game_of 10 [(0, 0); (9, 9)])
      (constructor (game_of 10 [(0, 0); (9, 9)]) palette).2
    = (Normal tt, v')
    /\ forall a b,
         a ∈ blobs (constructor (game_of 10 [(0, 0); (9, 9)]) palette).2 ->
         b ∈ blobs (constructor (game_of 10 [(0, 0); (9, 9)]) palette).2 ->
         a <> b -> adjacent 10 a b ->
         exists o, o ∈ organismGroups v' /\ a ∈ members o /\ b ∈ members o.
Proof.
  apply (proj1 identifyOrganismGroups_toroidal
           (game_of 10 [(0, 0); (9, 9)]) 10).
  - reflexivity.
  - destruct (createBlobs_run (game_of 10 [(0, 0); (9, 9)]) 10
                (initial palette) eq_refl) as (v & Hrun & Hcons & _).
    { split; [reflexivity|]. decide_by_computation. }
    unfold constructor. by rewrite Hrun.
  - intros b Hb. vm_compute in Hb.
    apply elem_of_cons in Hb as [->|Hb]; [by vm_compute|].
    apply list_elem_of_singleton in Hb as ->. by vm_compute.
Defined.
End ClusteringClaims.

Section PrepareFacts.
Import Js BlobVisualizer.
Context (game : GameOfLife.t) (N : Z) (cur nxt : list (list Z)) (v0 : t).
Hypothesis Hsize : GameOfLife.size game = N.
Hypothesis Hcur : square N cur.
Hypothesis Hnxt : square N nxt.

(** What the body of the loops does at a cell of the grid. *)
Lemma prepare_cell_run (c : changes) (x y : Z) (v : t) :
  0 <= x < N -> 0 <= y < N ->
  prepare_cell cur nxt c y x v
  = if decide (cell cur x y = 0 /\ cell nxt x y = 1) then
      (Normal (mk_changes (appearingCells c ++ [(x, y)])
                 (disappearingCells c) (persistentCells c)
                 (newBlobs c ++ [mk_blob (next_handle v) x y])
                 (blobsToRemove c)),
       with_new_blob v)
    else if decide (cell cur x y = 1 /\ cell nxt x y = 0) then
      (Normal (mk_changes (appearingCells c)
                 (disappearingCells c ++ [(x, y)])
                 (persistentCells c) (newBlobs c)
                 (match blobsMap v !! key (Int x) (Int y) with
                  | Some b => blobsToRemove c ++ [b]
                  | None => blobsToRemove c
                  end)),
       v)
    else if decide (cell cur x y = 1 /\ cell nxt x y = 1) then
      (Normal (mk_changes (appearingCells c) (disappearingCells c)
                 (persistentCells c ++ [(x, y)])
                 (newBlobs c) (blobsToRemove c)),
       v)
    else (Normal c, v).
Proof using Hcur Hnxt.
  intros Hx Hy. unfold prepare_cell. cbv zeta. unfold bind at 1.
  rewrite (read2_inside N cur) by done. rewrite !strict_eq_int.
  destruct (decide (cell cur x y = 0)) as [Hc0|Hc0].
  - rewrite bool_decide_eq_true_2 by done. unfold bind at 1.
    rewrite (read2_inside N nxt) by done. rewrite !strict_eq_int.
    destruct (decide (cell nxt x y = 1)) as [Hc1|Hc1].
    + rewrite bool_decide_eq_true_2 by done.
      rewrite decide_True by done. done.
    + rewrite bool_decide_eq_false_2 by done.
      rewrite !decide_False by lia. done.
  - rewrite bool_decide_eq_false_2 by done.
    rewrite decide_False by tauto.
    destruct (decide (cell cur x y = 1)) as [Hc1|Hc1].
    + rewrite bool_decide_eq_true_2 by done. unfold bind at 1.
      rewrite (read2_inside N nxt) by done. rewrite !strict_eq_int.
      destruct (decide (cell nxt x y = 0)) as [Hn0|Hn0].
      * rewrite bool_decide_eq_true_2 by done.
        rewrite decide_True by done. done.
      * rewrite bool_decide_eq_false_2 by done.
        rewrite decide_False by tauto.
        destruct (decide (cell nxt x y = 1)) as [Hn1|Hn1].
        -- rewrite bool_decide_eq_true_2 by done.
           rewrite decide_True by done. done.
        -- rewrite bool_decide_eq_false_2 by done.
           rewrite decide_False by tauto. done.
    + rewrite bool_decide_eq_false_2 by done.
      rewrite !decide_False by tauto. done.
Qed.

Lemma prepared_initial : prepared cur nxt v0 [] no_changes v0.
Proof using Type.
  unfold prepared, untouched, no_changes. cbn. split_and!; try done.
  - by intros b ?%elem_of_nil.
  - by intros x y ?%elem_of_nil.
  - constructor.
  - intros b. rewrite elem_of_nil. split; [done|].
    by intros (x & y & ?%elem_of_nil & _).
Qed.

Lemma prepared_step (visited : list (Z * Z)) (c : changes) (x y : Z) (v : t) :
  (y, x) ∉ visited -> 0 <= x < N -> 0 <= y < N ->
  prepared cur nxt v0 visited c v ->
  exists c' v',
    prepare_cell cur nxt c y x v = (Normal c', v')
    /\ prepared cur nxt v0 (visited ++ [(y, x)]) c' v'.
Proof using Hcur Hnxt.
  intros Hfresh Hx Hy (Hb & Hm & Hu & Hnew & Hnew' & Hnd & Hrem).
  rewrite prepare_cell_run by done.
  assert (forall p : Z * Z, p ∈ visited -> p ∈ visited ++ [(y, x)]) as Hmono
    by (intros p Hp; apply elem_of_app; by left).
  assert ((y, x) ∈ visited ++ [(y, x)]) as Hlast
    by (apply elem_of_app; right; left).
  destruct (decide (cell cur x y = 0 /\ cell nxt x y = 1)) as [[Hc Hn]|Happ].
  { (* the cell appears *)
    eexists _, _. split; [done|].
    destruct Hu as (?&?&?&?&?).
    unfold prepared, untouched. cbn. split_and!; try done.
    - intros b [Hin| ->%list_elem_of_singleton]%elem_of_app.
      + destruct (Hnew b Hin) as (Hv & Hz & Ho & Hh & Hlt).
        split_and!; [by apply Hmono|done|done| |lia].
        rewrite lookup_insert_ne by lia. done.
      + cbn. split_and!; [done|done|done| |lia].
        by rewrite lookup_insert_eq.
    - intros x' y' [Hv|Hv%list_elem_of_singleton]%elem_of_app Hz Ho.
      + destruct (Hnew' x' y' Hv Hz Ho) as (b & Hin & Hbx & Hby).
        exists b. split; [|done]. apply elem_of_app. by left.
      + injection Hv as -> ->. exists (mk_blob (next_handle v) x y).
        split; [|done]. apply elem_of_app. right. left.
    - rewrite fmap_app. apply NoDup_app.
      split_and!; [done| |apply NoDup_singleton].
      intros k (b & -> & Hin)%list_elem_of_fmap Hk%list_elem_of_singleton.
      apply key_inj in Hk as [Hkx Hky]. cbn in Hkx, Hky.
      destruct (Hnew b Hin) as (Hv & _). rewrite Hkx, Hky in Hv.
      by apply Hfresh.
    - intros b. rewrite Hrem. split.
      + intros (x' & y' & Hv & Hrest). exists x', y'. split; [|done].
        by apply Hmono.
      + intros (x' & y' & [Hv|Hv%list_elem_of_singleton]%elem_of_app
                  & Ho & Hz & Hmap).
        * by exists x', y'.
        * injection Hv as -> ->. lia. }
  destruct (decide (cell cur x y = 1 /\ cell nxt x y = 0)) as [[Hc Hn]|Hdis].
  { (* the cell disappears *)
    eexists _, _. split; [done|].
    unfold prepared. cbn. split_and!; try done.
    - intros b Hin. destruct (Hnew b Hin) as (Hv & Hrest).
      split; [by apply Hmono|done].
    - intros x' y' [Hv|Hv%list_elem_of_singleton]%elem_of_app Hz Ho.
      + by apply Hnew'.
      + injection Hv as -> ->. lia.
    - intros b. rewrite Hm.
      destruct (blobsMap v0 !! key (Int x) (Int y)) as [d|] eqn:Hd.
      + rewrite elem_of_app, list_elem_of_singleton, Hrem. split.
        * intros [(x' & y' & Hv & Hrest)| ->].
          -- exists x', y'. split; [by apply Hmono|done].
          -- by exists x, y.
        * intros (x' & y' & [Hv|Hv%list_elem_of_singleton]%elem_of_app
                    & Ho & Hz & Hmap).
          -- left. by exists x', y'.
          -- injection Hv as -> ->. right. congruence.
      + rewrite Hrem. split.
        * intros (x' & y' & Hv & Hrest). exists x', y'.
          split; [by apply Hmono|done].
        * intros (x' & y' & [Hv|Hv%list_elem_of_singleton]%elem_of_app
                    & Ho & Hz & Hmap).
          -- by exists x', y'.
          -- injection Hv as -> ->. congruence. }
  (* the cell stays alive or stays dead: nothing is created or recorded *)
  assert (forall c', newBlobs c' = newBlobs c ->
            blobsToRemove c' = blobsToRemove c ->
            prepared cur nxt v0 (visited ++ [(y, x)]) c' v) as Hkeep.
  { intros c' Hn Hr. unfold prepared. rewrite Hn, Hr.
    split_and!; try done.
    - intros b Hin. destruct (Hnew b Hin) as (Hv & Hrest).
      split; [by apply Hmono|done].
    - intros x' y' [Hv|Hv%list_elem_of_singleton]%elem_of_app Hz Ho.
      + by apply Hnew'.
      + injection Hv as -> ->. tauto.
    - intros b. rewrite Hrem. split.
      + intros (x' & y' & Hv & Hrest). exists x', y'.
        split; [by apply Hmono|done].
      + intros (x' & y' & [Hv|Hv%list_elem_of_singleton]%elem_of_app
                  & Ho & Hz & Hmap).
        * by exists x', y'.
        * injection Hv as -> ->. tauto. }
  case_decide; eexists _, _; (split; [done|]); by apply Hkeep.
Qed.
End PrepareFacts.

Section PrepareRun.
Import Js BlobVisualizer.
Context (game : GameOfLife.t) (N : Z) (cur nxt : list (list Z)).
Hypothesis Hsize : GameOfLife.size game = N.
Hypothesis Hcur : square N cur.
Hypothesis Hnxt : square N nxt.

(** From a state that is not animating, [prepareNextGeneration] returns
    [true] and stores the changes it has collected over the whole grid. *)
Lemma prepareNextGeneration_run (v0 : t) :
  isAnimating v0 = false ->
  exists c v1,
    prepareNextGeneration game cur nxt v0
      = (Normal true, set_pendingChanges (Some c) v1)
    /\ prepared cur nxt v0 (scan_order N) c v1.
Proof using Hsize Hcur Hnxt.
  intros Hidle.
  destruct (foldM_invariant
    (fun c (p : Z * Z) => prepare_cell cur nxt c p.1 p.2)
    (fun visited c v => prepared cur nxt v0 visited c v)
    (scan_order N) no_changes v0) as (c & v1 & Hrun & Hv).
  - apply prepared_initial.
  - intros visited [y x] rest c v Hscan Hprep.
    apply scan_order_fresh in Hscan as (Hfresh & Hx & Hy).
    by apply (prepared_step N).
  - exists c, v1. split; [|done].
    unfold prepareNextGeneration, bind at 1, get. rewrite Hidle, Hsize.
    unfold bind at 1.
    rewrite (foldM_product (prepare_cell cur nxt)).
    fold (scan_order N). by rewrite Hrun.
Qed.

(** While an animation is in progress the call is rejected and nothing
    changes. *)
Lemma prepareNextGeneration_busy (v : t) :
  isAnimating v = true ->
  prepareNextGeneration game cur nxt v = (Normal false, v).
Proof using Type.
  intros Hbusy. unfold prepareNextGeneration, bind, get. by rewrite Hbusy.
Qed.
End PrepareRun.

Section SameGrid.
Import Js BlobVisualizer.
Context (game : GameOfLife.t) (N : Z) (g : list (list Z)).
Hypothesis Hsize : GameOfLife.size game = N.
Hypothesis Hg : square N g.

(** With the next grid identical to the current one nothing appears and
    nothing disappears, and no blob is created. *)
Lemma prepareNextGeneration_same (v0 : t) :
  isAnimating v0 = false ->
  exists c,
    prepareNextGeneration game g g v0
      = (Normal true, set_pendingChanges (Some c) v0)
    /\ newBlobs c = [] /\ blobsToRemove c = []
    /\ appearingCells c = [] /\ disappearingCells c = [].
Proof using Hsize Hg.
  intros Hidle.
  destruct (foldM_invariant
    (fun c (p : Z * Z) => prepare_cell g g c p.1 p.2)
    (fun _ c v => v = v0 /\ newBlobs c = [] /\ blobsToRemove c = []
                  /\ appearingCells c = [] /\ disappearingCells c = [])
    (scan_order N) no_changes v0) as (c & v1 & Hrun & -> & Hc).
  - done.
  - intros visited [y x] rest c v Hscan (-> & Hn & Hr & Ha & Hd).
    apply scan_order_fresh in Hscan as (_ & Hx & Hy). cbn [fst snd] in *.
    rewrite (prepare_cell_run N) by done.
    rewrite !decide_False by lia.
    case_decide; eexists _, _; (split; [done|]); by split_and!.
  - exists c. split; [|done].
    unfold prepareNextGeneration, bind at 1, get. rewrite Hidle, Hsize.
    unfold bind at 1.
    rewrite (foldM_product (prepare_cell g g)).
    fold (scan_order N). by rewrite Hrun.
Qed.
End SameGrid.

(** Reads a field through the state updates above it. *)
Ltac read_fields :=
unfold without_blob, with_added_blob, shown, with_new_blob, with_blob;
cbn [BlobVisualizer.blobColors BlobVisualizer.children BlobVisualizer.blobs
     BlobVisualizer.blobsMap BlobVisualizer.organismGroups
     BlobVisualizer.pendingChanges BlobVisualizer.isAnimating
     BlobVisualizer.metaballsMap BlobVisualizer.heap
     BlobVisualizer.next_handle BlobVisualizer.chains
     BlobVisualizer.set_children BlobVisualizer.set_blobs
     BlobVisualizer.set_blobsMap BlobVisualizer.set_organismGroups
     BlobVisualizer.set_pendingChanges BlobVisualizer.set_isAnimating
     BlobVisualizer.set_metaballsMap BlobVisualizer.set_heap
     BlobVisualizer.set_next_handle BlobVisualizer.set_chains].

Section VisibilityFacts.
Import Js BlobVisualizer.
Context (palette : list Z) (m : gmap string blob) (N : Z).

Lemma set_organismId_visibility (c : Z) (n : nat)
    (h : gmap nat blob_fields) :
  same_visibility (alter (set_organismId c) n h) h.
Proof.
  intros n'. destruct (decide (n = n')) as [->|Hne].
  - rewrite lookup_alter_eq. by destruct (h !! n').
  - by rewrite lookup_alter_ne.
Qed.

Lemma bfs_visibility (fuel : nat) (c : Z) (st : search) :
  same_visibility (fields (bfs fuel m N c st)) (fields st).
Proof.
  revert st. induction fuel as [|fuel IH]; intros st; [done|].
  cbn [bfs]. destruct (queue st) as [|b rest]; [done|].
  intros n. rewrite IH. unfold visit.
  destruct (scan_found m N b offsets
    (mk_search rest (visited st) (found st ++ [b])
       (alter (set_organismId c) (handle b) (fields st))))
    as (_ & -> & _).
  apply set_organismId_visibility.
Qed.

Lemma group_from_visibility (g : grouping) (b : blob) :
  same_visibility (store (group_from palette m N g b)) (store g).
Proof.
  unfold group_from. case_decide; [done|]. cbn [store].
  unfold search_from. apply bfs_visibility.
Qed.

Lemma grouping_visibility (l : list blob) (g : grouping) :
  same_visibility (store (foldl (group_from palette m N) g l)) (store g).
Proof.
  revert g. induction l as [|b l IH]; intros g; [done|].
  cbn [foldl]. intros n. rewrite IH. apply group_from_visibility.
Qed.
End VisibilityFacts.

Section RegroupFacts.
Import Js BlobVisualizer.

Lemma remove_dying_run (c : changes) (v : t) :
  remove_dying c v
  = (Normal tt, foldl (fun v b => without_blob b v) v (blobsToRemove c)).
Proof. unfold remove_dying. by apply foldM_modify. Qed.

Lemma add_new_run (c : changes) (v : t) :
  add_new c v
  = (Normal tt, foldl (fun v b => with_added_blob b v) v (newBlobs c)).
Proof. unfold add_new. by apply foldM_modify. Qed.

Lemma start_grow_run (c : changes) (v : t) :
  start_grow c v = (Normal tt, foldl (fun v b => shown b v) v (newBlobs c)).
Proof. unfold start_grow. by apply foldM_modify. Qed.

(** After the removals: the removed blobs are in neither structure. *)
Lemma without_blobs (l : list blob) (v : t) :
  let v' := foldl (fun v b => without_blob b v) v l in
  (forall b, b ∈ blobs v' <-> b ∈ blobs v /\ b ∉ l)
  /\ (forall k, blobsMap v' !! k
                = if decide (k ∈ blob_key <$> l) then None
                  else blobsMap v !! k)
  /\ (NoDup (blobs v) -> NoDup (blobs v'))
  /\ heap v' = heap v /\ untouched v v'.
Proof.
  revert v. induction l as [|d l IH]; intros v.
  - cbn. split_and!; try done.
    all: try (intros b; rewrite elem_of_nil; tauto).
    all: intros k; rewrite decide_False; [done|]; apply not_elem_of_nil.
  - cbn [foldl]. destruct (IH (without_blob d v))
      as (Hb & Hm & Hnd & Hh & Hu).
    split_and!.
    + intros b. rewrite Hb. read_fields.
      rewrite list_elem_of_filter, not_elem_of_cons. tauto.
    + intros k. rewrite Hm. read_fields. rewrite fmap_cons.
      destruct (decide (k = blob_key d)) as [->|Hne].
      * rewrite lookup_delete_eq. rewrite (decide_True (P := _ ∈ _ :: _)) by left.
        by case_decide.
      * rewrite lookup_delete_ne by done.
        rewrite (decide_ext (k ∈ blob_key d :: (blob_key <$> l))
                   (k ∈ blob_key <$> l)); [done|].
        rewrite elem_of_cons. tauto.
    + intros Hv. apply Hnd. read_fields. by apply NoDup_filter.
    + by rewrite Hh.
    + destruct Hu as (?&?&?&?&?). by split_and!.
Qed.

(** After the additions: the new blobs are in both structures. *)
Lemma with_added_blobs (l : list blob) (v : t) :
  let v' := foldl (fun v b => with_added_blob b v) v l in
  blobs v' = blobs v ++ l
  /\ (forall k, k ∉ blob_key <$> l -> blobsMap v' !! k = blobsMap v !! k)
  /\ (NoDup (blob_key <$> l) ->
      forall b, b ∈ l -> blobsMap v' !! blob_key b = Some b)
  /\ heap v' = heap v /\ untouched v v'.
Proof.
  revert v. induction l as [|d l IH]; intros v.
  - cbn. split_and!; try done.
    all: try (by rewrite app_nil_r).
    all: by intros _ b ?%elem_of_nil.
  - cbn [foldl]. destruct (IH (with_added_blob d v))
      as (Hb & Hm & Hin & Hh & Hu).
    split_and!.
    + rewrite Hb. read_fields. by rewrite <- (assoc_L (++)).
    + intros k Hk. rewrite fmap_cons, not_elem_of_cons in Hk.
      destruct Hk as [Hne Hk]. rewrite Hm by done. read_fields.
      by rewrite lookup_insert_ne.
    + intros Hnd b Hbl. rewrite fmap_cons in Hnd.
      apply NoDup_cons in Hnd as [Hd Hnd].
      apply elem_of_cons in Hbl as [->|Hbl]; [|by apply Hin].
      rewrite Hm by done. read_fields. by rewrite lookup_insert_eq.
    + by rewrite Hh.
    + destruct Hu as (?&?&?&?&?). by split_and!.
Qed.

(** After step 5: the new blobs are visible. *)
Lemma shown_blobs (l : list blob) (v : t) :
  let v' := foldl (fun v b => shown b v) v l in
  (forall b, b ∈ l -> is_Some (heap v !! handle b) ->
             is_visible v' b = Some true)
  /\ books (set_heap (fun _ => heap v) v') = books v.
Proof.
  revert v. induction l as [|d l IH]; intros v.
  - cbn. split; [by intros b ?%elem_of_nil|done].
  - cbn [foldl]. destruct (IH (shown d v)) as (Hvis & Hbooks). split.
    + intros b Hb Hsome.
      destruct (decide (b ∈ l)) as [Hin|Hout].
      * apply Hvis; [done|]. read_fields.
        destruct (decide (handle d = handle b)) as [->|Hne].
        -- rewrite lookup_alter_eq. by destruct Hsome as [f ->].
        -- by rewrite lookup_alter_ne.
      * apply elem_of_cons in Hb as [->|Hb]; [|done].
        clear IH Hvis Hbooks Hout. unfold is_visible.
        assert (forall v, visible <$> heap v !! handle d = Some true ->
                  visible <$> heap (foldl (fun v b => shown b v) v l)
                                !! handle d = Some true) as Hkeep.
        { clear. induction l as [|e l IH]; intros v Hv; [done|].
          cbn [foldl]. apply IH. read_fields.
          destruct (decide (handle e = handle d)) as [->|Hne].
          - rewrite lookup_alter_eq.
            destruct (heap v !! handle d); [done|by cbn in Hv].
          - by rewrite lookup_alter_ne. }
        apply Hkeep. read_fields. rewrite lookup_alter_eq.
        by destruct Hsome as [f ->].
    + unfold books, shown in *. cbn in Hbooks |- *.
      injection Hbooks as Hc Hb Hm Hg Hp Ha Hch.
      by rewrite Hc, Hb, Hm, Hg, Hp, Ha, Hch.
Qed.

Lemma animateNextGeneration_run (c : changes) (v : t) :
  pendingChanges v = Some c -> isAnimating v = false ->
  animateNextGeneration v
  = (Normal true,
     set_chains (fun cs => cs ++ [AwaitShrink (blobsToRemove c) c])
       (set_isAnimating true v)).
Proof.
  intros Hp Ha. unfold animateNextGeneration, bind at 1, get.
  by rewrite Hp, Ha.
Qed.

Lemma list_difference_cons (w t : list blob) (b : blob) :
  list_difference (list_difference w [b]) t = list_difference w (b :: t).
Proof.
  induction w as [|x w IH]; [done|]. cbn.
  destruct (decide_rel elem_of x [b]) as [Hx|Hx];
    destruct (decide_rel elem_of x (b :: t)) as [Hx'|Hx']; cbn;
    try destruct (decide_rel elem_of x t) as [Ht|Ht];
    rewrite ?list_elem_of_singleton, ?elem_of_cons in *;
    try done; try (by f_equal); exfalso; tauto.
Qed.

Lemma list_difference_all (w t : list blob) :
  w ⊆ t -> list_difference w t = [].
Proof.
  intros Hsub. induction w as [|x w IH]; [done|]. cbn.
  destruct (decide_rel elem_of x t) as [Hx|Hx].
  - apply IH. intros y Hy. apply Hsub. by right.
  - exfalso. apply Hx, Hsub. left.
Qed.

(** The shrink tweens complete, in any order. *)
Lemma shrink_tweens_complete (game : GameOfLife.t) (tweens : list blob)
    (before : list chain) (w : list blob) (c : changes) (v : t) :
  chains v = before ++ [AwaitShrink w c] ->
  happen_all game (TweenComplete (length before) <$> tweens) v
  = Some (set_chains
            (fun _ => before ++ [AwaitShrink (list_difference w tweens) c]) v).
Proof.
  revert w v. induction tweens as [|b tweens IH]; intros w v Hch.
  - assert (list_difference w [] = w) as ->
      by (clear; induction w as [|x w IH]; [done|]; cbn; by rewrite IH).
    cbn. f_equal. rewrite <- Hch. by destruct v.
  - cbn [fmap list_fmap happen_all happen].
    rewrite Hch, list_lookup_middle by done.
    rewrite (IH (list_difference w [b])).
    + f_equal. rewrite list_difference_cons. by destruct v.
    + cbn. rewrite Hch.
      replace (length before) with (length before + 0)%nat by lia.
      by rewrite alter_app_r.
Qed.
End RegroupFacts.

Section AppearingFacts.
Import Js BlobVisualizer.

Lemma hidden_invisible (v : t) (b : blob) :
  heap v !! handle b = Some hidden -> is_visible v b = Some false.
Proof. unfold is_visible. by intros ->. Qed.
End AppearingFacts.

Section BlinkerFacts.
Import Js BlobVisualizer.

Lemma blinker_start_square : square 5 (GameOfLife.grid blinker_start).
Proof. split; [reflexivity|]. decide_by_computation. Qed.

Lemma horizontal_square : square 5 horizontal_grid.
Proof. split; [reflexivity|]. decide_by_computation. Qed.
End BlinkerFacts.

Section BusyClaims.
Import Js BlobVisualizer.

(** C5 (as amended): while an animation is in progress ([isAnimating],
    set by [animateNextGeneration] and cleared when the grow phase has
    completed) [prepareNextGeneration] returns [false], and so does
    [updateBlobs]; the visualizer, [pendingChanges] included, is left as
    it was. *)
Theorem prepare_rejected_while_animating (game : GameOfLife.t)
    (cur nxt : list (list Z)) (v : t) :
  isAnimating v = true ->
  prepareNextGeneration game cur nxt v = (Normal false, v)
  /\ updateBlobs game cur nxt v = (Normal false, v).
Proof.
  intros Hbusy.
  assert (prepareNextGeneration game cur nxt v = (Normal false, v)) as Hrej
    by (unfold prepareNextGeneration, bind, get; by rewrite Hbusy).
  split; [done|]. unfold updateBlobs. by rewrite (bind_run _ _ _ _ _ Hrej).
Qed.

Lemma prepare_rejected_while_animating_witness :
  prepareNextGeneration blinker_start horizontal_grid horizontal_grid
    (updateBlobs blinker_start (GameOfLife.grid blinker_start)
       horizontal_grid blinker_view).2
  = (Normal false,
     (updateBlobs blinker_start (GameOfLife.grid blinker_start)
        horizontal_grid blinker_view).2)
  /\ updateBlobs blinker_start horizontal_grid horizontal_grid
       (updateBlobs blinker_start (GameOfLife.grid blinker_start)
          horizontal_grid blinker_view).2
     = (Normal false,
        (updateBlobs blinker_start (GameOfLife.grid blinker_start)
           horizontal_grid blinker_view).2).
Proof.
  apply (prepare_rejected_while_animating blinker_start horizontal_grid
           horizontal_grid).
  by vm_compute.
Defined.

(** C5 as stated fails: after a first [prepareNextGeneration] the
    transition is pending, not idle, and a second call is accepted and
    replaces [pendingChanges]. *)
Lemma second_prepare_replaces_pending :
  let v1 := (prepareNextGeneration blinker_start
               (GameOfLife.grid blinker_start) horizontal_grid
               blinker_view).2 in
  let second := prepareNextGeneration blinker_start
                  (GameOfLife.grid blinker_start)
                  (GameOfLife.grid blinker_start) v1 in
  is_Some (pendingChanges v1)
  /\ second.1 = Normal true
  /\ pendingChanges second.2 <> pendingChanges v1.
Proof. cbv zeta. split_and!; decide_by_computation. Qed.
End BusyClaims.

Section FinishFacts.
Import Js BlobVisualizer.

Lemma updateMetaballPositions_ledger (v : t) :
  exists v', updateMetaballPositions v = (Normal tt, v')
             /\ ledger v' = ledger v.
Proof.
  unfold updateMetaballPositions, bind at 1, get.
  destruct (foldM_invariant
    (fun (_ : unit) '(organismId, m) =>
      (let* v := get in
       match find_organism (organismGroups v) organismId with
       | Some org =>
           if decide (members org = []) then
             modify (set_children (remove_child (Cubes (object m)))) ;;
             modify (set_metaballsMap (delete organismId))
           else ret tt
       | None =>
           modify (set_children (remove_child (Cubes (object m)))) ;;
           modify (set_metaballsMap (delete organismId))
       end)%js)
    (fun _ _ v' => ledger v' = ledger v)
    (map_to_list (metaballsMap v)) tt v) as ([] & v' & Hrun & Hv').
  - done.
  - intros visited [i mb] rest [] v' _ Hv'. unfold bind at 1, get.
    destruct (find_organism (organismGroups v') i) as [org|];
      [case_decide|]; eexists _, _; (split; [reflexivity|]); done.
  - by exists v'.
Qed.

Lemma clear_isNew_ledger (l : list blob) (v : t) :
  exists v',
    foldM (fun (_ : unit) blob =>
             modify (set_heap (alter (set_isNew false) (handle blob))))
      tt l v = (Normal tt, v')
    /\ ledger v' = ledger v.
Proof.
  eexists. split; [by apply foldM_modify|].
  revert v. induction l as [|b l IH]; intros v; [done|].
  cbn [foldl]. by rewrite IH.
Qed.

(** The second callback clears the two flags and keeps the rest of the
    bookkeeping. *)
Lemma finish_run (v : t) :
  exists v',
    finish v = (Normal tt, v')
    /\ blobs v' = blobs v /\ blobsMap v' = blobsMap v
    /\ organismGroups v' = organismGroups v /\ chains v' = chains v
    /\ pendingChanges v' = None /\ isAnimating v' = false.
Proof.
  destruct (clear_isNew_ledger (blobs v) v) as (v1 & Hclear & Hl1).
  destruct (updateMetaballPositions_ledger v1) as (v2 & Hupd & Hl2).
  exists (set_isAnimating false (set_pendingChanges None v2)).
  split.
  - unfold finish, bind at 1, get.
    rewrite (bind_run _ _ _ _ _ Hclear), (bind_run _ _ _ _ _ Hupd). done.
  - rewrite Hl1 in Hl2. injection Hl2 as _ Hb Hm Hg _ _ Hch.
    by split_and!.
Qed.
End FinishFacts.

Section NoChangeClaims.
Import Js BlobVisualizer.

(** C6 (as amended): with the next grid identical to the current one,
    [prepareNextGeneration] then [animateNextGeneration] start a
    transition with no shrink tween and no grow tween. The first callback
    (remove, add, [identifyOrganismGroups], [createMetaballOrganisms])
    still runs, unconditionally, and then the second; after it the
    visualizer is idle again with the same [blobs], the same [blobsMap]
    and the organisms [identifyOrganismGroups] computes from them; so
    the organisms are as before when they were up to date. *)
Theorem unchanged_grid_transition (game : GameOfLife.t) (N : Z)
    (g : list (list Z)) (v0 : t) :
  GameOfLife.size game = N -> square N g -> isAnimating v0 = false ->
  exists c v1 v2 v3 v4,
    prepareNextGeneration game g g v0 = (Normal true, v1)
    /\ pendingChanges v1 = Some c
    /\ newBlobs c = [] /\ blobsToRemove c = []
    /\ animateNextGeneration v1 = (Normal true, v2)
    /\ chains v2 = chains v0 ++ [AwaitShrink [] c]
    /\ isAnimating v2 = true
    /\ happen game (Callback (length (chains v0))) v2 = Some (Normal tt, v3)
    /\ chains v3 = chains v0 ++ [AwaitGrow []]
    /\ isAnimating v3 = true
    /\ organismGroups v3 = groups (grouped game v0)
    /\ happen game (Callback (length (chains v0))) v3 = Some (Normal tt, v4)
    /\ isAnimating v4 = false /\ pendingChanges v4 = None
    /\ chains v4 = chains v0
    /\ blobs v4 = blobs v0 /\ blobsMap v4 = blobsMap v0
    /\ organismGroups v4 = groups (grouped game v0)
    /\ (up_to_date game v0 -> organismGroups v4 = organismGroups v0).
Proof.
  intros Hsize Hg Hidle.
  destruct (prepareNextGeneration_same game N g Hsize Hg v0 Hidle)
    as (c & Hprep & Hnew & Hrem & _).
  set (v1 := set_pendingChanges (Some c) v0) in *.
  set (v2 := set_chains (fun cs => cs ++ [AwaitShrink (blobsToRemove c) c])
               (set_isAnimating true v1)).
  set (vi := set_organismGroups (groups (grouped game v2))
               (set_heap (fun _ => store (grouped game v2))
                  (set_organismGroups [] v2))).
  destruct (createMetaballOrganisms_books vi) as (vm & Hmeta & Hbooks).
  set (v3 := set_chains (alter (fun _ => AwaitGrow (newBlobs c))
                           (length (chains v0))) vm).
  destruct (finish_run v3) as (vf & Hfin & Hfb & Hfm & Hfg & Hfch & Hfp & Hfa).
  set (v4 := set_chains (delete (length (chains v0))) vf).
  assert (chains v2 = chains v0 ++ [AwaitShrink [] c]) as Hch2
    by (unfold v2, v1; read_fields; by rewrite Hrem).
  assert (regroup game c v2 = (Normal tt, vm)) as Hregroup.
  { unfold regroup.
    rewrite (bind_run _ _ v2 v2 tt)
      by (rewrite remove_dying_run; by rewrite Hrem).
    rewrite (bind_run _ _ v2 v2 tt) by (rewrite add_new_run; by rewrite Hnew).
    rewrite (bind_run _ _ v2 vi tt) by apply identifyOrganismGroups_run.
    rewrite (bind_run _ _ vi vm tt) by done.
    rewrite start_grow_run. by rewrite Hnew. }
  injection Hbooks as Hc Hb Hm Hgr Hp Ha Hh Hch.
  assert (chains v3 = chains v0 ++ [AwaitGrow []]) as Hch3.
  { assert (chains v3 = alter (fun _ => AwaitGrow (newBlobs c))
                          (length (chains v0)) (chains vm)) as -> by done.
    assert (chains vm = chains v0 ++ [AwaitShrink [] c]) as ->
      by (etrans; [exact Hch|exact Hch2]).
    rewrite Hnew.
    replace (length (chains v0)) with (length (chains v0) + 0)%nat by lia.
    by rewrite alter_app_r. }
  assert (groups (grouped game v2) = groups (grouped game v0)) as Hsame
    by (by apply grouped_books).
  assert (blobs vm = blobs v0) as Hvb by (etrans; [exact Hb|done]).
  assert (blobsMap vm = blobsMap v0) as Hvm by (etrans; [exact Hm|done]).
  assert (isAnimating vm = true) as Hva by (etrans; [exact Ha|done]).
  assert (organismGroups vm = groups (grouped game v0)) as Hvg
    by (etrans; [exact Hgr|exact Hsame]).
  exists c, v1, v2, v3, v4.
  split; [exact Hprep|]. split; [done|]. split; [done|]. split; [done|].
  split; [by apply animateNextGeneration_run|].
  split; [done|]. split; [done|].
  split.
  { unfold happen. rewrite Hch2, list_lookup_middle by done.
    by rewrite (bind_run _ _ _ _ _ Hregroup). }
  split; [done|]. split; [exact Hva|]. split; [exact Hvg|].
  split.
  { unfold happen. rewrite Hch3, list_lookup_middle by done.
    by rewrite (bind_run _ _ _ _ _ Hfin). }
  split; [exact Hfa|]. split; [exact Hfp|].
  split.
  { assert (chains v4 = delete (length (chains v0)) (chains vf)) as -> by done.
    rewrite Hfch, Hch3, delete_middle. apply app_nil_r. }
  split; [etrans; [exact Hfb|exact Hvb]|].
  split; [etrans; [exact Hfm|exact Hvm]|].
  split; [etrans; [exact Hfg|exact Hvg]|].
  intros Hup. etrans; [exact Hfg|]. etrans; [exact Hvg|]. by rewrite Hup.
Qed.

Lemma unchanged_grid_transition_witness :
  exists c v1 v2,
    prepareNextGeneration blinker_start (GameOfLife.grid blinker_start)
      (GameOfLife.grid blinker_start) blinker_view = (Normal true, v1)
    /\ pendingChanges v1 = Some c
    /\ newBlobs c = [] /\ blobsToRemove c = []
    /\ animateNextGeneration v1 = (Normal true, v2)
    /\ isAnimating v2 = true.
Proof.
  destruct (unchanged_grid_transition blinker_start 5
              (GameOfLife.grid blinker_start) blinker_view)
    as (c & v1 & v2 & v3 & v4 & Hprep & Hpending & Hnew & Hrem & Hanim
        & _ & Hbusy & _).
  - reflexivity.
  - split; [reflexivity|]. decide_by_computation.
  - vm_compute. reflexivity.
  - exists c, v1, v2. by split_and!.
Defined.

(** C6 as stated fails: with identical grids the visualizer is not idle
    when [animateNextGeneration] returns, and the regroup callback runs
    although no cell changed: it replaces the metaball objects of the
    scene by new ones. *)
Lemma regroup_runs_without_change :
  let v2 := (updateBlobs blinker_start (GameOfLife.grid blinker_start)
               (GameOfLife.grid blinker_start) blinker_view).2 in
  isAnimating v2 = true
  /\ (exists c, chains v2 = [AwaitShrink [] c])
  /\ exists v3, happen blinker_start (Callback 0) v2 = Some (Normal tt, v3)
                /\ children v3 <> children blinker_view
                /\ metaballsMap v3 <> metaballsMap blinker_view.
Proof.
  cbv zeta. split; [by vm_compute|]. split.
  - eexists. by vm_compute.
  - eexists. split; [by vm_compute|]. split; decide_by_computation.
Qed.
End NoChangeClaims.

Section BookkeepingClaims.
Import Js BlobVisualizer.

(** Construction and reset leave the two structures in agreement. *)
Lemma construction_agrees (game : GameOfLife.t) (N : Z) (c : colors) :
  GameOfLife.size game = N -> square N (GameOfLife.grid game) ->
  exists v, constructor game c = (Normal tt, v) /\ consistent v.
Proof.
  intros Hsize Hsq.
  destruct (createBlobs_run game N (initial c) Hsize Hsq)
    as (v & Hrun & Hcons & _).
  by exists v.
Qed.

Lemma resetBlobs_agrees (game : GameOfLife.t) (N : Z) (v0 : t) :
  GameOfLife.size game = N -> square N (GameOfLife.grid game) ->
  exists v, resetBlobs game v0 = (Normal tt, v) /\ consistent v
            /\ isAnimating v = false /\ pendingChanges v = None.
Proof.
  intros Hsize Hsq.
  set (v1 := set_metaballsMap (fun _ => ∅) (set_isAnimating false
               (set_pendingChanges None (set_organismGroups []
                  (set_blobsMap (fun _ => ∅) (set_blobs (fun _ => [])
                     (set_children (fun _ => []) v0))))))).
  destruct (createBlobs_run game N v1 Hsize Hsq)
    as (v & Hrun & Hcons & _ & _ & _ & Hp & Ha & _).
  exists v. split; [|done].
  change (resetBlobs game v0) with (createBlobs game v1). done.
Qed.

(** When the transition was prepared from the grid the blobs stand for,
    the removals and additions of the first callback give the bookkeeping
    of the next grid. *)
Lemma bookkeeping_follows_grid (N : Z) (cur nxt : list (list Z))
    (v0 v1 v : t) (c : changes) :
  square N cur -> square N nxt -> binary cur -> binary nxt ->
  consistent v0 -> blobs_of_cells cur (scan_order N) v0 ->
  prepared cur nxt v0 (scan_order N) c v1 ->
  blobs v = blobs v0 -> blobsMap v = blobsMap v0 ->
  let vb := foldl (fun v b => with_added_blob b v)
              (foldl (fun v b => without_blob b v) v (blobsToRemove c))
              (newBlobs c) in
  consistent vb /\ blobs_of_cells nxt (scan_order N) vb.
Proof.
  intros Hcur Hnxt Hbc Hbn (Hnd0 & Hagree0 & Hkeyed0) [Hin0 Hall0]
    (_ & _ & _ & Hnew & Hnew' & Hndk & Hrem) Hb Hm vb.
  set (va := foldl (fun v b => without_blob b v) v (blobsToRemove c)) in *.
  destruct (without_blobs (blobsToRemove c) v) as (Hba & Hma & Hnda & _).
  destruct (with_added_blobs (newBlobs c) va) as (Hbb & Hmb & Hmb' & _).
  fold va in Hba, Hma, Hnda, Hbb, Hmb, Hmb'. fold vb in Hbb, Hmb, Hmb'.
  rewrite Hb in Hba, Hnda.
  specialize (Hnda Hnd0). specialize (Hmb' Hndk).
  (* the dying blobs are blobs of the current grid whose cell dies *)
  assert (forall d, d ∈ blobsToRemove c ->
            d ∈ blobs v0 /\ cell nxt (blob_x d) (blob_y d) = 0) as Hdying.
  { intros d (x & y & _ & _ & Hzero & Hmap)%Hrem.
    pose proof (Hkeyed0 _ _ Hmap) as Hk. cbn in Hk.
    apply key_inj in Hk as [-> ->]. split; [|done].
    apply Hagree0. exact Hmap. }
  assert (forall b, b ∈ blobs v0 -> cell nxt (blob_x b) (blob_y b) = 0 ->
            b ∈ blobsToRemove c) as Hdies.
  { intros b Hbv Hzero. apply Hrem. exists (blob_x b), (blob_y b).
    destruct (Hin0 b Hbv) as [Hscan Hone]. split_and!; [done..|].
    by apply Hagree0. }
  (* a blob of the current grid and a new blob never share a key *)
  assert (forall b n, b ∈ blobs v0 -> n ∈ newBlobs c ->
            blob_key b <> blob_key n) as Hapart.
  { intros b n Hbv Hn [Hx Hy]%blob_key_inj.
    destruct (Hin0 b Hbv) as [_ Hone].
    destruct (Hnew n Hn) as (_ & Hzero & _).
    rewrite Hx, Hy in Hone. lia. }
  (* what the map holds after the update *)
  assert (forall n, n ∈ newBlobs c -> blobsMap vb !! blob_key n = Some n)
    as Hmap_new by done.
  assert (forall k, k ∉ blob_key <$> newBlobs c ->
            blobsMap vb !! k
            = if decide (k ∈ blob_key <$> blobsToRemove c) then None
              else blobsMap v0 !! k) as Hmap_old.
  { intros k Hk. by rewrite Hmb, Hma, Hm. }
  split; [split_and!|split].
  - rewrite Hbb. apply NoDup_app. split_and!; [done| |by eapply NoDup_fmap_1].
    intros b [Hbv _]%Hba Hn. by apply (Hapart b b).
  - intros b. rewrite Hbb, elem_of_app, Hba. split.
    + intros [[Hbv Hout]|Hn]; [|by apply Hmap_new].
      rewrite Hmap_old.
      * rewrite decide_False; [by apply Hagree0|].
        intros (d & Hk & Hd)%list_elem_of_fmap.
        destruct (Hdying d Hd) as [Hdv _]. apply Hagree0 in Hbv, Hdv.
        rewrite Hk in Hbv. congruence.
      * intros (n & Hk & Hn)%list_elem_of_fmap. by apply (Hapart b n).
    + intros Hlook.
      destruct (decide (blob_key b ∈ blob_key <$> newBlobs c)) as [Hk|Hk].
      * apply list_elem_of_fmap in Hk as (n & Hk & Hn).
        rewrite Hk, (Hmap_new n Hn) in Hlook. right. congruence.
      * rewrite (Hmap_old _ Hk) in Hlook. case_decide as Hd; [done|].
        left. split; [by apply Hagree0|].
        intros Hin. apply Hd. by apply list_elem_of_fmap_2.
  - intros k b Hlook.
    destruct (decide (k ∈ blob_key <$> newBlobs c)) as [Hk|Hk].
    + apply list_elem_of_fmap in Hk as (n & -> & Hn).
      rewrite (Hmap_new n Hn) in Hlook. congruence.
    + rewrite (Hmap_old _ Hk) in Hlook. case_decide; [done|].
      by apply Hkeyed0.
  - intros b. rewrite Hbb, elem_of_app, Hba. intros [[Hbv Hout]|Hn].
    + destruct (Hin0 b Hbv) as [Hscan Hone]. split; [done|].
      pose proof Hscan as [Hx Hy]%elem_of_scan_order.
      destruct (binary_cell N nxt (blob_x b) (blob_y b)) as [Hzero|?];
        [done..| |done].
      exfalso. by apply Hout, Hdies.
    + destruct (Hnew b Hn) as (Hscan & _ & Hone & _). done.
  - intros x y Hscan Hone.
    pose proof Hscan as [Hx Hy]%elem_of_scan_order.
    destruct (binary_cell N cur x y) as [Hzero|Hlive]; [done..| |].
    + destruct (Hnew' x y Hscan Hzero Hone) as (n & Hn & Hnx & Hny).
      exists n. split; [|done]. rewrite Hbb, elem_of_app. by right.
    + destruct (Hall0 x y Hscan Hlive) as (b & Hbv & Hbx & Hby).
      exists b. split; [|done]. rewrite Hbb, elem_of_app, Hba. left.
      split; [done|]. intros Hd. destruct (Hdying b Hd) as [_ Hzero].
      rewrite Hbx, Hby in Hzero. lia.
Qed.

(** The regroup step of a transition that was prepared from the grid the
    blobs stand for leaves the two structures in agreement, standing for
    the next grid, with the organisms computed from them. *)
Lemma regroup_keeps_agreement (game : GameOfLife.t) (N : Z)
    (cur nxt : list (list Z)) (v0 v1 v : t) (c : changes) :
  GameOfLife.size game = N ->
  square N cur -> square N nxt -> binary cur -> binary nxt ->
  isAnimating v0 = false ->
  consistent v0 -> blobs_of_cells cur (scan_order N) v0 ->
  prepareNextGeneration game cur nxt v0 = (Normal true, v1) ->
  pendingChanges v1 = Some c ->
  blobColors v = blobColors v0 -> blobs v = blobs v0 ->
  blobsMap v = blobsMap v0 ->
  exists v',
    regroup game c v = (Normal tt, v')
    /\ consistent v' /\ blobs_of_cells nxt (scan_order N) v'
    /\ up_to_date game v'.
Proof.
  intros Hsize Hcur Hnxt Hbc Hbn Hidle Hcons Hcells Hprep Hpending Hc Hb Hm.
  destruct (prepareNextGeneration_run game N cur nxt Hsize Hcur Hnxt v0 Hidle)
    as (c' & v1' & Hprep' & Hprepared).
  rewrite Hprep in Hprep'. injection Hprep' as ->.
  injection Hpending as <-.
  destruct (bookkeeping_follows_grid N cur nxt v0 v1' v c')
    as [Hcons' Hcells']; [done..|].
  set (va := foldl (fun v b => without_blob b v) v (blobsToRemove c')) in *.
  set (vb := foldl (fun v b => with_added_blob b v) va (newBlobs c')) in *.
  set (vi := set_organismGroups (groups (grouped game vb))
               (set_heap (fun _ => store (grouped game vb))
                  (set_organismGroups [] vb))).
  destruct (createMetaballOrganisms_books vi) as (vm & Hmeta & Hbooks).
  destruct (shown_blobs (newBlobs c') vm) as (_ & Hshown).
  set (vg := foldl (fun v b => shown b v) vm (newBlobs c')) in *.
  exists vg. split.
  { unfold regroup.
    rewrite (bind_run _ _ v va tt) by apply remove_dying_run.
    rewrite (bind_run _ _ va vb tt) by apply add_new_run.
    rewrite (bind_run _ _ vb vi tt) by apply identifyOrganismGroups_run.
    rewrite (bind_run _ _ vi vm tt) by done.
    apply start_grow_run. }
  injection Hshown as Hgc Hgb Hgm Hgg _ _ _.
  injection Hbooks as Hmc Hmb Hmm Hmg _ _ _ _.
  assert (blobs vg = blobs vb) as Hvb by (etrans; [exact Hgb|exact Hmb]).
  assert (blobsMap vg = blobsMap vb) as Hvm by (etrans; [exact Hgm|exact Hmm]).
  split_and!.
  - by apply (consistent_books vb).
  - unfold blobs_of_cells. by rewrite Hvb.
  - unfold up_to_date.
    assert (organismGroups vg = groups (grouped game vb)) as ->
      by (etrans; [exact Hgg|exact Hmg]).
    apply grouped_books; [|done..]. symmetry. etrans; [exact Hgc|exact Hmc].
Qed.

(** C10, at the failing input: the application is started with the
    configuration of the source on a vertical blinker, and the user
    clicks "Step Forward" while the first transition is animating. The
    click is rejected by the visualizer but [step] advances the grid all
    the same, so the next accepted transition is prepared from a grid the
    blobs do not stand for. When it has run to its end the visualizer is
    idle, the blob created for cell (1,2) by the first transition is
    still in [blobs], and [blobsMap] maps "1,2" to another blob: the two
    structures disagree. *)
Theorem stale_grid_breaks_agreement :
  exists app,
    after_step_during_animation = Some app
    /\ isAnimating (App.blobVisualizer app) = false
    /\ pendingChanges (App.blobVisualizer app) = None
    /\ chains (App.blobVisualizer app) = []
    /\ mk_blob 4 1 2 ∈ blobs (App.blobVisualizer app)
    /\ blobsMap (App.blobVisualizer app) !! blob_key (mk_blob 4 1 2)
       = Some (mk_blob 7 1 2)
    /\ ~ agree (App.blobVisualizer app).
Proof.
  eexists. split; [by vm_compute|].
  split; [by vm_compute|]. split; [by vm_compute|]. split; [by vm_compute|].
  assert (forall (l : list blob) b, bool_decide (b ∈ l) = true -> b ∈ l)
    as Hin by (intros l b; apply bool_decide_eq_true_1).
  split; [apply Hin; by vm_compute|].
  split; [by vm_compute|].
  intros Hagree. specialize (Hagree (mk_blob 4 1 2)).
  destruct Hagree as [Hto _].
  specialize (Hto ltac:(apply Hin; by vm_compute)).
  vm_compute in Hto. discriminate Hto.
Qed.

(** The same disagreement is reached through "Reset Game": [resetBlobs]
    clears the flags but not the promise chain of a transition in flight,
    whose callback then edits the bookkeeping of the new grid. The blob of
    the new grid at (2,1) stays in [blobs] while its key leaves
    [blobsMap]. *)
Example reset_during_animation_breaks_agreement :
  exists app,
    after_reset_during_animation = Some app
    /\ mk_blob 6 2 1 ∈ blobs (App.blobVisualizer app)
    /\ blobsMap (App.blobVisualizer app) !! blob_key (mk_blob 6 2 1) = None
    /\ ~ agree (App.blobVisualizer app).
Proof.
  eexists. split; [by vm_compute|].
  assert (forall (l : list blob) b, bool_decide (b ∈ l) = true -> b ∈ l)
    as Hin by (intros l b; apply bool_decide_eq_true_1).
  split; [apply Hin; by vm_compute|].
  split; [by vm_compute|].
  intros Hagree. specialize (Hagree (mk_blob 6 2 1)).
  destruct Hagree as [Hto _].
  specialize (Hto ltac:(apply Hin; by vm_compute)).
  vm_compute in Hto. discriminate Hto.
Qed.
End BookkeepingClaims.

Section TransitionClaims.
Import Js BlobVisualizer.

(** The blobs that [prepareNextGeneration] lists for removal are the
    blobs whose cell dies, when the bookkeeping stands for the current
    grid. *)
Lemma dying_blobs (N : Z) (cur nxt : list (list Z)) (v0 v1 : t) (c : changes) :
  consistent v0 -> blobs_of_cells cur (scan_order N) v0 ->
  prepared cur nxt v0 (scan_order N) c v1 ->
  forall b, b ∈ blobsToRemove c
            <-> b ∈ blobs v0 /\ cell nxt (blob_x b) (blob_y b) = 0.
Proof.
  intros (_ & Hagree & Hkeyed) [Hin _] (_ & _ & _ & _ & _ & _ & Hrem) b.
  rewrite Hrem. split.
  - intros (x & y & _ & _ & Hzero & Hmap).
    pose proof (Hkeyed _ _ Hmap) as Hk. apply key_inj in Hk as [-> ->].
    split; [|done]. by apply Hagree.
  - intros [Hb Hzero]. destruct (Hin b Hb) as [Hscan Hone].
    exists (blob_x b), (blob_y b). split_and!; [done..|]. by apply Hagree.
Qed.

(** The order of a generation transition that is prepared while the
    bookkeeping stands for the current grid [cur], as it does after
    construction, after a reset and after every transition of an
    application that steps only when nothing is animating. A blob is
    disappearing when its cell is 0 in the next grid; the appearing blobs
    are the new blobs made for the cells that go from 0 to 1.
    [prepareNextGeneration] creates the appearing blobs invisible. The
    first callback cannot run while the shrink tween of a disappearing
    blob is outstanding ([completed] are the tweens that are done); once
    the tweens of all disappearing blobs have completed (in any order,
    [tweens]) it runs: every disappearing blob has left [blobs] and
    [blobsMap], and every cell that appears has its new blob in both
    (state [vb], which stands for the next grid); only then does
    [identifyOrganismGroups] run, on that bookkeeping (state [vi]),
    followed by [createMetaballOrganisms] (state [vm]). In all states up
    to there every appearing blob is invisible; the grow step that
    follows makes them visible. *)
Theorem transition_regroups_before_growing (game : GameOfLife.t) (N : Z)
    (cur nxt : list (list Z)) (v0 : t) (tweens : list blob) :
  GameOfLife.size game = N -> square N cur -> square N nxt ->
  binary cur -> binary nxt ->
  isAnimating v0 = false ->
  consistent v0 -> blobs_of_cells cur (scan_order N) v0 ->
  (forall b, b ∈ blobs v0 -> cell nxt (blob_x b) (blob_y b) = 0 ->
             b ∈ tweens) ->
  exists c v1 v2 v3 va vb vi vm vg v4,
    prepareNextGeneration game cur nxt v0 = (Normal true, v1)
    /\ pendingChanges v1 = Some c
    /\ animateNextGeneration v1 = (Normal true, v2)
    /\ (forall completed b,
          b ∈ blobs v0 -> cell nxt (blob_x b) (blob_y b) = 0 ->
          b ∉ completed ->
          exists v',
            happen_all game
              (TweenComplete (length (chains v0)) <$> completed) v2
            = Some v'
            /\ happen game (Callback (length (chains v0))) v' = None)
    /\ happen_all game (TweenComplete (length (chains v0)) <$> tweens) v2
       = Some v3
    /\ remove_dying c v3 = (Normal tt, va)
    /\ add_new c va = (Normal tt, vb)
    /\ identifyOrganismGroups game vb = (Normal tt, vi)
    /\ createMetaballOrganisms vi = (Normal tt, vm)
    /\ start_grow c vm = (Normal tt, vg)
    /\ happen game (Callback (length (chains v0))) v3 = Some (Normal tt, v4)
    /\ v4 = set_chains
              (alter (fun _ => AwaitGrow (newBlobs c)) (length (chains v0)))
              vg
    /\ (forall b, b ∈ blobs v0 -> cell nxt (blob_x b) (blob_y b) = 0 ->
          (b ∉ blobs vb) /\ blobsMap vb !! blob_key b = None)
    /\ (forall x y, 0 <= x < N -> 0 <= y < N ->
          cell cur x y = 0 -> cell nxt x y = 1 ->
          exists b, blob_x b = x /\ blob_y b = y /\ (b ∉ blobs v0)
            /\ b ∈ blobs vb /\ blobsMap vb !! blob_key b = Some b
            /\ Forall (fun v => is_visible v b = Some false)
                 [v1; v2; v3; va; vb; vi; vm]
            /\ is_visible v4 b = Some true)
    /\ consistent vb /\ blobs_of_cells nxt (scan_order N) vb
    /\ blobs vi = blobs vb /\ blobsMap vi = blobsMap vb
    /\ up_to_date game vi
    /\ chains v4 = chains v0 ++ [AwaitGrow (newBlobs c)].
Proof.
  intros Hsize Hcur Hnxt Hbc Hbn Hidle Hcons Hcells Htweens.
  destruct (prepareNextGeneration_run game N cur nxt Hsize Hcur Hnxt v0 Hidle)
    as (c & v1' & Hprep & Hprepared).
  pose proof (dying_blobs N cur nxt v0 v1' c Hcons Hcells Hprepared) as Hdying.
  pose proof Hprepared as (Hb1 & Hm1 & Hu1 & Hnew & Hnew' & Hnd & _).
  destruct Hu1 as (_ & _ & _ & Ha1 & Hch1).
  set (v1 := set_pendingChanges (Some c) v1') in *.
  set (v2 := set_chains (fun cs => cs ++ [AwaitShrink (blobsToRemove c) c])
               (set_isAnimating true v1)).
  assert (chains v2 = chains v0 ++ [AwaitShrink (blobsToRemove c) c]) as Hch2
    by (unfold v2, v1; read_fields; by rewrite Hch1).
  set (v3 := set_chains (fun _ => chains v0 ++ [AwaitShrink [] c]) v2).
  destruct (bookkeeping_follows_grid N cur nxt v0 v1' v3 c)
    as [Hconsb Hcellsb]; [done..|].
  set (va := foldl (fun v b => without_blob b v) v3 (blobsToRemove c)) in *.
  set (vb := foldl (fun v b => with_added_blob b v) va (newBlobs c)) in *.
  set (vi := set_organismGroups (groups (grouped game vb))
               (set_heap (fun _ => store (grouped game vb))
                  (set_organismGroups [] vb))).
  destruct (createMetaballOrganisms_books vi) as (vm & Hmeta & Hbooks).
  set (vg := foldl (fun v b => shown b v) vm (newBlobs c)).
  destruct (without_blobs (blobsToRemove c) v3) as (Hba & Hma & _ & Hha & Hua).
  destruct (with_added_blobs (newBlobs c) va) as (Hbb & Hmb & Hmb' & Hhb & Hub).
  destruct (shown_blobs (newBlobs c) vm) as (Hshown & Hbg).
  fold va in Hba, Hma, Hha, Hua. fold vb in Hbb, Hmb, Hmb', Hhb, Hub.
  fold vg in Hshown, Hbg.
  assert (heap vb = heap v1') as Hheap by (by rewrite Hhb, Hha).
  assert (heap vm = heap vi) as Hhm by (by injection Hbooks).
  assert (forall b, b ∈ newBlobs c -> is_visible vi b = Some false) as Hvi.
  { intros b Hb. unfold is_visible, vi. read_fields. unfold grouped.
    rewrite grouping_visibility. cbn [store]. rewrite Hheap.
    destruct (Hnew b Hb) as (_ & _ & _ & -> & _). done. }
  exists c, v1, v2, v3, va, vb, vi, vm, vg,
    (set_chains (alter (fun _ => AwaitGrow (newBlobs c))
                   (length (chains v0))) vg).
  split_and!.
  - done.
  - done.
  - apply animateNextGeneration_run; [done|by rewrite <- Hidle, <- Ha1].
  - (* the callback waits for the shrink tweens *)
    intros completed b Hb Hzero Hout.
    rewrite (shrink_tweens_complete game completed (chains v0)
               (blobsToRemove c) c v2 Hch2).
    eexists. split; [done|]. unfold happen. cbn [chains set_chains].
    rewrite list_lookup_middle by done.
    assert (b ∈ list_difference (blobsToRemove c) completed) as Hin.
    { apply list_elem_of_difference. split; [by apply Hdying|done]. }
    destruct (list_difference (blobsToRemove c) completed);
      [by apply elem_of_nil in Hin|done].
  - rewrite (shrink_tweens_complete game tweens (chains v0)
               (blobsToRemove c) c v2 Hch2).
    rewrite list_difference_all; [done|].
    intros b [Hb Hzero]%Hdying. by apply Htweens.
  - apply remove_dying_run.
  - apply add_new_run.
  - apply identifyOrganismGroups_run.
  - done.
  - apply start_grow_run.
  - unfold happen.
    change (chains v3) with (chains v0 ++ [AwaitShrink [] c]).
    rewrite list_lookup_middle by done. f_equal.
    rewrite (bind_run _ _ v3 vg tt); [done|]. unfold regroup.
    rewrite (bind_run _ _ v3 va tt) by apply remove_dying_run.
    rewrite (bind_run _ _ va vb tt) by apply add_new_run.
    rewrite (bind_run _ _ vb vi tt) by apply identifyOrganismGroups_run.
    rewrite (bind_run _ _ vi vm tt) by done.
    apply start_grow_run.
  - done.
  - (* the disappearing blobs *)
    intros b Hb Hzero.
    assert (b ∉ blobs vb) as Hout.
    { intros Hin. destruct Hcellsb as [Hone _].
      destruct (Hone b Hin) as [_ Hcell]. lia. }
    split; [done|].
    destruct (blobsMap vb !! blob_key b) as [b'|] eqn:Hlook; [|done].
    exfalso. destruct Hconsb as (_ & Hagree & Hkeyed).
    pose proof (Hkeyed _ _ Hlook) as Hk. apply blob_key_inj in Hk.
    assert (b' ∈ blobs vb) as Hin.
    { apply Hagree. unfold blob_key in *.
      destruct Hk as [<- <-]. exact Hlook. }
    destruct Hcellsb as [Hone _]. destruct (Hone b' Hin) as [_ Hcell].
    destruct Hk as [Hx Hy]. rewrite <- Hx, <- Hy in Hcell. lia.
  - (* the appearing cells *)
    intros x y Hx Hy Hzero Hone.
    destruct (Hnew' x y) as (b & Hb & Hbx & Hby);
      [by apply elem_of_scan_order|done..|].
    exists b. split; [done|]. split; [done|].
    split.
    { intros Hin. destruct Hcells as [Hlive _].
      destruct (Hlive b Hin) as [_ Hcell]. rewrite Hbx, Hby in Hcell. lia. }
    split; [rewrite Hbb, elem_of_app; by right|].
    split; [by apply Hmb'|].
    assert (is_visible v1' b = Some false) as Hv1.
    { destruct (Hnew b Hb) as (_ & _ & _ & Hh & _).
      by apply hidden_invisible. }
    split.
    + repeat constructor; try exact Hv1.
      * unfold is_visible. by rewrite Hha.
      * unfold is_visible. by rewrite Hheap.
      * by apply Hvi.
      * unfold is_visible. rewrite Hhm. by apply Hvi.
    + unfold is_visible. read_fields.
      apply Hshown; [done|]. rewrite Hhm.
      pose proof (Hvi b Hb) as Hv. unfold is_visible in Hv.
      by destruct (heap vi !! handle b).
  - done.
  - done.
  - done.
  - done.
  - apply grouped_after_identify.
  - read_fields.
    assert (chains vg = chains v3) as ->.
    { injection Hbg as _ _ _ _ _ _ ->.
      injection Hbooks as _ _ _ _ _ _ _ ->. unfold vi. read_fields.
      destruct Hub as (_ & _ & _ & _ & ->).
      by destruct Hua as (_ & _ & _ & _ & ->). }
    change (chains v3) with (chains v0 ++ [AwaitShrink [] c]).
    replace (length (chains v0)) with (length (chains v0) + 0)%nat by lia.
    by rewrite alter_app_r.
Qed.

Lemma transition_regroups_before_growing_witness :
  exists c v1 v2 v3 va vb vi vm vg v4,
    prepareNextGeneration blinker_start (GameOfLife.grid blinker_start)
      horizontal_grid blinker_view = (Normal true, v1)
    /\ pendingChanges v1 = Some c
    /\ animateNextGeneration v1 = (Normal true, v2)
    /\ (forall completed b,
          b ∈ blobs blinker_view ->
          cell horizontal_grid (blob_x b) (blob_y b) = 0 ->
          b ∉ completed ->
          exists v',
            happen_all blinker_start
              (TweenComplete (length (chains blinker_view)) <$> completed) v2
            = Some v'
            /\ happen blinker_start
                 (Callback (length (chains blinker_view))) v' = None)
    /\ happen_all blinker_start
         (TweenComplete (length (chains blinker_view)) <$> dying) v2
       = Some v3
    /\ remove_dying c v3 = (Normal tt, va)
    /\ add_new c va = (Normal tt, vb)
    /\ identifyOrganismGroups blinker_start vb = (Normal tt, vi)
    /\ createMetaballOrganisms vi = (Normal tt, vm)
    /\ start_grow c vm = (Normal tt, vg)
    /\ happen blinker_start (Callback (length (chains blinker_view))) v3
       = Some (Normal tt, v4)
    /\ v4 = set_chains
              (alter (fun _ => AwaitGrow (newBlobs c))
                 (length (chains blinker_view)))
              vg
    /\ (forall b, b ∈ blobs blinker_view ->
          cell horizontal_grid (blob_x b) (blob_y b) = 0 ->
          (b ∉ blobs vb) /\ blobsMap vb !! blob_key b = None)
    /\ (forall x y, 0 <= x < 5 -> 0 <= y < 5 ->
          cell (GameOfLife.grid blinker_start) x y = 0 ->
          cell horizontal_grid x y = 1 ->
          exists b, blob_x b = x /\ blob_y b = y /\ (b ∉ blobs blinker_view)
            /\ b ∈ blobs vb /\ blobsMap vb !! blob_key b = Some b
            /\ Forall (fun v => is_visible v b = Some false)
                 [v1; v2; v3; va; vb; vi; vm]
            /\ is_visible v4 b = Some true)
    /\ consistent vb /\ blobs_of_cells horizontal_grid (scan_order 5) vb
    /\ blobs vi = blobs vb /\ blobsMap vi = blobsMap vb
    /\ up_to_date blinker_start vi
    /\ chains v4 = chains blinker_view ++ [AwaitGrow (newBlobs c)].
Proof.
  destruct (createBlobs_run blinker_start 5 (initial palette) eq_refl
              blinker_start_square)
    as (v & Hrun & Hcons & Hcells & _).
  assert (blinker_view = v) as Hview.
  { unfold blinker_view, constructor. by rewrite Hrun. }
  apply (transition_regroups_before_growing blinker_start 5
           (GameOfLife.grid blinker_start) horizontal_grid blinker_view
           dying).
  - reflexivity.
  - exact blinker_start_square.
  - exact horizontal_square.
  - decide_by_computation.
  - decide_by_computation.
  - by vm_compute.
  - by rewrite Hview.
  - by rewrite Hview.
  - assert (blobs blinker_view = [mk_blob 0 2 1; mk_blob 1 2 2; mk_blob 2 2 3])
      as -> by (by vm_compute).
    intros b Hb Hzero. unfold dying.
    apply elem_of_cons in Hb as [->|Hb]; [left|].
    apply elem_of_cons in Hb as [->|Hb]; [by vm_compute in Hzero|].
    apply list_elem_of_singleton in Hb as ->. right. left.
Defined.

(** C4, at the failing input: the application is started with the
    configuration of the source on a vertical blinker, the user clicks
    "Step Forward" while the first transition is animating, and the timer
    steps twice more. In the last of these transitions the cells (1,2) and
    (3,2) die. When its shrink tweens have completed and the first
    callback runs, the removals and additions leave the blobs 4 and 5,
    which stand at these two cells, in [blobs]: [blobsMap] held other
    blobs under their keys, and only those were listed for removal.
    [identifyOrganismGroups] then runs on bookkeeping that still holds
    two disappearing blobs, and makes each an organism of its own. *)
Theorem stale_transition_keeps_dying_blobs :
  exists app c va vb vi,
    before_stale_regroup = Some app
    /\ isAnimating (App.blobVisualizer app) = true
    /\ chains (App.blobVisualizer app) = [AwaitShrink [] c]
    /\ disappearingCells c = [(1, 2); (3, 2)]
    /\ blobsToRemove c = [mk_blob 7 1 2; mk_blob 8 3 2]
    /\ cell (GameOfLife.grid (App.game app)) 1 2 = 0
    /\ cell (GameOfLife.grid (App.game app)) 3 2 = 0
    /\ remove_dying c (App.blobVisualizer app) = (Normal tt, va)
    /\ add_new c va = (Normal tt, vb)
    /\ identifyOrganismGroups (App.game app) vb = (Normal tt, vi)
    /\ mk_blob 4 1 2 ∈ blobs vb
    /\ mk_blob 5 3 2 ∈ blobs vb
    /\ members <$> organismGroups vi
       = [ [mk_blob 1 2 2; mk_blob 10 2 1; mk_blob 11 2 3];
           [mk_blob 4 1 2];
           [mk_blob 5 3 2] ].
Proof.
  assert (forall (l : list blob) b, bool_decide (b ∈ l) = true -> b ∈ l)
    as Hin by (intros l b; apply bool_decide_eq_true_1).
  eexists _, _, _, _, _. split; [by vm_compute|].
  split; [by vm_compute|]. split; [by vm_compute|].
  split; [by vm_compute|]. split; [by vm_compute|].
  split; [by vm_compute|]. split; [by vm_compute|].
  split; [apply remove_dying_run|]. split; [apply add_new_run|].
  split; [apply identifyOrganismGroups_run|].
  split; [apply Hin; by vm_compute|].
  split; [apply Hin; by vm_compute|].
  by vm_compute.
Qed.
End TransitionClaims.

Section AutomatonFacts.
Import Js GameOfLife.

Lemma tabulate_ext (N : Z) (f g : Z -> Z -> Z) :
  (forall x y, 0 <= x < N -> 0 <= y < N -> f x y = g x y) ->
  (fun y => (fun x => f x y) <$> range N) <$> range N
  = (fun y => (fun x => g x y) <$> range N) <$> range N.
Proof.
  intros Hfg. apply list_fmap_ext. intros i y Hy.
  apply list_elem_of_lookup_2, elem_of_range in Hy.
  apply list_fmap_ext. intros j x Hx.
  apply list_elem_of_lookup_2, elem_of_range in Hx. by apply Hfg.
Qed.

Lemma filter_ext_in {A} (P Q : A -> Prop) `{!forall x, Decision (P x)}
    `{!forall x, Decision (Q x)} (l : list A) :
  (forall x, x ∈ l -> P x <-> Q x) -> filter P l = filter Q l.
Proof.
  induction l as [|a l IH]; intros Hpq; [done|].
  rewrite !filter_cons.
  destruct (decide (P a)) as [Ha|Ha], (decide (Q a)) as [Ha'|Ha'].
  - f_equal. apply IH. intros x Hx. apply Hpq. by right.
  - exfalso. apply Ha'. apply Hpq; [left|done].
  - exfalso. apply Ha. apply Hpq; [left|done].
  - apply IH. intros x Hx. apply Hpq. by right.
Qed.

Lemma live_neighbours_ext (N : Z) (g g' : list (list Z)) (x y x' y' : Z) :
  (forall d, d ∈ neighbours8 ->
     cell g ((x + d.1) mod N) ((y + d.2) mod N)
     = cell g' ((x' + d.1) mod N) ((y' + d.2) mod N)) ->
  live_neighbours N g x y = live_neighbours N g' x' y'.
Proof.
  intros H. unfold live_neighbours. do 2 f_equal.
  apply filter_ext_in. intros d Hd. by rewrite (H d Hd).
Qed.

Lemma neighbours8_small (d : Z * Z) :
  d ∈ neighbours8 -> -1 <= d.1 <= 1 /\ -1 <= d.2 <= 1 /\ (d.1 <> 0 \/ d.2 <> 0).
Proof.
  unfold neighbours8. rewrite !elem_of_cons, elem_of_nil. intros H.
  repeat destruct H as [H|H]; try done; subst; cbn; lia.
Qed.

Lemma mod_step_ne (N x d : Z) :
  2 <= N -> 0 <= x < N -> -1 <= d <= 1 -> d <> 0 -> (x + d) mod N <> x.
Proof.
  intros HN Hx Hd Hd0.
  destruct (decide (x + d = N)) as [Htop|].
  { rewrite Htop, Z_mod_same_full. lia. }
  destruct (decide (x + d = -1)) as [Hbot|].
  { rewrite Hbot. change (-1) with (- (1)).
    rewrite Z_mod_nz_opp_full; rewrite Z.mod_small by lia; lia. }
  rewrite Z.mod_small by lia. lia.
Qed.

(** [countNeighbors] returns a count between 0 and 8. *)
Theorem countNeighbors_range (this : t) (x y : Z) :
  square (size this) (grid this) -> binary (grid this) ->
  0 <= x < size this -> 0 <= y < size this ->
  exists n, countNeighbors x y this = (Normal (Int n), this) /\ 0 <= n <= 8.
Proof.
  intros Hsq Hbin Hx Hy. eexists. split.
  - by apply (countNeighbors_inside this (size this)).
  - apply live_neighbours_bound.
Qed.

Lemma countNeighbors_range_witness :
  exists n, countNeighbors 2 2 blinker_game = (Normal (Int n), blinker_game)
            /\ 0 <= n <= 8.
Proof.
  apply (countNeighbors_range blinker_game 2 2).
  - split; [reflexivity|]. decide_by_computation.
  - decide_by_computation.
  - by vm_compute.
  - by vm_compute.
Defined.

(** On a grid of side 2 or more the count at a cell does not depend on
    the cell itself: two grids that differ at most there give the same
    count. On a 1x1 grid all eight neighbours are the cell itself. *)
Theorem countNeighbors_skips_self :
  (forall (this other : t) (x y : Z),
      2 <= size this -> size other = size this ->
      square (size this) (grid this) -> binary (grid this) ->
      square (size this) (grid other) -> binary (grid other) ->
      0 <= x < size this -> 0 <= y < size this ->
      (forall x' y', 0 <= x' < size this -> 0 <= y' < size this ->
         (x', y') <> (x, y) ->
         cell (grid other) x' y' = cell (grid this) x' y') ->
      (countNeighbors x y other).1 = (countNeighbors x y this).1)
  /\ (forall (d : Q) (c : Z), c = 0 \/ c = 1 ->
        countNeighbors 0 0 (mk 1 d [ [c] ])
        = (Normal (Int (8 * c)), mk 1 d [ [c] ])).
Proof.
  split.
  - intros this other x y HN Hsize Hsq Hbin Hsq' Hbin' Hx Hy Hsame.
    rewrite (countNeighbors_inside this (size this)) by done.
    rewrite (countNeighbors_inside other (size this)) by done.
    cbn [fst]. do 2 f_equal. apply live_neighbours_ext. intros d Hd.
    apply neighbours8_small in Hd as (Hd1 & Hd2 & Hne).
    apply Hsame; [apply Z.mod_pos_bound; lia..|].
    intros [= H1 H2]. destruct Hne as [Hne|Hne].
    + by apply (mod_step_ne (size this) x d.1).
    + by apply (mod_step_ne (size this) y d.2).
  - intros d c [-> | ->]; reflexivity.
Qed.

Lemma countNeighbors_skips_self_witness :
  (countNeighbors 2 2 (set_grid (grid_of 5 [(1, 2); (3, 2)]) blinker_game)).1
  = (countNeighbors 2 2 blinker_game).1.
Proof.
  apply (proj1 countNeighbors_skips_self blinker_game
           (set_grid (grid_of 5 [(1, 2); (3, 2)]) blinker_game) 2 2).
  - by vm_compute.
  - reflexivity.
  - split; [reflexivity|]. decide_by_computation.
  - decide_by_computation.
  - split; [reflexivity|]. decide_by_computation.
  - decide_by_computation.
  - by vm_compute.
  - by vm_compute.
  - intros x' y' Hx Hy Hne. change (size blinker_game) with 5 in Hx, Hy.
    assert (x' = 0 \/ x' = 1 \/ x' = 2 \/ x' = 3 \/ x' = 4) as Hx' by lia.
    assert (y' = 0 \/ y' = 1 \/ y' = 2 \/ y' = 3 \/ y' = 4) as Hy' by lia.
    destruct Hx' as [->|[->|[->|[->| ->]]]];
      destruct Hy' as [->|[->|[->|[->| ->]]]];
      try reflexivity; by destruct Hne.
Defined.

Lemma cell_uniform (N c x y : Z) :
  0 <= x < N -> 0 <= y < N -> cell (uniform N c) x y = c.
Proof.
  intros Hx Hy. unfold cell, uniform.
  rewrite lookup_replicate_2 by lia. cbn.
  by rewrite lookup_replicate_2 by lia.
Qed.

Lemma square_uniform (N c : Z) : square N (uniform N c).
Proof.
  split; [apply length_replicate|].
  apply Forall_replicate, length_replicate.
Qed.

Lemma binary_uniform (N c : Z) : c = 0 \/ c = 1 -> binary (uniform N c).
Proof. intros Hc. by apply Forall_replicate, Forall_replicate. Qed.

Lemma tabulate_uniform (N c : Z) :
  (fun y => (fun x => c) <$> range N) <$> range N = uniform N c.
Proof.
  unfold uniform. rewrite <- (range_length N).
  apply const_fmap. intros _ y _. by apply const_fmap.
Qed.

Lemma live_neighbours_uniform (N c x y : Z) :
  1 <= N -> live_neighbours N (uniform N c) x y = if decide (c = 1) then 8 else 0.
Proof.
  intros HN. unfold live_neighbours.
  case_decide as Hc.
  - rewrite (filter_ext_in _ (fun _ => True)); [done|].
    intros d _. rewrite cell_uniform by (apply Z.mod_pos_bound; lia). done.
  - rewrite (filter_ext_in _ (fun _ => False)); [done|].
    intros d _. rewrite cell_uniform by (apply Z.mod_pos_bound; lia). done.
Qed.

(** A grid whose cells are all dead, or all alive, is followed by the
    grid whose cells are all dead: nothing is born without neighbours,
    and a cell with eight live neighbours dies. *)
Theorem computeNextGeneration_uniform (this : t) (c : Z) :
  1 <= size this -> c = 0 \/ c = 1 ->
  grid this = uniform (size this) c ->
  computeNextGeneration this = (Normal (uniform (size this) 0), this).
Proof.
  intros HN Hc Hg.
  rewrite (computeNextGeneration_run this (size this));
    [|done|rewrite Hg; apply square_uniform
     |rewrite Hg; by apply binary_uniform].
  do 2 f_equal. rewrite <- tabulate_uniform. apply tabulate_ext.
  intros x y Hx Hy. unfold next_cell.
  rewrite Hg, live_neighbours_uniform, cell_uniform by done.
  destruct Hc as [-> | ->]; reflexivity.
Qed.

Lemma computeNextGeneration_uniform_witness :
  computeNextGeneration (mk 3 (3 # 10) (uniform 3 1))
  = (Normal (uniform 3 0), mk 3 (3 # 10) (uniform 3 1)).
Proof.
  apply (computeNextGeneration_uniform (mk 3 (3 # 10) (uniform 3 1)) 1).
  - by vm_compute.
  - by right.
  - reflexivity.
Defined.

Lemma square_shift (N a b : Z) (g : list (list Z)) : square N (shift N a b g).
Proof. apply square_tabulate. Qed.

Lemma cell_shift (N a b : Z) (g : list (list Z)) (x y : Z) :
  0 <= x < N -> 0 <= y < N ->
  cell (shift N a b g) x y = cell g ((x - a) mod N) ((y - b) mod N).
Proof.
  intros Hx Hy. unfold shift.
  by rewrite (cell_tabulate N
    (fun x y => cell g ((x - a) mod N) ((y - b) mod N))).
Qed.

Lemma binary_shift (N a b : Z) (g : list (list Z)) :
  1 <= N -> square N g -> binary g -> binary (shift N a b g).
Proof.
  intros HN Hsq Hbin. unfold shift.
  apply (binary_tabulate N
    (fun x y => cell g ((x - a) mod N) ((y - b) mod N))).
  intros x y. apply (binary_cell N); [done..|apply Z.mod_pos_bound; lia
                                     |apply Z.mod_pos_bound; lia].
Qed.

Lemma shift_mod (N x d a : Z) :
  1 <= N -> ((x + d) mod N - a) mod N = ((x - a) mod N + d) mod N.
Proof.
  intros HN. rewrite Zminus_mod_idemp_l, Zplus_mod_idemp_l.
  f_equal. lia.
Qed.

Lemma next_cell_shift (N a b : Z) (g : list (list Z)) (x y : Z) :
  1 <= N -> 0 <= x < N -> 0 <= y < N ->
  next_cell N (shift N a b g) x y
  = next_cell N g ((x - a) mod N) ((y - b) mod N).
Proof.
  intros HN Hx Hy. unfold next_cell. rewrite cell_shift by done.
  rewrite (live_neighbours_ext N (shift N a b g) g x y
             ((x - a) mod N) ((y - b) mod N)); [done|].
  intros d _. rewrite cell_shift by (apply Z.mod_pos_bound; lia).
  by rewrite !shift_mod.
Qed.

(** The rule is the same everywhere on the torus: moving the grid by
    [a] columns and [b] rows and then computing the next generation
    gives the next generation moved the same way. *)
Theorem computeNextGeneration_shift (this : t) (a b : Z) :
  1 <= size this -> square (size this) (grid this) -> binary (grid this) ->
  exists next,
    computeNextGeneration this = (Normal next, this)
    /\ computeNextGeneration (set_grid (shift (size this) a b (grid this)) this)
       = (Normal (shift (size this) a b next),
          set_grid (shift (size this) a b (grid this)) this).
Proof.
  intros HN Hsq Hbin. eexists. split.
  { by apply (computeNextGeneration_run this (size this)). }
  rewrite (computeNextGeneration_run _ (size this));
    [|done|apply square_shift|by apply binary_shift].
  do 2 f_equal. cbn [grid set_grid]. unfold shift at 2.
  apply tabulate_ext. intros x y Hx Hy.
  rewrite next_cell_shift by done.
  by rewrite (cell_tabulate (size this) (next_cell (size this) (grid this)))
    by (apply Z.mod_pos_bound; lia).
Qed.

Lemma computeNextGeneration_shift_witness :
  exists next,
    computeNextGeneration blinker_game = (Normal next, blinker_game)
    /\ computeNextGeneration (set_grid (shift 5 3 4 (grid blinker_game))
                                blinker_game)
       = (Normal (shift 5 3 4 next),
          set_grid (shift 5 3 4 (grid blinker_game)) blinker_game).
Proof.
  apply (computeNextGeneration_shift blinker_game 3 4).
  - by vm_compute.
  - split; [reflexivity|]. decide_by_computation.
  - decide_by_computation.
Defined.
End AutomatonFacts.

Section ResetFacts.
Import Js GameOfLife.

Lemma reset_row_lookup (random : nat -> Q) (d : Q) (n k i : nat) :
  (i < n)%nat ->
  reset_row random d n k !! i = Some (random_cell (random (k + i)%nat) d).
Proof.
  revert k i. induction n as [|n IH]; intros k i Hi; [lia|].
  destruct i as [|i]; cbn.
  - by rewrite Nat.add_0_r.
  - rewrite IH by lia. do 3 f_equal. lia.
Qed.

Lemma reset_rows_lookup (random : nat -> Q) (d : Q) (n rows k r : nat) :
  (r < rows)%nat ->
  reset_rows random d n rows k !! r
  = Some (reset_row random d n (k + r * n)%nat).
Proof.
  revert k r. induction rows as [|rows IH]; intros k r Hr; [lia|].
  destruct r as [|r]; cbn.
  - by rewrite Nat.add_0_r.
  - rewrite IH by lia. do 2 f_equal. lia.
Qed.

Lemma reset_cell (random : nat -> Q) (d : Q) (N x y : Z) :
  0 <= x < N -> 0 <= y < N ->
  cell (reset_rows random d (Z.to_nat N) (Z.to_nat N) 0) x y
  = random_cell (random (Z.to_nat (y * N + x))) d.
Proof.
  intros Hx Hy. unfold cell.
  rewrite reset_rows_lookup by lia. cbn.
  rewrite reset_row_lookup by lia. cbn. do 2 f_equal.
  rewrite Z2Nat.inj_add, Z2Nat.inj_mul by nia. lia.
Qed.

Lemma random_cell_alive (r d : Q) : random_cell r d = 1 <-> (r < d)%Q.
Proof.
  unfold random_cell. destruct (Qle_bool d r) eqn:Hle.
  - apply Qle_bool_iff in Hle. split; [done|].
    intros Hlt. by apply Qlt_not_le in Hlt.
  - split; [|done]. intros _. apply Qnot_le_lt. intros Hle'.
    apply Qle_bool_iff in Hle'. congruence.
Qed.

Lemma random_cell_dead (r d : Q) : random_cell r d = 0 <-> (d <= r)%Q.
Proof.
  unfold random_cell. destruct (Qle_bool d r) eqn:Hle.
  - apply Qle_bool_iff in Hle. by split.
  - split; [done|]. intros Hle'. apply Qle_bool_iff in Hle'. congruence.
Qed.

(** [reset] fills the grid row by row: the cell in column [x] of row [y]
    is decided by the draw number [y * size + x], and is alive exactly
    when that draw is below the density. The density of the call replaces
    the stored one for this call only. *)
Theorem reset_draw_order (random : nat -> Q) (density : option Q) (this : t) :
  exists g,
    reset random density this = (Normal tt, set_grid g this)
    /\ forall x y, 0 <= x < size this -> 0 <= y < size this ->
         (cell g x y = 1
          <-> (random (Z.to_nat (y * size this + x))
               < default (initialDensity this) density)%Q)
         /\ (cell g x y = 0
             <-> (default (initialDensity this) density
                  <= random (Z.to_nat (y * size this + x)))%Q).
Proof.
  eexists. split; [apply reset_run|].
  intros x y Hx Hy. rewrite reset_cell by done.
  split; [apply random_cell_alive|apply random_cell_dead].
Qed.

(** With draws in [0, 1), as [Math.random()] gives them, a density of 0
    or less leaves every cell dead and a density of 1 or more makes every
    cell alive. *)
Theorem reset_density_extremes (random : nat -> Q) (density : option Q)
    (this : t) :
  (forall i, 0 <= random i < 1)%Q ->
  exists g,
    reset random density this = (Normal tt, set_grid g this)
    /\ ((default (initialDensity this) density <= 0)%Q ->
        forall x y, 0 <= x < size this -> 0 <= y < size this ->
          cell g x y = 0)
    /\ ((1 <= default (initialDensity this) density)%Q ->
        forall x y, 0 <= x < size this -> 0 <= y < size this ->
          cell g x y = 1).
Proof.
  intros Hrandom. eexists. split; [apply reset_run|]. split.
  - intros Hd x y Hx Hy. rewrite reset_cell by done.
    apply random_cell_dead. eapply Qle_trans; [exact Hd|]. apply Hrandom.
  - intros Hd x y Hx Hy. rewrite reset_cell by done.
    apply random_cell_alive. eapply Qlt_le_trans; [|exact Hd]. apply Hrandom.
Qed.

Lemma reset_density_extremes_witness :
  exists g,
    reset (fun _ => 1 # 2) (Some 1%Q) (mk 2 (3 # 10) [])
      = (Normal tt, set_grid g (mk 2 (3 # 10) []))
    /\ ((1 <= 0)%Q ->
        forall x y, 0 <= x < 2 -> 0 <= y < 2 -> cell g x y = 0)
    /\ ((1 <= 1)%Q ->
        forall x y, 0 <= x < 2 -> 0 <= y < 2 -> cell g x y = 1).
Proof.
  apply (reset_density_extremes (fun _ => 1 # 2) (Some 1%Q)
           (mk 2 (3 # 10) [])).
  intros i. split; by vm_compute.
Defined.

Lemma getCell_no_rows (this : t) (x y : Z) :
  grid this = [] -> getCell x y this = (Throw TypeError, this).
Proof.
  intros Hg. unfold getCell, bind, get, read2. rewrite Hg.
  destruct (rem (y + size this) (size this)) as [|z]; [done|].
  cbn. by destruct (z <? 0).
Qed.

(** A game built with a size of 0 or less has no rows:
    [computeNextGeneration] and [getChangedCells] return the empty list,
    while [getCell] and [countNeighbors] fail with a TypeError at every
    coordinate. *)
Theorem degenerate_size (random : nat -> Q) (n : Z) (density : Q) :
  n <= 0 ->
  let this := (constructor random (Some n) (Some density)).2 in
  this = mk n density []
  /\ computeNextGeneration this = (Normal [], this)
  /\ (forall old new, getChangedCells old new this = (Normal [], this))
  /\ (forall x y, getCell x y this = (Throw TypeError, this))
  /\ (forall x y, countNeighbors x y this = (Throw TypeError, this)).
Proof.
  intros Hn. cbv zeta.
  assert (Z.to_nat n = 0%nat) as Hz by lia.
  assert ((constructor random (Some n) (Some density)).2 = mk n density [])
    as ->.
  { unfold constructor. rewrite reset_run. simpl. by rewrite Hz. }
  assert (range n = []) as Hrange.
  { unfold range, seqZ. by rewrite Hz. }
  split_and!.
  - done.
  - unfold computeNextGeneration, bind, get. cbn [size]. by rewrite Hrange.
  - intros old new. unfold getChangedCells, bind, get. cbn [size].
    by rewrite Hrange.
  - intros x y. by apply getCell_no_rows.
  - intros x y. unfold countNeighbors. rewrite offsets_eq.
    unfold neighbours8. cbn [foldM]. unfold bind at 1. unfold bind at 1.
    by rewrite getCell_no_rows.
Qed.

Lemma degenerate_size_witness :
  let this := (constructor (fun _ => 0%Q) (Some 0) (Some (3 # 10)%Q)).2 in
  this = mk 0 (3 # 10) []
  /\ computeNextGeneration this = (Normal [], this)
  /\ (forall old new, getChangedCells old new this = (Normal [], this))
  /\ (forall x y, getCell x y this = (Throw TypeError, this))
  /\ (forall x y, countNeighbors x y this = (Throw TypeError, this)).
Proof.
  apply (degenerate_size (fun _ => 0%Q) 0 (3 # 10)). lia.
Defined.
End ResetFacts.

Section DiffErrors.
Import Js GameOfLife.
Context {S : Type}.

(** A loop whose body throws at an element, after a prefix on which it
    completes normally without writing, throws there. *)
Lemma foldM_throws {A B} (f : B -> A -> M S B) (l1 l2 : list A) (a : A)
    (b : B) (s : S) (e : error) :
  (forall b a', a' ∈ l1 -> exists b', f b a' s = (Normal b', s)) ->
  (forall b, f b a s = (Throw e, s)) ->
  foldM f b (l1 ++ a :: l2) s = (Throw e, s).
Proof.
  intros Hpre Hthrow. revert b.
  induction l1 as [|a' l1 IH]; intros b.
  - cbn [app foldM]. unfold bind. by rewrite Hthrow.
  - cbn [app foldM]. unfold bind.
    destruct (Hpre b a' ltac:(left)) as [b' ->].
    apply IH. intros b0 a0 Ha0. apply Hpre. by right.
Qed.

Lemma foldM_reads {A B} (f : B -> A -> M S B) (l : list A) (b : B) (s : S) :
  (forall b a, a ∈ l -> exists b', f b a s = (Normal b', s)) ->
  exists b', foldM f b l s = (Normal b', s).
Proof.
  revert b. induction l as [|a l IH]; intros b Hf.
  - by exists b.
  - cbn [foldM]. unfold bind.
    destruct (Hf b a ltac:(left)) as [b' ->].
    apply IH. intros b0 a0 Ha0. apply Hf. by right.
Qed.
End DiffErrors.

Section DiffErrorClaims.
Import Js GameOfLife.

Lemma read2_row {S} (g : list (list Z)) (y x : Z) (s : S) :
  0 <= y -> (Z.to_nat y < length g)%nat ->
  exists v, read2 g (Int y) (Int x) s = (Normal v, s).
Proof.
  intros Hy Hlen. unfold read2, index.
  destruct (Z.ltb_spec y 0); [lia|].
  destruct (lookup_lt_is_Some_2 g (Z.to_nat y) Hlen) as [row ->].
  by eexists.
Qed.

Lemma read2_no_row {S} (g : list (list Z)) (y x : Z) (s : S) :
  (length g <= Z.to_nat y)%nat ->
  read2 g (Int y) (Int x) s = (Throw TypeError, s).
Proof.
  intros Hlen. unfold read2, index.
  destruct (Z.ltb_spec y 0); [done|].
  by rewrite lookup_ge_None_2.
Qed.

(** When one of the two grids has fewer rows than the automaton's size,
    [getChangedCells] fails with a TypeError, whatever the lengths of
    the rows that are there. *)
Theorem getChangedCells_missing_row (this : t) (old new : list (list Z)) :
  (length old < Z.to_nat (size this)
   \/ length new < Z.to_nat (size this))%nat ->
  getChangedCells old new this = (Throw TypeError, this).
Proof.
  intros Hshort. unfold getChangedCells, bind at 1, get.
  set (N := size this) in *.
  set (k := Z.of_nat (length old `min` length new)).
  assert (0 <= k < N) as Hk by lia.
  match goal with |- foldM ?f _ _ _ = _ => set (body := f) end.
  assert (range N = range k ++ k :: seqZ (k + 1) (N - k - 1)) as ->.
  { unfold range. replace N with (k + (1 + (N - k - 1))) at 1 by lia.
    rewrite seqZ_app by lia. f_equal. rewrite seqZ_cons by lia.
    rewrite Z.add_0_l.
    replace (Z.succ k) with (k + 1) by lia.
    by replace (Z.pred (1 + (N - k - 1))) with (N - k - 1) by lia. }
  assert (range N = 0 :: seqZ 1 (N - 1)) as Hcols.
  { unfold range. rewrite seqZ_cons by lia.
    by replace (Z.pred N) with (N - 1) by lia. }
  apply foldM_throws; subst body; cbn beta.
  - intros acc y Hy. apply elem_of_range in Hy.
    apply foldM_reads. intros acc' x _. unfold bind.
    destruct (read2_row old y x this) as [o ->]; [lia..|].
    destruct (read2_row new y x this) as [n Hn]; [lia..|].
    rewrite Hn. destruct (negb (strict_eq o n)); [|by eexists].
    rewrite Hn. by eexists.
  - intros acc. rewrite Hcols. cbn [foldM]. unfold bind at 1. unfold bind at 1.
    destruct (decide (length old <= length new)%nat).
    + by rewrite read2_no_row by lia.
    + destruct (read2_row old k 0 this) as [o ->]; [lia..|].
      unfold bind at 1. by rewrite read2_no_row by lia.
Qed.

Lemma getChangedCells_missing_row_witness :
  getChangedCells [ [1; 0; 0] ] centre_grid corner_game
  = (Throw TypeError, corner_game).
Proof.
  apply (getChangedCells_missing_row corner_game [ [1; 0; 0] ] centre_grid).
  left. vm_compute. lia.
Defined.
End DiffErrorClaims.

Section ClassifyFacts.
Import Js BlobVisualizer.

Lemma filter_snoc {A} (P : A -> Prop) `{!forall x, Decision (P x)}
    (l : list A) (a : A) :
  filter P (l ++ [a]) = filter P l ++ (if decide (P a) then [a] else []).
Proof. rewrite filter_app, filter_cons, filter_nil. by case_decide. Qed.

Lemma omap_snoc {A B} (f : A -> option B) (l : list A) (a : A) :
  omap f (l ++ [a])
  = omap f l ++ match f a with Some b => [b] | None => [] end.
Proof. rewrite omap_app. cbn. by destruct (f a). Qed.

Lemma classified_step (N : Z) (cur nxt : list (list Z)) (v0 : t)
    (visited : list (Z * Z)) (c : changes) (x y : Z) (v : t) :
  square N cur -> square N nxt ->
  (y, x) ∉ visited -> 0 <= x < N -> 0 <= y < N ->
  prepared cur nxt v0 visited c v -> classified cur nxt v0 visited c v ->
  exists c' v',
    prepare_cell cur nxt c y x v = (Normal c', v')
    /\ prepared cur nxt v0 (visited ++ [(y, x)]) c' v'
    /\ classified cur nxt v0 (visited ++ [(y, x)]) c' v'.
Proof.
  intros Hcur Hnxt Hfresh Hx Hy Hprep (Ha & Hd & Hp & Hn & Hr & Hmm).
  destruct (prepared_step N cur nxt v0 Hcur Hnxt visited c x y v
              Hfresh Hx Hy Hprep) as (c' & v' & Hrun & Hprep').
  exists c', v'. split; [done|]. split; [done|].
  rewrite (prepare_cell_run N cur nxt Hcur Hnxt) in Hrun by done.
  pose proof Hprep as (_ & Hmap & _).
  unfold classified. cbv zeta. rewrite !filter_snoc, !fmap_app.
  cbn [fst snd].
  rewrite <- Ha, <- Hd, <- Hp.
  destruct (decide (cell cur x y = 0 /\ cell nxt x y = 1)) as [H01|H01].
  { injection Hrun as <- <-.
    rewrite (decide_False (P := cell cur x y = 1 /\ cell nxt x y = 0)) by lia.
    rewrite (decide_False (P := cell cur x y = 1 /\ cell nxt x y = 1)) by lia.
    cbn [appearingCells disappearingCells persistentCells newBlobs
         blobsToRemove fmap list_fmap].
    rewrite !app_nil_r, fmap_app, Hn. by split_and!. }
  destruct (decide (cell cur x y = 1 /\ cell nxt x y = 0)) as [H10|H10].
  { injection Hrun as <- <-.
    rewrite (decide_False (P := cell cur x y = 1 /\ cell nxt x y = 1)) by lia.
    cbn [appearingCells disappearingCells persistentCells newBlobs
         blobsToRemove fmap list_fmap].
    rewrite !app_nil_r. split_and!; try done.
    rewrite omap_snoc. cbn [fst snd]. rewrite Hmap, Hr.
    by destruct (blobsMap v0 !! key (Int x) (Int y)); rewrite ?app_nil_r. }
  destruct (decide (cell cur x y = 1 /\ cell nxt x y = 1)) as [H11|H11].
  { injection Hrun as <- <-.
    cbn [appearingCells disappearingCells persistentCells newBlobs
         blobsToRemove fmap list_fmap].
    rewrite !app_nil_r. by split_and!. }
  injection Hrun as <- <-.
  cbn [fmap list_fmap]. rewrite !app_nil_r. by split_and!.
Qed.

Lemma prepare_classified (game : GameOfLife.t) (N : Z)
    (cur nxt : list (list Z)) (v0 : t) :
  GameOfLife.size game = N -> square N cur -> square N nxt ->
  isAnimating v0 = false ->
  exists c v1,
    prepareNextGeneration game cur nxt v0
      = (Normal true, set_pendingChanges (Some c) v1)
    /\ prepared cur nxt v0 (scan_order N) c v1
    /\ classified cur nxt v0 (scan_order N) c v1.
Proof.
  intros Hsize Hcur Hnxt Hidle.
  destruct (foldM_invariant
    (fun c (p : Z * Z) => prepare_cell cur nxt c p.1 p.2)
    (fun visited c v => prepared cur nxt v0 visited c v
                        /\ classified cur nxt v0 visited c v)
    (scan_order N) no_changes v0) as (c & v1 & Hrun & Hv & Hcl).
  - split; [apply prepared_initial|]. by split_and!.
  - intros visited [y x] rest c v Hscan [Hprep Hcl].
    apply scan_order_fresh in Hscan as (Hfresh & Hx & Hy).
    by apply (classified_step N).
  - exists c, v1. split; [|done].
    unfold prepareNextGeneration, bind at 1, get. rewrite Hidle, Hsize.
    unfold bind at 1.
    rewrite (foldM_product (prepare_cell cur nxt)).
    fold (scan_order N). by rewrite Hrun.
Qed.

(** [prepareNextGeneration] sorts the cells of the grid, in the order of
    its loops: those that go from 0 to 1 are the appearing cells, each
    with a new blob at its coordinates, invisible and flagged new; those
    that go from 1 to 0 are the disappearing cells, and the blobs to
    remove are the blobs that [blobsMap] holds for them, a cell without
    an entry being skipped; those that stay 1 are the persistent cells.
    The call stores the result and leaves [blobs], [blobsMap], the
    organisms and the metaballs as they were. *)
Theorem prepareNextGeneration_classifies (game : GameOfLife.t)
    (cur nxt : list (list Z)) (v : t) :
  square (GameOfLife.size game) cur -> square (GameOfLife.size game) nxt ->
  isAnimating v = false ->
  exists c v',
    prepareNextGeneration game cur nxt v = (Normal true, v')
    /\ pendingChanges v' = Some c
    /\ appearingCells c = transitions (GameOfLife.size game) cur nxt 0 1
    /\ disappearingCells c = transitions (GameOfLife.size game) cur nxt 1 0
    /\ persistentCells c = transitions (GameOfLife.size game) cur nxt 1 1
    /\ (fun b => (blob_x b, blob_y b)) <$> newBlobs c = appearingCells c
    /\ (forall b, b ∈ newBlobs c -> heap v' !! handle b = Some hidden)
    /\ blobsToRemove c
       = omap (fun p => blobsMap v !! key (Int p.1) (Int p.2))
           (disappearingCells c)
    /\ blobs v' = blobs v /\ blobsMap v' = blobsMap v
    /\ organismGroups v' = organismGroups v
    /\ metaballsMap v' = metaballsMap v
    /\ isAnimating v' = false.
Proof.
  intros Hcur Hnxt Hidle.
  destruct (prepare_classified game _ cur nxt v eq_refl Hcur Hnxt Hidle)
    as (c & v1 & Hrun & Hprep & Ha & Hd & Hp & Hn & Hr & Hmm).
  destruct Hprep as (Hb & Hm & (_ & Hg & _ & Hanim & _) & Hnew & _).
  exists c, (set_pendingChanges (Some c) v1).
  split; [done|]. split; [done|].
  split_and!; try done.
  - intros b Hb'. by apply Hnew.
  - cbn [isAnimating set_pendingChanges]. by rewrite Hanim.
Qed.
End ClassifyFacts.

Section ClassifyWitness.
Import Js BlobVisualizer.

Lemma prepareNextGeneration_classifies_witness :
  exists c v',
    prepareNextGeneration blinker_start (GameOfLife.grid blinker_start)
      horizontal_grid blinker_view = (Normal true, v')
    /\ pendingChanges v' = Some c
    /\ appearingCells c
       = transitions 5 (GameOfLife.grid blinker_start) horizontal_grid 0 1
    /\ disappearingCells c
       = transitions 5 (GameOfLife.grid blinker_start) horizontal_grid 1 0
    /\ persistentCells c
       = transitions 5 (GameOfLife.grid blinker_start) horizontal_grid 1 1
    /\ (fun b => (blob_x b, blob_y b)) <$> newBlobs c = appearingCells c
    /\ (forall b, b ∈ newBlobs c -> heap v' !! handle b = Some hidden)
    /\ blobsToRemove c
       = omap (fun p => blobsMap blinker_view !! key (Int p.1) (Int p.2))
           (disappearingCells c)
    /\ blobs v' = blobs blinker_view /\ blobsMap v' = blobsMap blinker_view
    /\ organismGroups v' = organismGroups blinker_view
    /\ metaballsMap v' = metaballsMap blinker_view
    /\ isAnimating v' = false.
Proof.
  apply (prepareNextGeneration_classifies blinker_start
           (GameOfLife.grid blinker_start) horizontal_grid blinker_view).
  - apply blinker_start_square.
  - apply horizontal_square.
  - by vm_compute.
Defined.
End ClassifyWitness.

Section DiffAndPrepare.
Import Js BlobVisualizer.

Lemma bind_bind {A B C} (f : A -> list B) (g : B -> list C) (l : list A) :
  (l ≫= f) ≫= g = l ≫= fun a => f a ≫= g.
Proof.
  induction l as [|a l IH]; [done|]. csimpl. by rewrite bind_app, IH.
Qed.

Lemma changed_scan (N : Z) (old new : list (list Z)) :
  (y ← range N; x ← range N; changed_at old new y x)
  = scan_order N ≫= fun p => changed_at old new p.1 p.2.
Proof.
  unfold scan_order. rewrite bind_bind.
  apply list_bind_ext; [|done]. intros y. rewrite bind_bind.
  apply list_bind_ext; [|done]. intros x. csimpl. by rewrite app_nil_r.
Qed.

(** Among the changed cells of two grids of 0/1 cells, those whose new
    state is [b] are the cells that go from [1 - b] to [b]. *)
Lemma changed_to (N : Z) (cur nxt : list (list Z)) (b : Z)
    (l : list (Z * Z)) :
  square N cur -> binary cur -> b = 0 \/ b = 1 ->
  Forall (fun p => 0 <= p.2 < N /\ 0 <= p.1 < N) l ->
  (fun ch => (GameOfLife.cx ch, GameOfLife.cy ch))
    <$> filter (fun ch => GameOfLife.cstate ch = Number (Int b))
          (l ≫= fun p => changed_at cur nxt p.1 p.2)
  = (fun p : Z * Z => (p.2, p.1))
      <$> filter (fun p => cell cur p.2 p.1 = 1 - b /\ cell nxt p.2 p.1 = b) l.
Proof.
  intros Hsq Hbin Hb Hl. induction Hl as [|[y x] l [Hx Hy] Hl IH]; [done|].
  csimpl. rewrite filter_app, fmap_app, IH, filter_cons. cbn [fst snd] in *.
  f_equal. unfold changed_at.
  pose proof (binary_cell N cur x y Hsq Hbin Hx Hy) as Hc.
  destruct (decide (cell cur x y = cell nxt x y)) as [Heq|Hne].
  - rewrite filter_nil. rewrite decide_False by lia. done.
  - rewrite filter_cons, filter_nil. cbn [GameOfLife.cstate].
    destruct (decide (cell nxt x y = b)) as [Hnb|Hnb].
    + rewrite decide_True by (by rewrite Hnb).
      rewrite decide_True by lia. done.
    + rewrite decide_False by (intros [= ?]; done).
      rewrite decide_False by tauto. done.
Qed.

(** On grids of 0/1 cells the two ways the code compares generations
    agree: the cells [getChangedCells] reports with new state 1 are the
    appearing cells of [prepareNextGeneration], those with new state 0
    its disappearing cells, in the same order. *)
Theorem changed_cells_are_prepared (game : GameOfLife.t)
    (cur nxt : list (list Z)) (v : t) :
  square (GameOfLife.size game) cur -> square (GameOfLife.size game) nxt ->
  binary cur -> binary nxt -> isAnimating v = false ->
  exists l c v',
    GameOfLife.getChangedCells cur nxt game = (Normal l, game)
    /\ prepareNextGeneration game cur nxt v = (Normal true, v')
    /\ pendingChanges v' = Some c
    /\ appearingCells c
       = (fun ch => (GameOfLife.cx ch, GameOfLife.cy ch))
           <$> filter (fun ch => GameOfLife.cstate ch = Number (Int 1)) l
    /\ disappearingCells c
       = (fun ch => (GameOfLife.cx ch, GameOfLife.cy ch))
           <$> filter (fun ch => GameOfLife.cstate ch = Number (Int 0)) l
    /\ length l
       = (length (appearingCells c) + length (disappearingCells c))%nat.
Proof.
  intros Hcur Hnxt Hbc Hbn Hidle.
  set (N := GameOfLife.size game) in *.
  destruct (prepare_classified game N cur nxt v eq_refl Hcur Hnxt Hidle)
    as (c & v1 & Hrun & _ & Ha & Hd & _).
  eexists _, c, _.
  split; [by apply (getChangedCells_run game N)|].
  split; [exact Hrun|]. split; [done|].
  assert (Forall (fun p : Z * Z => 0 <= p.2 < N /\ 0 <= p.1 < N)
            (scan_order N)) as Hscan.
  { apply Forall_forall. intros [y x] Hp. by apply elem_of_scan_order. }
  rewrite changed_scan.
  rewrite (changed_to N cur nxt 1), (changed_to N cur nxt 0)
    by (done || auto).
  rewrite Ha, Hd. split; [done|]. split; [done|].
  rewrite !length_fmap.
  clear Ha Hd Hrun. induction Hscan as [|[y x] l [Hx Hy] Hl IH]; [done|].
  csimpl. rewrite length_app, IH, !filter_cons. cbn [fst snd] in *.
  pose proof (binary_cell N cur x y Hcur Hbc Hx Hy) as Hc.
  pose proof (binary_cell N nxt x y Hnxt Hbn Hx Hy) as Hn.
  unfold changed_at.
  repeat case_decide; cbn [length]; lia.
Qed.
End DiffAndPrepare.

Section DiffAndPrepareWitness.
Import Js BlobVisualizer.

Lemma changed_cells_are_prepared_witness :
  exists l c v',
    GameOfLife.getChangedCells (GameOfLife.grid blinker_start)
      horizontal_grid blinker_start = (Normal l, blinker_start)
    /\ prepareNextGeneration blinker_start (GameOfLife.grid blinker_start)
         horizontal_grid blinker_view = (Normal true, v')
    /\ pendingChanges v' = Some c
    /\ appearingCells c
       = (fun ch => (GameOfLife.cx ch, GameOfLife.cy ch))
           <$> filter (fun ch => GameOfLife.cstate ch = Number (Int 1)) l
    /\ disappearingCells c
       = (fun ch => (GameOfLife.cx ch, GameOfLife.cy ch))
           <$> filter (fun ch => GameOfLife.cstate ch = Number (Int 0)) l
    /\ length l
       = (length (appearingCells c) + length (disappearingCells c))%nat.
Proof.
  apply (changed_cells_are_prepared blinker_start
           (GameOfLife.grid blinker_start) horizontal_grid blinker_view).
  - apply blinker_start_square.
  - apply horizontal_square.
  - decide_by_computation.
  - decide_by_computation.
  - by vm_compute.
Defined.
End DiffAndPrepareWitness.

Section ConnectedFacts.
Import Js BlobVisualizer.
Context (m : gmap string blob) (N : Z).

Lemma linked_mono (l l' : list blob) (a b : blob) :
  (forall x, x ∈ l -> x ∈ l') ->
  rtc (linked m N l) a b -> rtc (linked m N l') a b.
Proof.
  intros Hsub. apply rtc_subrel.
  intros x y (Hx & Hy & Hk). split_and!; [by apply Hsub..|done].
Qed.

Lemma examine_reached (seed cur : blob) (st : search) (d : Z * Z) :
  cur ∈ found st -> d ∈ offsets ->
  reached m N seed st -> reached m N seed (examine m N cur st d).
Proof.
  intros Hcur Hd Hst. unfold examine.
  destruct (m !! _) as [n|] eqn:Hn; [|done].
  case_decide as Hseen; [done|].
  unfold reached. cbn [found queue]. rewrite (assoc_L (++)).
  intros b [Hb| ->%list_elem_of_singleton]%elem_of_app.
  - eapply linked_mono; [|by apply Hst].
    intros x Hx. apply elem_of_app. by left.
  - eapply rtc_r.
    + eapply linked_mono; [|apply (Hst cur)].
      * intros x Hx. apply elem_of_app. by left.
      * apply elem_of_app. by left.
    + split_and!.
      * rewrite !elem_of_app. by left; left.
      * rewrite !elem_of_app. right. left.
      * eexists. split; [|exact Hn].
        unfold neighbour_keys. apply list_elem_of_fmap. by exists d.
Qed.

Lemma scan_reached (seed cur : blob) (ds : list (Z * Z)) (st : search) :
  cur ∈ found st -> (forall d, d ∈ ds -> d ∈ offsets) ->
  reached m N seed st -> reached m N seed (foldl (examine m N cur) st ds).
Proof.
  revert st. induction ds as [|d ds IH]; intros st Hcur Hds Hst; [done|].
  cbn [foldl]. apply IH.
  - by rewrite (proj1 (examine_found m N cur st d)).
  - intros d' Hd'. apply Hds. by right.
  - apply examine_reached; [done| |done]. apply Hds. left.
Qed.

Lemma visit_reached (c : Z) (seed b : blob) (rest : list blob) (st : search) :
  queue st = b :: rest ->
  reached m N seed st -> reached m N seed (visit m N c b rest st).
Proof.
  intros Hq Hst. unfold visit. apply scan_reached.
  - cbn [found]. apply elem_of_app. right. left.
  - done.
  - unfold reached in *. cbn [found queue].
    rewrite Hq in Hst. by rewrite <- (assoc_L (++)).
Qed.

Lemma bfs_reached (c : Z) (seed : blob) (fuel : nat) (st : search) :
  reached m N seed st -> reached m N seed (bfs fuel m N c st).
Proof.
  revert st. induction fuel as [|fuel IH]; intros st Hst; cbn [bfs]; [done|].
  destruct (queue st) as [|b rest] eqn:Hq; [done|].
  by apply IH, visit_reached.
Qed.

Lemma search_from_seed (g : grouping) (b : blob) :
  exists tail, found (search_from m N g b) = b :: tail.
Proof.
  unfold search_from.
  set (st0 := mk_search [b] ({[blob_key b]} ∪ seen g) [] (store g)).
  rewrite (bfs_step m N (currentOrganismId g) _ b [] st0) by done.
  destruct (bfs_seed_first m N (currentOrganismId g) (turns m st0)
    (visit m N (currentOrganismId g) b [] st0)) as [tail ->].
  destruct (visit_found m N (currentOrganismId g) b [] st0) as [-> _].
  by exists tail.
Qed.

Lemma search_from_connected (g : grouping) (b x : blob) :
  x ∈ found (search_from m N g b) ->
  rtc (linked m N (found (search_from m N g b))) b x.
Proof.
  unfold search_from.
  set (st0 := mk_search [b] ({[blob_key b]} ∪ seen g) [] (store g)).
  assert (reached m N b st0) as Hst0.
  { intros y Hy. cbn in Hy. apply list_elem_of_singleton in Hy as ->. done. }
  pose proof (bfs_reached (currentOrganismId g) b (S (turns m st0)) st0 Hst0)
    as Hend.
  unfold reached in Hend.
  rewrite (bfs_terminates m N (currentOrganismId g) (S (turns m st0)) st0)
    in Hend by lia.
  rewrite app_nil_r in Hend. apply Hend.
Qed.

Lemma group_from_connected (palette : list Z) (g : grouping) (b : blob) :
  Forall (connected m N) (groups g) ->
  Forall (connected m N) (groups (group_from palette m N g b)).
Proof.
  intros Hg. destruct (decide (blob_key b ∈ seen g)) as [Hold|Hnew].
  { unfold group_from. by rewrite decide_True. }
  rewrite group_from_unseen by done. cbn [groups].
  apply Forall_app. split; [done|]. constructor; [|constructor].
  exists b. cbn [members]. split.
  - by destruct (search_from_seed g b) as [tail ->].
  - apply search_from_connected.
Qed.

Lemma connected_fold (palette : list Z) (l : list blob) (g : grouping) :
  Forall (connected m N) (groups g) ->
  Forall (connected m N) (groups (foldl (group_from palette m N) g l)).
Proof.
  revert g. induction l as [|b l IH]; intros g Hg; [done|].
  cbn [foldl]. by apply IH, group_from_connected.
Qed.
End ConnectedFacts.

Section ConnectedClaims.
Import Js BlobVisualizer.

Lemma grouped_connected (game : GameOfLife.t) (v : t) :
  Forall (connected (blobsMap v) (GameOfLife.size game))
    (groups (grouped game v)).
Proof. unfold grouped. apply connected_fold. constructor. Qed.

(** Every organism that [identifyOrganismGroups] builds is connected: it
    starts with the blob that seeded its search, and each of its blobs is
    reached from that seed by steps from a member to a member that
    [blobsMap] holds at one of its eight neighbouring keys. No organism
    is empty. *)
Theorem organisms_are_connected (game : GameOfLife.t) (v : t) :
  exists v',
    identifyOrganismGroups game v = (Normal tt, v')
    /\ forall o, o ∈ organismGroups v' ->
         exists seed,
           head (members o) = Some seed
           /\ forall b, b ∈ members o ->
                rtc (linked (blobsMap v) (GameOfLife.size game) (members o))
                  seed b.
Proof.
  eexists. split; [apply identifyOrganismGroups_run|].
  cbn [organismGroups set_organismGroups]. intros o Ho.
  pose proof (grouped_connected game v) as Hall.
  rewrite Forall_forall in Hall. by apply Hall.
Qed.

Lemma rtc_symmetric {A} (R : relation A) (x y : A) :
  (forall a b, R a b -> R b a) -> rtc R x y -> rtc R y x.
Proof.
  intros Hsym Hxy. induction Hxy as [|x y z Hxy Hyz IH]; [done|].
  eapply rtc_r; [exact IH|]. by apply Hsym.
Qed.

Lemma adjacent_symmetric (N : Z) (a b : blob) :
  in_grid N a -> adjacent N a b -> adjacent N b a.
Proof.
  intros [Hx Hy] (dx & dy & Hdx & Hdy & Hbx & Hby).
  exists (- dx), (- dy). split_and!; [lia..| |].
  - rewrite Hbx, Zplus_mod_idemp_l.
    replace (blob_x a + dx + - dx) with (blob_x a) by lia.
    by rewrite Z.mod_small.
  - rewrite Hby, Zplus_mod_idemp_l.
    replace (blob_y a + dy + - dy) with (blob_y a) by lia.
    by rewrite Z.mod_small.
Qed.

Lemma linked_adjacent (m : gmap string blob) (N : Z) (l : list blob)
    (a b : blob) :
  keyed m -> in_grid N a -> linked m N l a b -> adjacent N a b.
Proof.
  intros Hkeyed Ha (_ & _ & k & Hk & Hb).
  unfold neighbour_keys in Hk.
  apply list_elem_of_fmap in Hk as ([dx dy] & -> & Hd).
  rewrite neighbour_key_wrap in Hb by done.
  apply Hkeyed in Hb. apply key_inj in Hb as [Hx Hy]. cbn [fst snd] in *.
  apply offsets_small in Hd as [Hdx Hdy]. exists dx, dy.
  split_and!; [lia..| |]; done.
Qed.

Lemma closed_adjacent (N : Z) (v : t) (gs : list organism) (o : organism)
    (a b : blob) :
  consistent v -> (forall b, b ∈ blobs v -> in_grid N b) ->
  closed (blobsMap v) N gs -> o ∈ gs ->
  a ∈ blobs v -> b ∈ blobs v -> a ∈ members o -> adjacent N a b ->
  b ∈ members o.
Proof.
  intros (Hnd & Hagree & Hkeyed) Hgrid Hclosed Ho Ha Hb Hao
    (dx & dy & Hdx & Hdy & Hx & Hy).
  destruct (Hgrid a Ha) as [Hax Hay], (Hgrid b Hb) as [Hbx Hby].
  destruct (decide ((dx, dy) = (0, 0))) as [[= -> ->]|Hne].
  { rewrite Z.add_0_r, Z.mod_small in Hx, Hy by lia.
    assert (blob_key a = blob_key b) as Hk
      by (unfold blob_key; by rewrite Hx, Hy).
    apply Hagree in Ha, Hb. rewrite Hk in Ha.
    assert (a = b) as -> by congruence. done. }
  apply (Hclosed o a (blob_key b) b); [done..| |by apply Hagree].
  assert ((dx, dy) ∈ offsets) as Hd by (by apply offsets_complete).
  unfold neighbour_keys. apply list_elem_of_fmap. exists (dx, dy).
  split; [|done]. rewrite (neighbour_key_wrap N a (dx, dy)) by done.
  unfold blob_key. cbn [fst snd]. by rewrite Hx, Hy.
Qed.

(** The organisms are the connected components of the blobs: with the
    bookkeeping consistent and the blobs inside the grid, two blobs are
    members of one organism exactly when a chain of blobs, each next to
    the following one on the torus, leads from one to the other. *)
Theorem organisms_are_components (game : GameOfLife.t) (v : t) :
  consistent v ->
  (forall b, b ∈ blobs v -> in_grid (GameOfLife.size game) b) ->
  exists v',
    identifyOrganismGroups game v = (Normal tt, v')
    /\ forall a b, a ∈ blobs v -> b ∈ blobs v ->
         (exists o, o ∈ organismGroups v' /\ a ∈ members o /\ b ∈ members o)
         <-> rtc (touching (GameOfLife.size game) (blobs v)) a b.
Proof.
  intros Hv Hgrid. eexists. split; [apply identifyOrganismGroups_run|].
  cbn [organismGroups set_organismGroups].
  set (N := GameOfLife.size game) in *.
  pose proof (grouped_partition game v Hv) as Hperm.
  pose proof (grouped_closed game v Hv Hgrid) as Hclosed.
  pose proof (grouped_connected game v) as Hconn.
  rewrite Forall_forall in Hconn.
  assert (forall o x, o ∈ groups (grouped game v) -> x ∈ members o ->
            x ∈ blobs v) as Hmem.
  { intros o x Ho Hx. rewrite <- Hperm. apply elem_of_all_members.
    by exists o. }
  assert (forall x y, touching N (blobs v) x y -> touching N (blobs v) y x)
    as Hsym.
  { intros x y (Hx & Hy & Hadj). split_and!; [done..|].
    apply adjacent_symmetric; [by apply Hgrid|done]. }
  intros a b Ha Hb. split.
  - intros (o & Ho & Hao & Hbo).
    destruct (Hconn o Ho) as (seed & _ & Hreach).
    assert (forall x, x ∈ members o ->
              rtc (touching N (blobs v)) seed x) as Hpath.
    { intros x Hx. eapply rtc_subrel; [|by apply Hreach].
      intros y z Hyz. pose proof Hyz as (Hy & Hz & _).
      split_and!; [by eapply Hmem..|].
      eapply linked_adjacent; [apply Hv| |exact Hyz].
      apply Hgrid. by eapply Hmem. }
    etrans; [|by apply Hpath]. apply rtc_symmetric; [done|]. by apply Hpath.
  - intros Hab.
    assert (a ∈ all_members (groups (grouped game v))) as Hin
      by (by rewrite Hperm).
    apply elem_of_all_members in Hin as (o & Ho & Hao).
    exists o. split; [done|]. split; [done|].
    clear Ha Hb. induction Hab as [|x y z (Hx & Hy & Hadj) Hyz IH]; [done|].
    apply IH. by apply (closed_adjacent N v (groups (grouped game v)) o x y).
Qed.

Lemma organisms_are_components_witness :
  exists v',
    identifyOrganismGroups blinker_start blinker_view = (Normal tt, v')
    /\ forall a b, a ∈ blobs blinker_view -> b ∈ blobs blinker_view ->
         (exists o, o ∈ organismGroups v' /\ a ∈ members o /\ b ∈ members o)
         <-> rtc (touching (GameOfLife.size blinker_start)
                    (blobs blinker_view)) a b.
Proof.
  destruct (createBlobs_run blinker_start 5 (initial palette) eq_refl
              blinker_start_square) as (v & Hrun & Hcons & Hcells & _).
  assert (blinker_view = v) as Hview.
  { unfold blinker_view, constructor. by rewrite Hrun. }
  apply (organisms_are_components blinker_start blinker_view).
  - by rewrite Hview.
  - intros b Hb. rewrite Hview in Hb.
    by apply (blobs_of_cells_in_grid (GameOfLife.grid blinker_start) 5 v).
Defined.
End ConnectedClaims.

Section MetaballClaims.
Import Js BlobVisualizer.

Lemma elem_of_add_child (c x : child) (cs : list child) :
  x ∈ add_child c cs <-> x ∈ cs \/ x = c.
Proof.
  unfold add_child. rewrite elem_of_app, list_elem_of_filter,
    list_elem_of_singleton.
  split.
  - intros [[_ Hx]|Hx]; [by left|by right].
  - intros [Hx|Hx]; [|by right].
    destruct (decide (x = c)); [by right|by left].
Qed.

Lemma with_metaball_grows (o : organism) (v : t) :
  (next_handle v <= next_handle (with_metaball o v))%nat
  /\ (forall c, c ∈ children v -> c ∈ children (with_metaball o v)).
Proof.
  unfold with_metaball. case_decide; [done|]. cbn. split; [lia|].
  intros c Hc. apply elem_of_add_child. by left.
Qed.

Lemma metaballs_grow (os : list organism) (v : t) :
  (next_handle v <= next_handle (foldl (fun v o => with_metaball o v) v os))%nat
  /\ (forall c, c ∈ children v ->
        c ∈ children (foldl (fun v o => with_metaball o v) v os)).
Proof.
  revert v. induction os as [|o os IH]; intros v; [done|]. cbn [foldl].
  destruct (IH (with_metaball o v)) as [Hn Hc].
  destruct (with_metaball_grows o v) as [Hn' Hc'].
  split; [lia|]. intros c Hin. by apply Hc, Hc'.
Qed.

(** A key that is the id of no organism with blobs keeps its entry. *)
Lemma metaballs_other (os : list organism) (v : t) (i : Z) :
  (forall o, o ∈ os -> members o <> [] -> id o <> i) ->
  metaballsMap (foldl (fun v o => with_metaball o v) v os) !! i
  = metaballsMap v !! i.
Proof.
  revert v. induction os as [|o os IH]; intros v Hi; [done|]. cbn [foldl].
  rewrite IH by (intros o' Ho'; apply Hi; by right).
  unfold with_metaball. case_decide as He; [done|]. cbn.
  apply lookup_insert_ne. apply Hi; [left|done].
Qed.

Lemma metaballs_each (os : list organism) (v : t) (o : organism) :
  NoDup (id <$> os) -> o ∈ os -> members o <> [] ->
  exists h,
    metaballsMap (foldl (fun v o => with_metaball o v) v os) !! id o
      = Some (mk_metaball h o)
    /\ Cubes h ∈ children (foldl (fun v o => with_metaball o v) v os).
Proof.
  revert v. induction os as [|o' os IH]; intros v Hnd Ho Hne;
    [by apply elem_of_nil in Ho|].
  rewrite fmap_cons in Hnd. apply NoDup_cons in Hnd as [Hfresh Hnd].
  cbn [foldl]. apply elem_of_cons in Ho as [->|Ho]; [|by apply IH].
  exists (next_handle v). split.
  - rewrite metaballs_other.
    + unfold with_metaball. rewrite decide_False by done. cbn.
      apply lookup_insert_eq.
    + intros o Ho _ Heq. apply Hfresh. rewrite <- Heq.
      by apply list_elem_of_fmap_2.
  - apply metaballs_grow. unfold with_metaball.
    rewrite decide_False by done. cbn. apply elem_of_add_child. by right.
Qed.

(** What [createMetaballOrganisms] leaves behind. *)
Lemma metaballs_created (v : t) :
  NoDup (id <$> organismGroups v) ->
  exists v',
    createMetaballOrganisms v = (Normal tt, v')
    /\ (forall o, o ∈ organismGroups v -> members o <> [] ->
          exists h, metaballsMap v' !! id o = Some (mk_metaball h o)
                    /\ Cubes h ∈ children v')
    /\ (forall i mb, metaballsMap v' !! i = Some mb ->
          metaball_organism mb ∈ organismGroups v
          /\ id (metaball_organism mb) = i
          /\ members (metaball_organism mb) <> [])
    /\ books v' = books v
    /\ (next_handle v <= next_handle v')%nat.
Proof.
  intros Hnd. eexists. split; [apply createMetaballOrganisms_run|].
  set (v0 := set_metaballsMap (fun _ => ∅) (detach_metaballs v)).
  assert (forall o, o ∈ organismGroups v -> members o <> [] ->
    exists h,
      metaballsMap (foldl (fun v o => with_metaball o v) v0 (organismGroups v))
        !! id o = Some (mk_metaball h o)
      /\ Cubes h ∈ children
           (foldl (fun v o => with_metaball o v) v0 (organismGroups v)))
    as Heach by (intros o Ho Hne; by apply metaballs_each).
  split; [done|]. split; [|split].
  - intros i mb Hmb.
    destruct (decide (Exists (fun o => members o <> [] /\ id o = i)
                        (organismGroups v)))
      as [(o & Ho & Hne & <-)%Exists_exists|Hno].
    + destruct (Heach o Ho Hne) as (h & Hh & _).
      rewrite Hh in Hmb. injection Hmb as <-. done.
    + rewrite metaballs_other in Hmb; [done|].
      intros o Ho Hne Heq. apply Hno, Exists_exists. by exists o.
  - by rewrite metaballs_books.
  - apply (metaballs_grow (organismGroups v) v0).
Qed.

(** [createMetaballOrganisms] replaces the metaballs by one for each
    organism that has blobs, stored under the organism's id, its
    marching-cubes object a child of the scene object; organisms without
    blobs get none, and no other key has an entry. The blobs, the map
    and the organisms are left as they were. *)
Theorem createMetaballOrganisms_one_each (v : t) :
  NoDup (id <$> organismGroups v) ->
  exists v',
    createMetaballOrganisms v = (Normal tt, v')
    /\ (forall o, o ∈ organismGroups v -> members o <> [] ->
          exists h, metaballsMap v' !! id o = Some (mk_metaball h o)
                    /\ Cubes h ∈ children v')
    /\ (forall i mb, metaballsMap v' !! i = Some mb ->
          metaball_organism mb ∈ organismGroups v
          /\ id (metaball_organism mb) = i
          /\ members (metaball_organism mb) <> [])
    /\ blobs v' = blobs v /\ blobsMap v' = blobsMap v
    /\ organismGroups v' = organismGroups v.
Proof.
  intros Hnd.
  destruct (metaballs_created v Hnd) as (v' & Hrun & Heach & Honly & Hbooks & _).
  exists v'. unfold books in Hbooks. injection Hbooks as _ Hb Hm Hg _ _ _ _.
  by split_and!.
Qed.

Lemma metaballs_witness_ids : NoDup (id <$> organismGroups blinker_view).
Proof. decide_by_computation. Qed.

Lemma createMetaballOrganisms_one_each_witness :
  exists v',
    createMetaballOrganisms blinker_view = (Normal tt, v')
    /\ (forall o, o ∈ organismGroups blinker_view -> members o <> [] ->
          exists h, metaballsMap v' !! id o = Some (mk_metaball h o)
                    /\ Cubes h ∈ children v')
    /\ (forall i mb, metaballsMap v' !! i = Some mb ->
          metaball_organism mb ∈ organismGroups blinker_view
          /\ id (metaball_organism mb) = i
          /\ members (metaball_organism mb) <> [])
    /\ blobs v' = blobs blinker_view /\ blobsMap v' = blobsMap blinker_view
    /\ organismGroups v' = organismGroups blinker_view.
Proof.
  apply (createMetaballOrganisms_one_each blinker_view).
  apply metaballs_witness_ids.
Defined.

Lemma prune_lookup (gs : list organism) (l : list (Z * metaball))
    (mm : gmap Z metaball) (i : Z) :
  foldl (prune gs) mm l !! i
  = if decide (i ∈ l.*1 /\ ~ has_members gs i) then None else mm !! i.
Proof.
  revert mm. induction l as [|[k mb] l IH]; intros mm.
  - cbn. rewrite decide_False; [done|]. by intros [?%elem_of_nil _].
  - cbn [foldl]. rewrite IH.
    destruct (decide (i ∈ l.*1 /\ ~ has_members gs i)) as [[Hi Hno]|Hout];
      destruct (decide (i ∈ ((k, mb) :: l).*1 /\ ~ has_members gs i))
        as [[Hi' Hno']|Hout']; try done.
    + exfalso. apply Hout'. split; [|done]. rewrite fmap_cons. by right.
    + rewrite fmap_cons in Hi'. cbn [fst] in Hi'.
      apply elem_of_cons in Hi' as [->|Hi']; [|tauto].
      unfold prune. cbn [fst]. rewrite decide_False by done.
      apply lookup_delete_eq.
    + unfold prune. cbn [fst]. case_decide as Hk; [done|].
      apply lookup_delete_ne. intros ->. apply Hout'. split; [|done].
      rewrite fmap_cons. left.
Qed.

Lemma prune_all (gs : list organism) (mm : gmap Z metaball) :
  foldl (prune gs) mm (map_to_list mm)
  = filter (fun e => has_members gs e.1) mm.
Proof.
  apply map_eq. intros i. rewrite prune_lookup.
  destruct (mm !! i) as [mb|] eqn:Hi.
  - destruct (decide (has_members gs i)) as [Hk|Hk].
    + rewrite decide_False by tauto. symmetry.
      by apply map_lookup_filter_Some.
    + rewrite decide_True.
      * symmetry. apply map_lookup_filter_None. right.
        intros mb' Hmb'. done.
      * split; [|done]. apply list_elem_of_fmap. exists (i, mb).
        split; [done|]. by apply elem_of_map_to_list.
  - case_decide; symmetry; apply map_lookup_filter_None; by left.
Qed.

(** What [updateMetaballPositions] leaves behind. *)
Lemma metaballs_pruned (v : t) :
  exists v',
    updateMetaballPositions v = (Normal tt, v')
    /\ metaballsMap v'
       = filter (fun e => has_members (organismGroups v) e.1) (metaballsMap v)
    /\ (forall i mb, metaballsMap v !! i = Some mb ->
          ~ has_members (organismGroups v) i ->
          Cubes (object mb) ∉ children v')
    /\ books v' = books v
    /\ next_handle v' = next_handle v.
Proof.
  unfold updateMetaballPositions, bind at 1, get.
  destruct (foldM_invariant
    (fun (_ : unit) '(organismId, m) =>
      (let* v := get in
       match find_organism (organismGroups v) organismId with
       | Some org =>
           if decide (members org = []) then
             modify (set_children (remove_child (Cubes (object m)))) ;;
             modify (set_metaballsMap (delete organismId))
           else ret tt
       | None =>
           modify (set_children (remove_child (Cubes (object m)))) ;;
           modify (set_metaballsMap (delete organismId))
       end)%js)
    (fun visited _ v' =>
       (books v' = books v /\ next_handle v' = next_handle v)
       /\ metaballsMap v'
          = foldl (prune (organismGroups v)) (metaballsMap v) visited
       /\ (forall c, c ∈ children v' -> c ∈ children v)
       /\ (forall e, e ∈ visited -> ~ has_members (organismGroups v) e.1 ->
             Cubes (object e.2) ∉ children v'))
    (map_to_list (metaballsMap v)) tt v)
    as ([] & v' & Hrun & [Hbooks Hnext] & Hmm & _ & Hgone).
  - split_and!; [done..|]. by intros e ?%elem_of_nil.
  - intros visited [i mb] rest [] v' _ ([Hl Hnx] & Hmm & Hsub & Hgone).
    assert (organismGroups v' = organismGroups v) as Hg
      by (by injection Hl).
    unfold bind at 1, get. rewrite Hg, foldl_app. cbn [foldl].
    destruct (find_organism (organismGroups v) i) as [org|] eqn:Hfind.
    + destruct (decide (members org = [])) as [Hempty|Hfull].
      * assert (~ has_members (organismGroups v) i) as Hno'
          by (unfold has_members; rewrite Hfind; by intros Hne).
        unfold prune at 1. cbn [fst]. rewrite decide_False by done.
        eexists _, _. split; [reflexivity|]. cbn. split_and!.
        -- done.
        -- done.
        -- by rewrite Hmm.
        -- intros c [_ Hc]%list_elem_of_filter. by apply Hsub.
        -- intros e [He| ->%list_elem_of_singleton]%elem_of_app Hno.
           ++ intros [_ Hc]%list_elem_of_filter. by apply (Hgone e).
           ++ intros [Hc _]%list_elem_of_filter. by apply Hc.
      * assert (has_members (organismGroups v) i) as Hyes
          by (unfold has_members; by rewrite Hfind).
        unfold prune at 1. cbn [fst]. rewrite decide_True by done.
        eexists _, _. split; [reflexivity|]. split_and!; [done..|].
        intros e [He| ->%list_elem_of_singleton]%elem_of_app Hno.
        -- by apply Hgone.
        -- exfalso. by apply Hno.
    + assert (~ has_members (organismGroups v) i) as Hno'
        by (unfold has_members; rewrite Hfind; tauto).
      unfold prune at 1. cbn [fst]. rewrite decide_False by done.
      eexists _, _. split; [reflexivity|]. cbn. split_and!.
      * done.
      * done.
      * by rewrite Hmm.
      * intros c [_ Hc]%list_elem_of_filter. by apply Hsub.
      * intros e [He| ->%list_elem_of_singleton]%elem_of_app Hno.
        -- intros [_ Hc]%list_elem_of_filter. by apply (Hgone e).
        -- intros [Hc _]%list_elem_of_filter. by apply Hc.
  - exists v'. split; [done|]. split; [by rewrite Hmm, prune_all|].
    split; [|done].
    intros i mb Hi Hno. apply (Hgone (i, mb)); [|done].
    by apply elem_of_map_to_list.
Qed.

(** [updateMetaballPositions] keeps the metaballs whose key is the id of
    an organism with blobs and deletes the others, detaching their
    objects; it touches nothing else of the bookkeeping. *)
Theorem updateMetaballPositions_prunes (v : t) :
  exists v',
    updateMetaballPositions v = (Normal tt, v')
    /\ metaballsMap v'
       = filter (fun e => has_members (organismGroups v) e.1) (metaballsMap v)
    /\ (forall i mb, metaballsMap v !! i = Some mb ->
          ~ has_members (organismGroups v) i ->
          Cubes (object mb) ∉ children v')
    /\ blobs v' = blobs v /\ blobsMap v' = blobsMap v
    /\ organismGroups v' = organismGroups v
    /\ pendingChanges v' = pendingChanges v
    /\ isAnimating v' = isAnimating v.
Proof.
  destruct (metaballs_pruned v) as (v' & Hrun & Hmm & Hgone & Hbooks & _).
  exists v'. unfold books in Hbooks. injection Hbooks as _ Hb Hm Hg Hp Ha _ _.
  by split_and!.
Qed.
End MetaballClaims.

Section LabelFacts.
Import Js BlobVisualizer.
Context (m : gmap string blob) (N : Z) (c : Z) (h0 : gmap nat blob_fields).

Lemma examine_labelled (cur : blob) (st : search) (d : Z * Z) :
  labelled h0 c st -> labelled h0 c (examine m N cur st d).
Proof.
  intros Hst n. destruct (examine_found m N cur st d) as (-> & -> & _).
  apply Hst.
Qed.

Lemma visit_labelled (b : blob) (rest : list blob) (st : search) :
  labelled h0 c st -> labelled h0 c (visit m N c b rest st).
Proof.
  intros Hst n. unfold visit.
  destruct (scan_found m N b offsets
    (mk_search rest (visited st) (found st ++ [b])
       (alter (set_organismId c) (handle b) (fields st))))
    as (-> & -> & _).
  cbn [found fields]. rewrite fmap_app. cbn [fmap list_fmap].
  destruct (decide (n = handle b)) as [->|Hne].
  - rewrite lookup_alter_eq, Hst.
    rewrite (decide_True (P := handle b ∈ _ ++ _))
      by (apply elem_of_app; right; left).
    case_decide; [|done]. by destruct (h0 !! handle b).
  - rewrite lookup_alter_ne, Hst by done.
    destruct (decide (n ∈ handle <$> found st)) as [Hin|Hout].
    + by rewrite decide_True by (apply elem_of_app; by left).
    + rewrite decide_False; [done|].
      intros [?| ?%list_elem_of_singleton]%elem_of_app; done.
Qed.

Lemma bfs_labelled (fuel : nat) (st : search) :
  labelled h0 c st -> labelled h0 c (bfs fuel m N c st).
Proof.
  revert st. induction fuel as [|fuel IH]; intros st Hst; cbn [bfs]; [done|].
  destruct (queue st) as [|b rest] eqn:Hq; [done|].
  by apply IH, visit_labelled.
Qed.
End LabelFacts.

Section StoreFacts.
Import Js BlobVisualizer.
Context (palette : list Z) (m : gmap string blob) (N : Z)
        (h0 : gmap nat blob_fields).
Hypothesis Hkeyed : keyed m.
Hypothesis Hinj : forall a b,
  m !! blob_key a = Some a -> m !! blob_key b = Some b ->
  handle a = handle b -> a = b.

Lemma search_from_labelled (g : grouping) (b : blob) :
  labelled (store g) (currentOrganismId g) (search_from m N g b).
Proof using Type.
  unfold search_from. apply bfs_labelled. intros n. cbn [fields found].
  rewrite decide_False; [done|]. cbn. apply not_elem_of_nil.
Qed.

(** The invariant after a new organism with members [l] has been
    pushed, its search having written the fields [flds]. *)
Lemma stored_extend (g : grouping) (l : list blob) (col : option Z)
    (vis : gset string) (flds : gmap nat blob_fields) :
  stored h0 g ->
  (forall n, flds !! n
             = if decide (n ∈ handle <$> l)
               then set_organismId (currentOrganismId g) <$> store g !! n
               else store g !! n) ->
  (forall x y, x ∈ all_members (groups g) -> y ∈ l -> handle x <> handle y) ->
  stored h0
    (mk_grouping (groups g ++ [mk_organism (currentOrganismId g) l col])
       (currentOrganismId g + 1) vis flds).
Proof using Type.
  intros [Hold Hrest] Hlab Hdisj. split.
  - cbn [groups store]. intros o x Ho Hx. rewrite Hlab.
    apply elem_of_app in Ho as [Ho| ->%list_elem_of_singleton].
    + rewrite decide_False; [by apply Hold|].
      intros (y & Heq & Hy)%list_elem_of_fmap.
      apply (Hdisj x y); [|done..].
      apply elem_of_all_members. by exists o.
    + cbn [members id] in *.
      rewrite decide_True by (by apply list_elem_of_fmap_2).
      rewrite Hrest; [done|].
      intros (y & Heq & Hy)%list_elem_of_fmap. by apply (Hdisj y x).
  - cbn [groups store]. intros n Hn. rewrite all_members_snoc in Hn.
    cbn [members] in Hn. rewrite fmap_app, not_elem_of_app in Hn.
    destruct Hn as [Hn1 Hn2]. rewrite Hlab, decide_False by done.
    by apply Hrest.
Qed.

Lemma group_from_stored (g : grouping) (b : blob) (visited_blobs : list blob) :
  grouping_inv m visited_blobs g -> stored h0 g ->
  m !! blob_key b = Some b ->
  stored h0 (group_from palette m N g b).
Proof using Hkeyed Hinj.
  intros Hg Hs Hb.
  destruct (decide (blob_key b ∈ seen g)) as [Hseen|Hnew].
  { unfold group_from. by rewrite decide_True. }
  destruct (search_from_facts m N Hkeyed g b visited_blobs Hg Hb Hnew)
    as (Hinv & Hq & _ & _).
  unfold search_inv in Hinv. rewrite Hq, app_nil_r in Hinv.
  destruct Hinv as (Hnd & _ & Hmap).
  rewrite group_from_unseen by done.
  apply stored_extend; [done|apply search_from_labelled|].
  intros x y Hx Hy Heq.
  assert (x = y) as ->.
  { apply Hinj; [apply Hmap, elem_of_app; by left
                |apply Hmap, elem_of_app; by right|done]. }
  rewrite fmap_app in Hnd. apply NoDup_app in Hnd as (_ & Hno & _).
  apply (Hno (blob_key y)); by apply list_elem_of_fmap_2.
Qed.

Lemma stored_fold (rest visited_blobs : list blob) (g : grouping) :
  grouping_inv m visited_blobs g -> stored h0 g ->
  (forall b, b ∈ rest -> m !! blob_key b = Some b) ->
  stored h0 (foldl (group_from palette m N) g rest).
Proof using Hkeyed Hinj.
  revert visited_blobs g.
  induction rest as [|b rest IH]; intros visited_blobs g Hg Hs Hrest;
    [done|].
  cbn [foldl]. apply (IH (visited_blobs ++ [b])).
  - apply group_from_inv; [done..|]. apply Hrest. left.
  - eapply group_from_stored; [done..|]. apply Hrest. left.
  - intros x Hx. apply Hrest. by right.
Qed.

Lemma group_from_coloured (g : grouping) (b : blob) :
  Forall (coloured palette) (groups g) ->
  Forall (coloured palette) (groups (group_from palette m N g b)).
Proof using Type.
  intros Hg. destruct (decide (blob_key b ∈ seen g)) as [Hold|Hnew].
  { unfold group_from. by rewrite decide_True. }
  rewrite group_from_unseen by done. cbn [groups].
  apply Forall_app. split; [done|]. by constructor; [|constructor].
Qed.

Lemma coloured_fold (l : list blob) (g : grouping) :
  Forall (coloured palette) (groups g) ->
  Forall (coloured palette) (groups (foldl (group_from palette m N) g l)).
Proof using Type.
  revert g. induction l as [|b l IH]; intros g Hg; [done|].
  cbn [foldl]. by apply IH, group_from_coloured.
Qed.
End StoreFacts.

Section DressFacts.
Import Js BlobVisualizer.

Lemma NoDup_fmap_eq {A B} (f : A -> B) (l : list A) (x y : A) :
  NoDup (f <$> l) -> x ∈ l -> y ∈ l -> f x = f y -> x = y.
Proof.
  induction l as [|a l IH]; intros Hnd Hx Hy Heq;
    [by apply elem_of_nil in Hx|].
  rewrite fmap_cons in Hnd. apply NoDup_cons in Hnd as [Ha Hnd].
  apply elem_of_cons in Hx as [->|Hx], Hy as [->|Hy]; [done| | |by apply IH].
  - exfalso. apply Ha. rewrite Heq. by apply list_elem_of_fmap_2.
  - exfalso. apply Ha. rewrite <- Heq. by apply list_elem_of_fmap_2.
Qed.

(** After [identifyOrganismGroups] every member of an organism carries
    the organism's id; the other fields of the blobs are untouched. *)
Lemma grouped_stored (game : GameOfLife.t) (v : t) :
  consistent v -> NoDup (handle <$> blobs v) ->
  stored (heap v) (grouped game v).
Proof.
  intros (Hnd & Hagree & Hkeyed) Hhandles. unfold grouped.
  apply (stored_fold _ _ _ _ Hkeyed) with (visited_blobs := []).
  - intros a b Ha Hb. apply (NoDup_fmap_eq handle (blobs v)); [done|..];
      by apply Hagree.
  - apply grouping_inv_initial.
  - split; [by intros o b ?%elem_of_nil|done].
  - intros b Hb. by apply Hagree.
Qed.

Lemma grouped_coloured (game : GameOfLife.t) (v : t) :
  Forall (coloured (blobColors v)) (groups (grouped game v)).
Proof. unfold grouped. apply coloured_fold. constructor. Qed.

Lemma with_blob_fresh (x y : Z) (v : t) : fresh v -> fresh (with_blob x y v).
Proof.
  intros [Hnd Hall]. unfold fresh, with_blob. cbn. rewrite fmap_app. cbn.
  split.
  - apply NoDup_app. split_and!; [done| |apply NoDup_singleton].
    intros n (b & Heq & Hb)%list_elem_of_fmap Hn%list_elem_of_singleton.
    destruct (Hall b Hb) as [Hlt _]. lia.
  - intros b [Hb| ->%list_elem_of_singleton]%elem_of_app.
    + destruct (Hall b Hb) as [Hlt Hheap]. split; [lia|].
      rewrite lookup_insert_ne by lia. done.
    + cbn. split; [lia|]. apply lookup_insert_eq.
Qed.

Lemma createBlobs_loops_fresh (game : GameOfLife.t) (v0 : t) :
  square (GameOfLife.size game) (GameOfLife.grid game) ->
  blobs v0 = [] ->
  exists v, create_all game v0 = (Normal tt, v) /\ fresh v.
Proof.
  intros Hsq Hblobs. unfold create_all. cbv zeta.
  set (N := GameOfLife.size game) in *.
  rewrite (forM_product (create_cell (GameOfLife.grid game))).
  fold (scan_order N).
  destruct (foldM_invariant
    (fun (_ : unit) (p : Z * Z) => create_cell (GameOfLife.grid game) p.1 p.2)
    (fun _ _ v => fresh v)
    (scan_order N) tt v0) as ([] & v & Hrun & Hv).
  - unfold fresh. rewrite Hblobs. split; [constructor|].
    by intros b ?%elem_of_nil.
  - intros visited [y x] rest [] v Hscan Hfresh.
    apply scan_order_fresh in Hscan as (_ & Hx & Hy).
    cbn [fst snd] in *. unfold create_cell, bind at 1.
    rewrite (read2_inside N) by done. rewrite strict_eq_int.
    case_bool_decide as Halive.
    + exists tt, (with_blob x y v). split; [done|]. by apply with_blob_fresh.
    + by exists tt, v.
  - by exists v.
Qed.
End DressFacts.

Section SettleFacts.
Import Js BlobVisualizer.

Lemma connected_nonempty (m : gmap string blob) (N : Z) (o : organism) :
  connected m N o -> members o <> [].
Proof. intros (seed & Hhead & _) Hnil. by rewrite Hnil in Hhead. Qed.

Lemma grouped_ids (game : GameOfLife.t) (v : t) :
  consistent v ->
  id <$> groups (grouped game v)
  = Z.of_nat <$> seq 0 (length (groups (grouped game v))).
Proof. intros Hv. by pose proof (grouped_inv game v Hv) as (_&_&_&_&?&_). Qed.

Lemma ids_NoDup (gs : list organism) :
  id <$> gs = Z.of_nat <$> seq 0 (length gs) -> NoDup (id <$> gs).
Proof.
  intros ->. apply NoDup_fmap_2; [apply _|apply NoDup_seq].
Qed.

(** [createBlobs], started in any state, leaves the visualizer built for
    the grid of [game]. *)
Lemma createBlobs_settles (game : GameOfLife.t) (v : t) :
  square (GameOfLife.size game) (GameOfLife.grid game) ->
  exists v',
    createBlobs game v = (Normal tt, v')
    /\ (isAnimating v = false -> pendingChanges v = None -> settled game v')
    /\ blobColors v' = blobColors v
    /\ pendingChanges v' = pendingChanges v
    /\ isAnimating v' = isAnimating v
    /\ chains v' = chains v
    /\ Forall (coloured (blobColors v)) (organismGroups v')
    /\ id <$> organismGroups v'
       = Z.of_nat <$> seq 0 (length (organismGroups v'))
    /\ Forall (fun o => members o <> []) (organismGroups v').
Proof.
  intros Hsq. set (N := GameOfLife.size game) in *.
  set (v0 := set_metaballsMap (fun _ => ∅) (set_blobsMap (fun _ => ∅)
               (set_blobs (fun _ => []) (set_children (fun _ => []) v)))).
  destruct (createBlobs_loops game N eq_refl Hsq v0 eq_refl eq_refl)
    as (vl & Hloops & Hcons & Hcells & Hframe).
  destruct (createBlobs_loops_fresh game v0 Hsq eq_refl)
    as (vl' & Hloops' & Hfresh).
  rewrite Hloops in Hloops'. injection Hloops' as <-.
  set (vi := set_organismGroups (groups (grouped game vl))
               (set_heap (fun _ => store (grouped game vl))
                  (set_organismGroups [] vl))).
  pose proof (grouped_ids game vl Hcons) as Hids.
  destruct (metaballs_created vi (ids_NoDup _ Hids))
    as (v' & Hmeta & Heach & Honly & Hbooks & Hnext).
  exists v'.
  assert (createBlobs game v = (Normal tt, v')) as ->.
  { change (createBlobs game v)
      with (bind (create_all game) (fun _ =>
              bind (identifyOrganismGroups game)
                   (fun _ => createMetaballOrganisms)) v0).
    unfold bind at 1. rewrite Hloops.
    unfold bind at 1. rewrite identifyOrganismGroups_run. apply Hmeta. }
  pose proof Hbooks as Hbooks'. unfold books in Hbooks'.
  injection Hbooks' as Hc Hb Hm Hg Hp Ha Hh Hch.
  cbn [vi blobColors blobs blobsMap organismGroups pendingChanges
       isAnimating heap chains set_organismGroups set_heap] in *.
  destruct Hframe as (Fc & Fg & Fp & Fa & Fch).
  pose proof (grouped_connected game vl) as Hconn.
  assert (Forall (fun o => members o <> []) (groups (grouped game vl)))
    as Hfull.
  { eapply Forall_impl; [exact Hconn|]. intros o. apply connected_nonempty. }
  split; [done|]. split_and!.
  - intros Hidle Hnone. destruct Hfresh as [Hnd Hdressed].
    pose proof (grouped_partition game vl Hcons) as Hperm.
    pose proof (grouped_stored game vl Hcons Hnd) as [Hstored _].
    unfold settled. split_and!.
    + by apply (consistent_books vl).
    + unfold blobs_of_cells. by rewrite Hb.
    + apply (up_to_date_books game vi); [done|].
      apply grouped_after_identify.
    + by rewrite Hb.
    + intros b Hb'. rewrite Hb in Hb'. destruct (Hdressed b Hb') as [Hlt _].
      cbn in Hnext. lia.
    + intros o b Ho Hbo. rewrite Hg in Ho. rewrite Hh, (Hstored o b Ho Hbo).
      assert (b ∈ blobs vl) as Hbl.
      { rewrite <- Hperm. apply elem_of_all_members. by exists o. }
      destruct (Hdressed b Hbl) as [_ ->]. done.
    + intros o Ho. rewrite Hg in Ho.
      destruct (Heach o Ho) as (h & Hh' & _); [|by exists h].
      rewrite Forall_forall in Hfull. by apply Hfull.
    + intros i mb Hmb. destruct (Honly i mb Hmb) as (Hin & Hid & _).
      by rewrite Hg.
    + by rewrite Ha, Fa.
    + by rewrite Hp, Fp.
  - by rewrite Hc.
  - by rewrite Hp.
  - by rewrite Ha.
  - by rewrite Hch.
  - rewrite Hg. assert (blobColors vl = blobColors v) as <- by (by rewrite Fc).
    apply grouped_coloured.
  - by rewrite Hg.
  - by rewrite Hg.
Qed.

Lemma palette_colour (c : colors) (k : nat) :
  index (initMaterials c) (rem (Z.of_nat k) (Z.of_nat (length (initMaterials c))))
  = initMaterials c !! (k mod 6)%nat.
Proof.
  assert (Z.of_nat (length (initMaterials c)) = 6) as -> by done.
  unfold rem. change (6 =? 0) with false. cbv iota. unfold index.
  rewrite Z.rem_mod_nonneg by lia.
  pose proof (Z.mod_pos_bound (Z.of_nat k) 6 ltac:(lia)) as Hb.
  destruct (Z.ltb_spec (Z.of_nat k `mod` 6) 0); [lia|].
  f_equal. rewrite <- (Nat2Z.id (k mod 6)), Nat2Z.inj_mod. done.
Qed.

(** The visualizer that the constructor builds for an N x N grid is at
    rest on that grid; the organism in position k of [organismGroups]
    has id k, is not empty and has the colour k mod 6 of the palette. *)
Theorem constructor_settles (game : GameOfLife.t) (c : colors) :
  square (GameOfLife.size game) (GameOfLife.grid game) ->
  exists v,
    constructor game c = (Normal tt, v)
    /\ settled game v
    /\ chains v = []
    /\ forall (k : nat) o, organismGroups v !! k = Some o ->
         id o = Z.of_nat k /\ members o <> []
         /\ color o = initMaterials c !! (k mod 6)%nat.
Proof.
  intros Hsq.
  destruct (createBlobs_settles game (initial c) Hsq)
    as (v & Hrun & Hsettled & _ & _ & _ & Hch & Hcol & Hids & Hfull).
  exists v. split; [done|]. split; [by apply Hsettled|]. split; [done|].
  intros k o Hk.
  assert (id o = Z.of_nat k) as Hid.
  { assert ((id <$> organismGroups v) !! k = Some (id o)) as Hlook
      by (by rewrite list_lookup_fmap, Hk).
    rewrite Hids, list_lookup_fmap in Hlook.
    pose proof (lookup_lt_Some _ _ _ Hk) as Hlt.
    rewrite lookup_seq_lt in Hlook by done. by injection Hlook. }
  split; [done|]. split.
  - rewrite Forall_forall in Hfull. apply Hfull.
    by eapply list_elem_of_lookup_2.
  - rewrite Forall_forall in Hcol.
    rewrite (Hcol o (list_elem_of_lookup_2 _ _ _ Hk)), Hid.
    apply palette_colour.
Qed.

Lemma constructor_settles_witness :
  exists v,
    constructor blinker_start palette = (Normal tt, v)
    /\ settled blinker_start v
    /\ chains v = []
    /\ forall (k : nat) o, organismGroups v !! k = Some o ->
         id o = Z.of_nat k /\ members o <> []
         /\ color o = initMaterials palette !! (k mod 6)%nat.
Proof.
  apply (constructor_settles blinker_start palette).
  apply blinker_start_square.
Defined.

(** What [resetBlobs] leaves behind. *)
Lemma resetBlobs_rebuilds (game : GameOfLife.t) (v0 : t) :
  square (GameOfLife.size game) (GameOfLife.grid game) ->
  exists v,
    resetBlobs game v0 = (Normal tt, v)
    /\ settled game v
    /\ chains v = chains v0
    /\ blobColors v = blobColors v0.
Proof.
  intros Hsq.
  set (v1 := set_metaballsMap (fun _ => ∅) (set_isAnimating false
               (set_pendingChanges None (set_organismGroups []
                  (set_blobsMap (fun _ => ∅) (set_blobs (fun _ => [])
                     (set_children (fun _ => []) v0))))))).
  destruct (createBlobs_settles game v1 Hsq)
    as (v & Hrun & Hsettled & Hc & _ & _ & Hch & _).
  exists v. split; [|by split_and!; [apply Hsettled|..]].
  change (resetBlobs game v0) with (createBlobs game v1). done.
Qed.

(** [resetBlobs] rebuilds the visualizer for the grid of [game] from any
    state, even in the middle of a transition: the flags are cleared and
    the result is at rest on the grid. It does not cancel what a
    transition in flight has scheduled: the promise chains stay. *)
Theorem resetBlobs_settles (game : GameOfLife.t) (v0 : t) :
  square (GameOfLife.size game) (GameOfLife.grid game) ->
  exists v,
    resetBlobs game v0 = (Normal tt, v)
    /\ settled game v
    /\ chains v = chains v0
    /\ blobColors v = blobColors v0.
Proof. apply resetBlobs_rebuilds. Qed.

Lemma resetBlobs_settles_witness :
  exists v,
    resetBlobs blinker_start
      (updateBlobs blinker_start (GameOfLife.grid blinker_start)
         horizontal_grid blinker_view).2 = (Normal tt, v)
    /\ settled blinker_start v
    /\ chains v
       = chains (updateBlobs blinker_start (GameOfLife.grid blinker_start)
                   horizontal_grid blinker_view).2
    /\ blobColors v
       = blobColors (updateBlobs blinker_start (GameOfLife.grid blinker_start)
                       horizontal_grid blinker_view).2.
Proof.
  apply (resetBlobs_settles blinker_start).
  apply blinker_start_square.
Defined.
End SettleFacts.

Section NearbyFacts.
Import Js BlobVisualizer.
Context (v : t) (N x y : Z).


Lemma find_organism_first (gs : list organism) (o : organism) :
  NoDup (id <$> gs) -> o ∈ gs -> find_organism gs (id o) = Some o.
Proof.
  intros Hnd Ho. unfold find_organism.
  destruct (list_find (fun org => id org = id o) gs) as [[k o']|] eqn:Hk.
  - cbn. f_equal. apply list_find_Some in Hk as (Hk & Hid & _).
    apply (NoDup_fmap_eq id gs); [done| |done..].
    by eapply list_elem_of_lookup_2.
  - apply list_find_None in Hk. rewrite Forall_forall in Hk.
    by destruct (Hk o Ho).
Qed.



End NearbyFacts.

Section NearbyClaims.
Import Js BlobVisualizer.




End NearbyClaims.

Section ExtendedFacts.
Import Js BlobVisualizer.

Lemma extended_step (N : Z) (cur nxt : list (list Z)) (v0 : t)
    (c c' : changes) (x y : Z) (v v' : t) :
  square N cur -> square N nxt -> 0 <= x < N -> 0 <= y < N ->
  prepare_cell cur nxt c y x v = (Normal c', v') ->
  extended v0 c v -> extended v0 c' v'.
Proof.
  intros Hcur Hnxt Hx Hy Hrun (Hle & Hold & Hnew & Hnd).
  rewrite (prepare_cell_run N cur nxt Hcur Hnxt) in Hrun by done.
  repeat case_decide; injection Hrun as <- <-; try done.
  unfold extended, with_new_blob.
  cbn [next_handle heap newBlobs set_children set_heap set_next_handle].
  split_and!.
  - lia.
  - intros n Hn. rewrite lookup_insert_ne by lia. by apply Hold.
  - intros b [Hb| ->%list_elem_of_singleton]%elem_of_app.
    + specialize (Hnew b Hb). lia.
    + cbn. lia.
  - rewrite fmap_app. apply NoDup_app. split_and!;
      [done| |apply NoDup_singleton].
    intros n (b & Heq & Hb)%list_elem_of_fmap Hn%list_elem_of_singleton.
    specialize (Hnew b Hb). cbn in Hn. lia.
Qed.

(** All that is known after [prepareNextGeneration] has returned
    [true]. *)
Lemma prepare_facts (game : GameOfLife.t) (N : Z) (cur nxt : list (list Z))
    (v0 : t) :
  GameOfLife.size game = N -> square N cur -> square N nxt ->
  isAnimating v0 = false ->
  exists c v1,
    prepareNextGeneration game cur nxt v0
      = (Normal true, set_pendingChanges (Some c) v1)
    /\ prepared cur nxt v0 (scan_order N) c v1
    /\ classified cur nxt v0 (scan_order N) c v1
    /\ extended v0 c v1.
Proof.
  intros Hsize Hcur Hnxt Hidle.
  destruct (foldM_invariant
    (fun c (p : Z * Z) => prepare_cell cur nxt c p.1 p.2)
    (fun visited c v => prepared cur nxt v0 visited c v
                        /\ classified cur nxt v0 visited c v
                        /\ extended v0 c v)
    (scan_order N) no_changes v0) as (c & v1 & Hrun & Hv & Hcl & Hex).
  - split; [apply prepared_initial|]. split; [by split_and!|].
    unfold extended. cbn. split_and!; [lia|done| |constructor].
    by intros b ?%elem_of_nil.
  - intros visited [y x] rest c v Hscan (Hprep & Hcl & Hex).
    apply scan_order_fresh in Hscan as (Hfresh & Hx & Hy).
    cbn [fst snd] in *.
    destruct (classified_step N cur nxt v0 visited c x y v
                Hcur Hnxt Hfresh Hx Hy Hprep Hcl)
      as (c' & v' & Hrun & Hprep' & Hcl').
    exists c', v'. split; [done|]. split; [done|]. split; [done|].
    by apply (extended_step N cur nxt v0 c c' x y v v').
  - exists c, v1. split; [|done].
    unfold prepareNextGeneration, bind at 1, get. rewrite Hidle, Hsize.
    unfold bind at 1.
    rewrite (foldM_product (prepare_cell cur nxt)).
    fold (scan_order N). by rewrite Hrun.
Qed.

Lemma without_blobs_frame (l : list blob) (v : t) :
  next_handle (foldl (fun v b => without_blob b v) v l) = next_handle v
  /\ blobs (foldl (fun v b => without_blob b v) v l) `sublist_of` blobs v.
Proof.
  revert v. induction l as [|d l IH]; intros v; [done|]. cbn [foldl].
  destruct (IH (without_blob d v)) as [-> Hsub]. split; [done|].
  etrans; [exact Hsub|]. unfold without_blob. read_fields.
  apply sublist_filter.
Qed.

Lemma with_added_blobs_frame (l : list blob) (v : t) :
  next_handle (foldl (fun v b => with_added_blob b v) v l) = next_handle v.
Proof.
  revert v. induction l as [|d l IH]; intros v; [done|]. cbn [foldl].
  by rewrite IH.
Qed.

Lemma shown_heap (l : list blob) (v : t) (n : nat) :
  heap (foldl (fun v b => shown b v) v l) !! n
  = if decide (n ∈ handle <$> l) then set_visible true <$> heap v !! n
    else heap v !! n.
Proof.
  revert v. induction l as [|d l IH]; intros v.
  - cbn. rewrite decide_False; [done|]. apply not_elem_of_nil.
  - cbn [foldl]. rewrite IH. unfold shown. read_fields.
    rewrite fmap_cons.
    destruct (decide (n = handle d)) as [->|Hne].
    + rewrite lookup_alter_eq.
      rewrite (decide_True (P := handle d ∈ handle d :: _)) by left.
      case_decide; [|done]. by destruct (heap v !! handle d).
    + rewrite lookup_alter_ne by done.
      destruct (decide (n ∈ handle <$> l)) as [Hin|Hout].
      * by rewrite decide_True by (by right).
      * rewrite decide_False; [done|].
        intros [?|?]%elem_of_cons; done.
Qed.

Lemma shown_frame (l : list blob) (v : t) :
  next_handle (foldl (fun v b => shown b v) v l) = next_handle v
  /\ metaballsMap (foldl (fun v b => shown b v) v l) = metaballsMap v.
Proof.
  revert v. induction l as [|d l IH]; intros v; [done|]. cbn [foldl].
  by destruct (IH (shown d v)) as [-> ->].
Qed.

Lemma cleared_heap (l : list blob) (v : t) (n : nat) :
  heap (foldl (fun v b =>
          set_heap (alter (set_isNew false) (handle b)) v) v l) !! n
  = if decide (n ∈ handle <$> l) then set_isNew false <$> heap v !! n
    else heap v !! n.
Proof.
  revert v. induction l as [|d l IH]; intros v.
  - cbn. rewrite decide_False; [done|]. apply not_elem_of_nil.
  - cbn [foldl]. rewrite IH. read_fields.
    rewrite fmap_cons.
    destruct (decide (n = handle d)) as [->|Hne].
    + rewrite lookup_alter_eq.
      rewrite (decide_True (P := handle d ∈ handle d :: _)) by left.
      case_decide; [|done]. by destruct (heap v !! handle d).
    + rewrite lookup_alter_ne by done.
      destruct (decide (n ∈ handle <$> l)) as [Hin|Hout].
      * by rewrite decide_True by (by right).
      * rewrite decide_False; [done|].
        intros [?|?]%elem_of_cons; done.
Qed.

Lemma cleared_frame (l : list blob) (v : t) :
  let v' := foldl (fun v b =>
              set_heap (alter (set_isNew false) (handle b)) v) v l in
  next_handle v' = next_handle v /\ metaballsMap v' = metaballsMap v
  /\ ledger v' = ledger v.
Proof.
  revert v. induction l as [|d l IH]; intros v; [done|]. cbn [foldl].
  cbv zeta in IH. by destruct (IH (set_heap (alter (set_isNew false) (handle d)) v))
    as (-> & -> & ->).
Qed.
End ExtendedFacts.

Section PhaseFacts.
Import Js BlobVisualizer.

Lemma settled_members (game : GameOfLife.t) (v : t) (b : blob) :
  consistent v -> up_to_date game v -> b ∈ blobs v ->
  exists o, o ∈ organismGroups v /\ b ∈ members o.
Proof.
  intros Hcons Hup Hb. pose proof (grouped_partition game v Hcons) as Hperm.
  rewrite <- Hup in Hperm. rewrite <- Hperm in Hb.
  by apply elem_of_all_members in Hb.
Qed.

Lemma organism_members (game : GameOfLife.t) (v : t) (o : organism) (b : blob) :
  consistent v -> up_to_date game v -> o ∈ organismGroups v ->
  b ∈ members o -> b ∈ blobs v.
Proof.
  intros Hcons Hup Ho Hb. pose proof (grouped_partition game v Hcons) as Hperm.
  rewrite <- Hup in Hperm. rewrite <- Hperm.
  apply elem_of_all_members. by exists o.
Qed.

(** The first callback of a transition that was prepared on a visualizer
    at rest, run on a visualizer [v] whose blobs are as the preparation
    left them: the result is the visualizer of the next grid, growing. *)
Lemma regroup_grows (game : GameOfLife.t) (nxt : list (list Z))
    (v0 v1 v : t) (c : changes) :
  square (GameOfLife.size game) (GameOfLife.grid game) ->
  binary (GameOfLife.grid game) ->
  square (GameOfLife.size game) nxt -> binary nxt ->
  settled game v0 ->
  prepareNextGeneration game (GameOfLife.grid game) nxt v0 = (Normal true, v1) ->
  pendingChanges v1 = Some c ->
  blobColors v = blobColors v1 -> blobs v = blobs v1 ->
  blobsMap v = blobsMap v1 -> heap v = heap v1 ->
  (next_handle v1 <= next_handle v)%nat -> isAnimating v = true ->
  exists v',
    regroup (GameOfLife.set_grid nxt game) c v = (Normal tt, v')
    /\ growing (GameOfLife.set_grid nxt game) v'
    /\ chains v' = chains v /\ pendingChanges v' = pendingChanges v
    /\ blobColors v' = blobColors v.
Proof.
  intros Hcur Hbc Hnxt Hbn
    (Hcons0 & Hcells0 & Hup0 & Hnd0 & Hlt0 & Hheap0 & _ & _ & Hidle0 & _)
    Hprep Hpending Hvc Hvb Hvm Hvh Hvn Hbusy.
  set (N := GameOfLife.size game) in *.
  set (cur := GameOfLife.grid game) in *.
  set (game' := GameOfLife.set_grid nxt game).
  destruct (prepare_facts game N cur nxt v0 eq_refl Hcur Hnxt Hidle0)
    as (c' & v1' & Hprep' & Hprepared & _ & Hle & Hkeep & Hnew & Hndnew).
  rewrite Hprep in Hprep'. injection Hprep' as ->.
  injection Hpending as <-.
  cbn [blobColors blobs blobsMap heap next_handle set_pendingChanges]
    in Hvc, Hvb, Hvm, Hvh, Hvn.
  pose proof Hprepared as (Hb1 & Hm1 & (Hc1 & _) & Hhidden & _).
  rewrite Hb1 in Hvb. rewrite Hm1 in Hvm. rewrite Hc1 in Hvc.
  destruct (bookkeeping_follows_grid N cur nxt v0 v1' v c')
    as [Hconsb Hcellsb]; [done..|].
  destruct (without_blobs (blobsToRemove c') v) as (Hba & _ & _ & Hha & Hua).
  destruct (without_blobs_frame (blobsToRemove c') v) as [Hna Hsuba].
  set (va := foldl (fun v b => without_blob b v) v (blobsToRemove c')) in *.
  destruct (with_added_blobs (newBlobs c') va) as (Hbb & _ & _ & Hhb & Hub).
  pose proof (with_added_blobs_frame (newBlobs c') va) as Hnb.
  set (vb := foldl (fun v b => with_added_blob b v) va (newBlobs c')) in *.
  set (vi := set_organismGroups (groups (grouped game' vb))
               (set_heap (fun _ => store (grouped game' vb))
                  (set_organismGroups [] vb))).
  pose proof (grouped_ids game' vb Hconsb) as Hids.
  destruct (metaballs_created vi (ids_NoDup _ Hids))
    as (vm & Hmeta & Heach & Honly & Hbooks & Hnm).
  destruct (shown_blobs (newBlobs c') vm) as (_ & Hshown).
  destruct (shown_frame (newBlobs c') vm) as [Hng Hmg'].
  pose proof (shown_heap (newBlobs c') vm) as Hheapg.
  set (vg := foldl (fun v b => shown b v) vm (newBlobs c')) in *.
  exists vg. split.
  { unfold regroup.
    rewrite (bind_run _ _ v va tt) by apply remove_dying_run.
    rewrite (bind_run _ _ va vb tt) by apply add_new_run.
    rewrite (bind_run _ _ vb vi tt) by apply identifyOrganismGroups_run.
    rewrite (bind_run _ _ vi vm tt) by done.
    apply start_grow_run. }
  unfold books in Hshown, Hbooks.
  injection Hshown as Hgc Hgb Hgm Hgg Hgp Hga Hgch.
  injection Hbooks as Hmc Hmb Hmm Hmg Hmp Hma Hmh Hmch.
  cbn [vi blobColors blobs blobsMap organismGroups pendingChanges
       isAnimating heap chains next_handle set_organismGroups set_heap]
    in Hmc, Hmb, Hmm, Hmg, Hmp, Hma, Hmh, Hmch, Hnm.
  cbn [blobColors blobs blobsMap organismGroups pendingChanges
       isAnimating heap chains set_heap] in Hgc, Hgb, Hgm, Hgg, Hgp, Hga, Hgch.
  destruct Hua as (Uac & Uag & Uap & Uaa & Uach).
  destruct Hub as (Ubc & Ubg & Ubp & Uba & Ubch).
  assert (blobs vg = blobs vb) as Ebl by (etrans; [exact Hgb|exact Hmb]).
  assert (blobsMap vg = blobsMap vb) as Emap by (etrans; [exact Hgm|exact Hmm]).
  assert (organismGroups vg = groups (grouped game' vb)) as Egr
    by (etrans; [exact Hgg|exact Hmg]).
  assert (blobColors vg = blobColors vb) as Ecol
    by (etrans; [exact Hgc|exact Hmc]).
  assert (heap vb = heap v1') as Eheap.
  { etrans; [exact Hhb|]. etrans; [exact Hha|exact Hvh]. }
  (* the blobs that stay are blobs of [v0]; the others are new *)
  assert (forall b, b ∈ blobs vb ->
            (b ∈ blobs v0 /\ (handle b < next_handle v0)%nat)
            \/ b ∈ newBlobs c') as Hkind.
  { intros b. rewrite Hbb. intros [Hb|Hb]%elem_of_app; [left|by right].
    apply Hba in Hb as [Hb _]. rewrite Hvb in Hb. split; [done|].
    by apply Hlt0. }
  assert (NoDup (handle <$> blobs vb)) as Hndb.
  { rewrite Hbb, fmap_app. apply NoDup_app. split_and!; [| |done].
    - apply sublist_NoDup with (handle <$> blobs v);
        [by rewrite Hvb|exact (fmap_sublist handle _ _ Hsuba)].
    - intros n (b & -> & Hb)%list_elem_of_fmap
        (b' & Heq & Hb')%list_elem_of_fmap.
      apply Hba in Hb as [Hb _]. rewrite Hvb in Hb.
      specialize (Hlt0 b Hb). specialize (Hnew b' Hb'). lia. }
  assert (next_handle v1' <= next_handle vg)%nat as Hnext.
  { rewrite Hng. etrans; [|exact Hnm]. rewrite Hnb, Hna. exact Hvn. }
  split; [|split_and!].
  - unfold growing. split_and!.
    + by apply (consistent_books vb).
    + unfold blobs_of_cells. rewrite Ebl. exact Hcellsb.
    + unfold up_to_date. rewrite Egr. by apply grouped_books.
    + by rewrite Ebl.
    + intros b Hb. rewrite Ebl in Hb.
      destruct (Hkind b Hb) as [[_ Hlt]|Hb'];
        [|specialize (Hnew b Hb')]; lia.
    + intros o b Ho Hbo. rewrite Egr in Ho.
      pose proof (grouped_stored game' vb Hconsb Hndb) as [Hstored _].
      assert (b ∈ blobs vb) as Hb.
      { rewrite <- (grouped_partition game' vb Hconsb).
        apply elem_of_all_members. by exists o. }
      rewrite Hheapg, Hmh, (Hstored o b Ho Hbo), Eheap.
      destruct (Hkind b Hb) as [[Hb0 Hlt]|Hb'].
      * destruct (settled_members game v0 b Hcons0 Hup0 Hb0)
          as (o0 & Ho0 & Hbo0).
        rewrite (Hkeep _ Hlt), (Hheap0 o0 b Ho0 Hbo0).
        exists false. by case_decide.
      * destruct (Hhidden b Hb') as (_ & _ & _ & -> & _).
        exists true. rewrite decide_True by (by apply list_elem_of_fmap_2).
        done.
    + intros o Ho. rewrite Egr in Ho. rewrite Hmg'.
      destruct (Heach o Ho) as (h & Hh & _); [|by exists h].
      apply (connected_nonempty (blobsMap vb) (GameOfLife.size game')).
      pose proof (grouped_connected game' vb) as Hconn.
      rewrite Forall_forall in Hconn. by apply Hconn.
    + intros i mb Hlook. rewrite Hmg' in Hlook.
      destruct (Honly i mb Hlook) as (Hin & Hid & _). by rewrite Egr.
    + rewrite Hga, Hma, Uba, Uaa. exact Hbusy.
  - rewrite Hgch, Hmch, Ubch. exact Uach.
  - rewrite Hgp, Hmp, Ubp. exact Uap.
  - rewrite Ecol, Ubc. exact Uac.
Qed.
End PhaseFacts.

Section RestFacts.
Import Js BlobVisualizer.

Lemma up_to_date_frame (game : GameOfLife.t) (v v' : t) :
  blobColors v' = blobColors v -> blobs v' = blobs v ->
  blobsMap v' = blobsMap v -> organismGroups v' = organismGroups v ->
  up_to_date game v -> up_to_date game v'.
Proof.
  intros Hc Hb Hm Hg Hup. unfold up_to_date. rewrite Hg, Hup.
  by apply grouped_books.
Qed.

(** Every metaball of a visualizer whose metaballs are those of its
    organisms passes the test of [updateMetaballPositions]. *)
Lemma metaballs_kept (game : GameOfLife.t) (v : t) :
  consistent v -> up_to_date game v ->
  (forall i mb, metaballsMap v !! i = Some mb ->
     metaball_organism mb ∈ organismGroups v /\ id (metaball_organism mb) = i) ->
  filter (fun e => has_members (organismGroups v) e.1) (metaballsMap v)
  = metaballsMap v.
Proof.
  intros Hcons Hup Honly. apply map_filter_id. intros i mb Hmb.
  destruct (Honly i mb Hmb) as [Hin <-]. cbn [fst]. unfold has_members.
  pose proof (grouped_ids game v Hcons) as Hids. rewrite <- Hup in Hids.
  rewrite find_organism_first; [|by apply ids_NoDup|done].
  apply (connected_nonempty (blobsMap v) (GameOfLife.size game)).
  pose proof (grouped_connected game v) as Hconn. rewrite <- Hup in Hconn.
  rewrite Forall_forall in Hconn. by apply Hconn.
Qed.

Lemma settled_frame (game : GameOfLife.t) (v v' : t) :
  settled game v ->
  blobColors v' = blobColors v -> blobs v' = blobs v ->
  blobsMap v' = blobsMap v -> organismGroups v' = organismGroups v ->
  next_handle v' = next_handle v -> metaballsMap v' = metaballsMap v ->
  heap v' = heap v ->
  isAnimating v' = false -> pendingChanges v' = None ->
  settled game v'.
Proof.
  intros (Hcons & Hcells & Hup & Hnd & Hlt & Hheap & Heach & Honly & _ & _)
    Hc Hb Hm Hg Hn Hmm Hh Ha Hp.
  unfold settled. rewrite Hb, Hg, Hn, Hmm, Hh. split_and!; try done.
  - by apply (consistent_books v).
  - unfold blobs_of_cells. by rewrite Hb.
  - by apply (up_to_date_frame game v).
Qed.

Lemma growing_settles (game : GameOfLife.t) (v v' : t) :
  growing game v ->
  blobColors v' = blobColors v -> blobs v' = blobs v ->
  blobsMap v' = blobsMap v -> organismGroups v' = organismGroups v ->
  next_handle v' = next_handle v -> metaballsMap v' = metaballsMap v ->
  (forall n, heap v' !! n
             = if decide (n ∈ handle <$> blobs v)
               then set_isNew false <$> heap v !! n else heap v !! n) ->
  isAnimating v' = false -> pendingChanges v' = None ->
  settled game v'.
Proof.
  intros (Hcons & Hcells & Hup & Hnd & Hlt & Hheap & Heach & Honly & _)
    Hc Hb Hm Hg Hn Hmm Hh Ha Hp.
  unfold settled. rewrite Hb, Hg, Hn, Hmm. split_and!; try done.
  - by apply (consistent_books v).
  - unfold blobs_of_cells. by rewrite Hb.
  - by apply (up_to_date_frame game v).
  - intros o b Ho Hbo. rewrite Hh.
    rewrite decide_True.
    + by destruct (Hheap o b Ho Hbo) as [nw ->].
    + apply list_elem_of_fmap_2. by apply (organism_members game v o).
Qed.

(** On a visualizer at rest [updateMetaballPositions], and so
    [update], changes nothing that matters: the visualizer stays at
    rest. *)
Lemma settled_update (game : GameOfLife.t) (v : t) :
  settled game v ->
  exists v',
    updateMetaballPositions v = (Normal tt, v')
    /\ settled game v' /\ chains v' = chains v
    /\ blobColors v' = blobColors v.
Proof.
  intros Hs. pose proof Hs as (Hcons & _ & Hup & _ & _ & _ & _ & Honly & Ha & Hp).
  destruct (metaballs_pruned v) as (v' & Hrun & Hmm & _ & Hbooks & Hn).
  rewrite (metaballs_kept game v) in Hmm by done.
  unfold books in Hbooks.
  injection Hbooks as Hc Hb Hm Hg Hp' Ha' Hh Hch.
  exists v'. split; [done|]. split; [|done].
  apply (settled_frame game v); try done.
  - by rewrite Ha'.
  - by rewrite Hp'.
Qed.

(** The second callback of a transition brings the growing visualizer
    to rest. *)
Lemma finish_settles (game : GameOfLife.t) (v : t) :
  growing game v ->
  exists v',
    finish v = (Normal tt, v')
    /\ settled game v' /\ chains v' = chains v
    /\ blobColors v' = blobColors v.
Proof.
  intros Hgrow.
  set (v1 := foldl (fun v b =>
               set_heap (alter (set_isNew false) (handle b)) v) v (blobs v)).
  assert (foldM (fun (_ : unit) blob =>
             modify (set_heap (alter (set_isNew false) (handle blob))))
           tt (blobs v) v = (Normal tt, v1)) as Hclear
    by (by apply foldM_modify).
  destruct (cleared_frame (blobs v) v) as (Hn1 & Hmm1 & Hl1). fold v1 in Hn1, Hmm1, Hl1.
  pose proof (cleared_heap (blobs v) v) as Hh1. fold v1 in Hh1.
  unfold ledger in Hl1. injection Hl1 as Hc1 Hb1 Hm1 Hg1 Hp1 Ha1 Hch1.
  destruct (metaballs_pruned v1) as (v2 & Hupd & Hmm2 & _ & Hbooks & Hn2).
  unfold books in Hbooks.
  injection Hbooks as Hc2 Hb2 Hm2 Hg2 Hp2 Ha2 Hh2 Hch2.
  pose proof Hgrow as (Hcons & _ & Hup & _ & _ & _ & _ & Honly & _).
  assert (metaballsMap v2 = metaballsMap v) as Hmm.
  { rewrite Hmm2, Hg1, Hmm1. by apply (metaballs_kept game v). }
  exists (set_isAnimating false (set_pendingChanges None v2)).
  split.
  { unfold finish, bind at 1, get.
    rewrite (bind_run _ _ _ _ _ Hclear), (bind_run _ _ _ _ _ Hupd). done. }
  split; [|split].
  - apply (growing_settles game v); try done; read_fields.
    + by rewrite Hc2.
    + by rewrite Hb2.
    + by rewrite Hm2.
    + by rewrite Hg2.
    + by rewrite Hn2.
    + intros n. by rewrite Hh2, Hh1.
  - read_fields. by rewrite Hch2.
  - read_fields. by rewrite Hc2.
Qed.
End RestFacts.

Section StepFacts.
Import Js BlobVisualizer.

Lemma next_grid_valid (g : GameOfLife.t) :
  square (GameOfLife.size g) (next_grid g) /\ binary (next_grid g).
Proof.
  split; [apply square_tabulate|].
  apply (binary_tabulate (GameOfLife.size g)
           (next_cell (GameOfLife.size g) (GameOfLife.grid g))).
  intros x y. apply next_cell_binary.
Qed.

Lemma computeNextGeneration_next (g : GameOfLife.t) :
  valid_game g ->
  GameOfLife.computeNextGeneration g = (Normal (next_grid g), g).
Proof. intros [Hsq Hbin]. by apply computeNextGeneration_run. Qed.

(** [updateBlobs] on square grids never fails: it is rejected while an
    animation is in progress and accepted otherwise. *)
Lemma updateBlobs_run (game : GameOfLife.t) (cur nxt : list (list Z)) (v : t) :
  square (GameOfLife.size game) cur -> square (GameOfLife.size game) nxt ->
  exists v',
    updateBlobs game cur nxt v = (Normal (negb (isAnimating v)), v')
    /\ (isAnimating v = true -> v' = v)
    /\ (isAnimating v = false ->
        exists c v1,
          prepareNextGeneration game cur nxt v = (Normal true, v1)
          /\ pendingChanges v1 = Some c
          /\ chains v1 = chains v
          /\ v' = set_chains
                    (fun cs => cs ++ [AwaitShrink (blobsToRemove c) c])
                    (set_isAnimating true v1)).
Proof.
  intros Hcur Hnxt. destruct (isAnimating v) eqn:Hbusy.
  - exists v. split; [|by split].
    unfold updateBlobs.
    rewrite (bind_run _ _ _ _ _
      (prepareNextGeneration_busy game cur nxt v Hbusy)). reflexivity.
  - destruct (prepare_facts game _ cur nxt v eq_refl Hcur Hnxt Hbusy)
      as (c & v1 & Hprep & Hprepared & _).
    destruct Hprepared as (_ & _ & (_ & _ & _ & Hidle & Hch) & _).
    exists (set_chains (fun cs => cs ++ [AwaitShrink (blobsToRemove c) c])
              (set_isAnimating true (set_pendingChanges (Some c) v1))).
    split; [|split; [done|]].
    + unfold updateBlobs. rewrite (bind_run _ _ _ _ _ Hprep).
      rewrite (bind_run _ _ _ _ _
        (animateNextGeneration_run c (set_pendingChanges (Some c) v1)
           eq_refl ltac:(by rewrite <- Hbusy, <- Hidle))).
      reflexivity.
    + intros _. exists c, (set_pendingChanges (Some c) v1). by split_and!.
Qed.

Lemma step_run (cfg : App.config) (game : GameOfLife.t) (v v' : t)
    (paused b : bool) :
  valid_game game ->
  updateBlobs game (GameOfLife.grid game) (next_grid game) v = (Normal b, v') ->
  App.step (App.mk cfg game v paused)
  = (Normal tt, App.mk cfg (GameOfLife.set_grid (next_grid game) game) v' paused).
Proof.
  intros Hvalid Hupd. unfold App.step, bind at 1, App.on_game.
  cbn [App.game]. rewrite (computeNextGeneration_next game Hvalid).
  unfold bind at 1, get. unfold bind at 1, App.on_visualizer.
  cbn [App.game App.blobVisualizer App.set_game App.cfg App.isPaused].
  rewrite Hupd. reflexivity.
Qed.
End StepFacts.

Section OrderlyFacts.
Import Js BlobVisualizer.

Lemma settled_chains (game : GameOfLife.t) (f : list chain -> list chain)
    (v : t) :
  settled game v -> settled game (set_chains f v).
Proof. intros H. exact H. Qed.

Lemma growing_chains (game : GameOfLife.t) (f : list chain -> list chain)
    (v : t) :
  growing game v -> growing game (set_chains f v).
Proof. intros H. exact H. Qed.

Lemma shrinking_busy (game : GameOfLife.t) (v : t) :
  shrinking game v -> isAnimating v = true.
Proof.
  by intros (? & ? & ? & ? & ? & _ & _ & _ & _ & _ & _ & _ & _ & _ & _ & ? & _).
Qed.

Lemma growing_busy (game : GameOfLife.t) (v : t) :
  growing game v -> isAnimating v = true.
Proof. intros Hg. apply Hg. Qed.

(** A step taken at rest starts a transition. *)
Lemma orderly_step (cfg : App.config) (game : GameOfLife.t) (v : t)
    (paused : bool) :
  valid_game game -> settled game v -> chains v = [] ->
  exists v',
    App.step (App.mk cfg game v paused)
    = (Normal tt,
       App.mk cfg (GameOfLife.set_grid (next_grid game) game) v' paused)
    /\ orderly (App.mk cfg (GameOfLife.set_grid (next_grid game) game) v' paused)
    /\ isAnimating v' = true.
Proof.
  intros Hvalid Hs Hch. pose proof Hvalid as [Hsq Hbin].
  pose proof (next_grid_valid game) as [Hnsq Hnbin].
  assert (isAnimating v = false) as Hidle by apply Hs.
  destruct (updateBlobs_run game (GameOfLife.grid game) (next_grid game) v
              Hsq Hnsq) as (v' & Hupd & _ & Hacc).
  destruct (Hacc Hidle) as (c & v1 & Hprep & Hpending & Hch1 & ->).
  eexists. split; [by eapply step_run|]. split; [|done].
  destruct game as [N d g].
  split; [done|]. right. left.
  exists g, v, v1, c, (blobsToRemove c).
  split; [exact Hsq|]. split; [exact Hbin|]. split; [exact Hs|].
  split; [exact Hprep|]. split; [done|].
  cbn [App.blobVisualizer]. read_fields. split_and!; try done.
  by rewrite Hch1, Hch.
Qed.

(** An animation frame. *)
Lemma orderly_frame (app : App.t) (elapsed : bool) :
  orderly app ->
  exists app', App.animate elapsed app = (Normal tt, app') /\ orderly app'.
Proof.
  destruct app as [cfg game v paused].
  intros [Hvalid [[Hs Hch]|Hbusy]].
  - assert (isAnimating v = false) as Hidle by apply Hs.
    unfold App.animate, bind at 1, get.
    cbn [App.isPaused App.blobVisualizer]. rewrite Hidle. cbn [negb].
    destruct (negb paused && true && elapsed) eqn:Hcond.
    + destruct (orderly_step cfg game v paused Hvalid Hs Hch)
        as (v' & Hstep & Hord & Hbusy).
      rewrite (bind_run _ _ _ _ _ Hstep).
      exists (App.mk cfg (GameOfLife.set_grid (next_grid game) game) v' paused).
      split; [|done].
      unfold App.on_visualizer, update, bind, get.
      cbn [App.game App.blobVisualizer]. by rewrite Hbusy.
    + unfold bind at 1, ret.
      destruct (settled_update game v Hs) as (v' & Hupd & Hs' & Hch' & _).
      exists (App.mk cfg game v' paused). split.
      * unfold App.on_visualizer, update, bind, get.
        cbn [App.game App.blobVisualizer]. by rewrite Hidle, Hupd.
      * split; [done|]. left. split; [done|].
        cbn [App.blobVisualizer]. by rewrite Hch'.
  - cbn [App.game App.blobVisualizer] in Hbusy.
    assert (isAnimating v = true) as Ha.
    { destruct Hbusy as [Hshrink|(w & Hg & _)];
        [by apply (shrinking_busy game)|by apply (growing_busy game)]. }
    exists (App.mk cfg game v paused). split.
    + unfold App.animate, bind at 1, get.
      cbn [App.isPaused App.blobVisualizer].
      rewrite Ha. cbn [negb]. rewrite andb_false_r. cbn [andb].
      unfold bind at 1, ret. unfold App.on_visualizer, update, bind, get.
      cbn [App.game App.blobVisualizer]. by rewrite Ha.
    + split; [done|]. by right.
Qed.

(** The metaballs are rebuilt, as the timer of [updateBlobSettings]
    does: a visualizer at rest stays at rest. *)
Lemma settled_metaballs (game : GameOfLife.t) (v : t) :
  settled game v ->
  exists v',
    createMetaballOrganisms v = (Normal tt, v')
    /\ settled game v' /\ chains v' = chains v.
Proof.
  intros (Hcons & Hcells & Hup & Hnd & Hlt & Hheap & _ & _ & Ha & Hp).
  pose proof (grouped_ids game v Hcons) as Hids. rewrite <- Hup in Hids.
  destruct (metaballs_created v (ids_NoDup _ Hids))
    as (v' & Hrun & Heach & Honly & Hbooks & Hnext).
  pose proof Hbooks as Hbooks'. unfold books in Hbooks'.
  injection Hbooks' as Hc' Hb' Hm' Hg' Hp' Ha' Hh' Hch'.
  exists v'. split; [done|]. split; [|done].
  unfold settled. rewrite Hb', Hg', Hh', Ha', Hp'. split_and!; try done.
  - by apply (consistent_books v).
  - unfold blobs_of_cells. by rewrite Hb'.
  - by apply (up_to_date_books game v).
  - intros b Hb. specialize (Hlt b Hb). lia.
  - intros o Ho. destruct (Heach o Ho) as (h & Hh & _); [|by exists h].
    apply (connected_nonempty (blobsMap v) (GameOfLife.size game)).
    pose proof (grouped_connected game v) as Hconn. rewrite <- Hup in Hconn.
    rewrite Forall_forall in Hconn. by apply Hconn.
  - intros i mb Hmb. by destruct (Honly i mb Hmb) as (Hin & Hid & _).
Qed.

(** The same between the two callbacks of a transition. *)
Lemma growing_metaballs (game : GameOfLife.t) (v : t) :
  growing game v ->
  exists v',
    createMetaballOrganisms v = (Normal tt, v')
    /\ growing game v' /\ chains v' = chains v.
Proof.
  intros (Hcons & Hcells & Hup & Hnd & Hlt & Hheap & _ & _ & Ha).
  pose proof (grouped_ids game v Hcons) as Hids. rewrite <- Hup in Hids.
  destruct (metaballs_created v (ids_NoDup _ Hids))
    as (v' & Hrun & Heach & Honly & Hbooks & Hnext).
  pose proof Hbooks as Hbooks'. unfold books in Hbooks'.
  injection Hbooks' as Hc' Hb' Hm' Hg' Hp' Ha' Hh' Hch'.
  exists v'. split; [done|]. split; [|done].
  unfold growing. rewrite Hb', Hg', Hh', Ha'. split_and!; try done.
  - by apply (consistent_books v).
  - unfold blobs_of_cells. by rewrite Hb'.
  - by apply (up_to_date_books game v).
  - intros b Hb. specialize (Hlt b Hb). lia.
  - intros o Ho. destruct (Heach o Ho) as (h & Hh & _); [|by exists h].
    apply (connected_nonempty (blobsMap v) (GameOfLife.size game)).
    pose proof (grouped_connected game v) as Hconn. rewrite <- Hup in Hconn.
    rewrite Forall_forall in Hconn. by apply Hconn.
  - intros i mb Hmb. by destruct (Honly i mb Hmb) as (Hin & Hid & _).
Qed.

(** The same while the shrink tweens run: the organisms are those of
    the previous grid, and what the transition goes by is untouched. *)
Lemma shrinking_metaballs (game : GameOfLife.t) (v : t) :
  shrinking game v ->
  exists v',
    createMetaballOrganisms v = (Normal tt, v') /\ shrinking game v'.
Proof.
  intros (cur & v0 & v1 & c & w & Hcur & Hbc & Hs0 & Hprep & Hpending
          & Hc & Hb & Hm & Hh & Hn & Ha & Hch).
  destruct (createMetaballOrganisms_books v) as (v' & Hrun & Hbooks).
  assert (next_handle v <= next_handle v')%nat as Hnext.
  { rewrite createMetaballOrganisms_run in Hrun. injection Hrun as <-.
    apply (metaballs_grow (organismGroups v)
             (set_metaballsMap (fun _ => ∅) (detach_metaballs v))). }
  unfold books in Hbooks.
  injection Hbooks as Hc' Hb' Hm' Hg' Hp' Ha' Hh' Hch'.
  exists v'. split; [done|].
  exists cur, v0, v1, c, w. split_and!; try done; try congruence. lia.
Qed.

(** The timer of [updateBlobSettings] fires. *)
Lemma orderly_timer (app : App.t) :
  orderly app ->
  exists app',
    App.on_visualizer (fun _ => settings_timer) app = (Normal tt, app')
    /\ orderly app'.
Proof.
  destruct app as [cfg game v paused].
  intros [Hvalid [[Hs Hch]|[Hshrink|(w & Hg & Hch)]]];
    cbn [App.game App.blobVisualizer] in *;
    unfold App.on_visualizer, settings_timer;
    cbn [App.game App.blobVisualizer App.set_blobVisualizer App.cfg
         App.isPaused].
  - destruct (settled_metaballs game v Hs) as (v' & -> & Hs' & Hch').
    exists (App.mk cfg game v' paused). split; [done|]. split; [done|]. left.
    cbn [App.game App.blobVisualizer]. split; [done|]. by rewrite Hch'.
  - destruct (shrinking_metaballs game v Hshrink) as (v' & -> & Hshrink').
    exists (App.mk cfg game v' paused). split; [done|]. split; [done|].
    right. by left.
  - destruct (growing_metaballs game v Hg) as (v' & -> & Hg' & Hch').
    exists (App.mk cfg game v' paused). split; [done|]. split; [done|].
    right. right. exists w.
    cbn [App.game App.blobVisualizer]. split; [done|]. by rewrite Hch'.
Qed.
End OrderlyFacts.

Section ReactFacts.
Import Js BlobVisualizer.

(** A tween completes or a callback runs. *)
Lemma orderly_visual (app : App.t) (e : event) :
  orderly app ->
  match happen (App.game app) e (App.blobVisualizer app) with
  | Some (Normal _, v') => orderly (App.set_blobVisualizer v' app)
  | Some (Throw _, _) => False
  | None => True
  end.
Proof.
  destruct app as [cfg game v paused]. intros Hord.
  unfold orderly in Hord.
  cbn [App.game App.blobVisualizer App.set_blobVisualizer App.cfg App.isPaused]
    in *.
  destruct Hord
    as [Hvalid [[Hs Hch]|[(cur & v0 & v1 & c & w & Hshrink)|(w & Hg & Hch)]]].
  - unfold happen. rewrite Hch. by destruct e.
  - destruct Hshrink as (Hcur & Hbc & Hs0 & Hprep & Hpending
                         & Hc & Hb & Hm & Hh & Hn & Ha & Hch).
    destruct e as [i b|i]; unfold happen; rewrite Hch.
    + destruct i as [|i]; [|done]. cbn [lookup list_lookup].
      split; [done|]. right. left.
      exists cur, v0, v1, c, (list_difference w [b]).
      cbn [App.game App.blobVisualizer App.set_blobVisualizer].
      read_fields. split_and!; try done. by rewrite Hch.
    + destruct i as [|i]; [|done]. cbn [lookup list_lookup].
      destruct w as [|x w]; [|done].
      destruct Hvalid as [Hsq Hbin].
      destruct (regroup_grows (GameOfLife.set_grid cur game)
                  (GameOfLife.grid game) v0 v1 v c)
        as (v' & Hrun & Hgrow & Hch' & _); try done.
      destruct game as [N d g].
      change (GameOfLife.set_grid
                (GameOfLife.grid (GameOfLife.mk N d g))
                (GameOfLife.set_grid cur (GameOfLife.mk N d g)))
        with (GameOfLife.mk N d g) in Hrun, Hgrow.
      rewrite (bind_run _ _ _ _ _ Hrun). unfold modify.
      split; [done|]. right. right. exists (newBlobs c).
      cbn [App.game App.blobVisualizer App.set_blobVisualizer]. split.
      * by apply growing_chains.
      * cbn [chains set_chains]. by rewrite Hch', Hch.
  - destruct e as [i b|i]; unfold happen; rewrite Hch.
    + destruct i as [|i]; [|done]. cbn [lookup list_lookup].
      split; [done|]. right. right. exists (list_difference w [b]).
      cbn [App.game App.blobVisualizer App.set_blobVisualizer]. split.
      * by apply growing_chains.
      * cbn [chains set_chains]. by rewrite Hch.
    + destruct i as [|i]; [|done]. cbn [lookup list_lookup].
      destruct w as [|x w]; [|done].
      destruct (finish_settles game v Hg) as (v' & Hrun & Hs' & Hch' & _).
      rewrite (bind_run _ _ _ _ _ Hrun). unfold modify.
      split; [done|]. left.
      cbn [App.game App.blobVisualizer App.set_blobVisualizer]. split.
      * by apply settled_chains.
      * cbn [chains set_chains]. by rewrite Hch', Hch.
Qed.

Lemma reset_valid (random : nat -> Q) (density : option Q)
    (game : GameOfLife.t) :
  exists g,
    GameOfLife.reset random density game
    = (Normal tt, GameOfLife.set_grid g game)
    /\ valid_game (GameOfLife.set_grid g game).
Proof.
  eexists. split; [apply reset_run|].
  destruct (reset_rows_shape random
    (default (GameOfLife.initialDensity game) density)
    (Z.to_nat (GameOfLife.size game)) (Z.to_nat (GameOfLife.size game)) 0)
    as (Hlen & Hrows & Hbin).
  by split; [split|].
Qed.

Lemma orderly_rest (app : App.t) :
  orderly app -> isAnimating (App.blobVisualizer app) = false ->
  settled (App.game app) (App.blobVisualizer app)
  /\ chains (App.blobVisualizer app) = [].
Proof.
  intros [Hvalid [Hrest|[Hshrink|(w & Hg & _)]]] Hidle; [done|exfalso..].
  - apply shrinking_busy in Hshrink. congruence.
  - apply growing_busy in Hg. congruence.
Qed.

(** [reset] at rest: a new grid, and the visualizer at rest on it. *)
Lemma orderly_reset (random : nat -> Q) (app : App.t) :
  valid_game (App.game app) -> chains (App.blobVisualizer app) = [] ->
  exists app',
    App.reset random app = (Normal tt, app') /\ orderly app'.
Proof.
  destruct app as [cfg game v paused].
  cbn [App.game App.blobVisualizer]. intros Hvalid Hch.
  destruct (reset_valid random (Some (App.initialDensity cfg)) game)
    as (g & Hreset & Hvalid').
  destruct (resetBlobs_rebuilds (GameOfLife.set_grid g game) v
              (proj1 Hvalid')) as (v' & Hrebuild & Hs' & Hch' & _).
  eexists. split.
  - unfold App.reset, bind at 1, get. unfold bind at 1, App.on_game.
    cbn [App.game App.cfg]. rewrite Hreset.
    unfold App.on_visualizer.
    cbn [App.game App.blobVisualizer App.set_game App.cfg App.isPaused].
    rewrite Hrebuild. reflexivity.
  - split; [done|]. left.
    cbn [App.game App.blobVisualizer App.set_blobVisualizer].
    split; [done|]. by rewrite Hch'.
Qed.

(** One input that is safe in the state it arrives in. *)
Lemma orderly_react (app : App.t) (i : App.input) :
  orderly app -> safe app i ->
  match App.react i app with
  | Some (Normal _, app') => orderly app'
  | Some (Throw _, _) => False
  | None => True
  end.
Proof.
  intros Hord Hsafe.
  destruct i as [elapsed| |random| |e|density random| | |]; cbn [App.react].
  - by destruct (orderly_frame app elapsed Hord) as (app' & -> & Hord').
  - cbn [safe] in Hsafe.
    destruct (orderly_rest app Hord Hsafe) as [Hs Hch].
    destruct app as [cfg game v paused].
    by destruct (orderly_step cfg game v paused (proj1 Hord) Hs Hch)
      as (v' & -> & Hord' & _).
  - cbn [safe] in Hsafe.
    destruct (orderly_rest app Hord Hsafe) as [_ Hch].
    by destruct (orderly_reset random app (proj1 Hord) Hch)
      as (app' & -> & Hord').
  - by destruct app as [cfg game v paused].
  - pose proof (orderly_visual app e Hord) as Hvis.
    by destruct (happen (App.game app) e (App.blobVisualizer app))
      as [[[[]|err] v']|].
  - cbn [safe] in Hsafe.
    destruct (orderly_rest app Hord Hsafe) as [_ Hch].
    unfold App.slideDensity, bind, modify.
    destruct (orderly_reset random
                (App.set_cfg (App.set_initialDensity density) app))
      as (app' & -> & Hord'); [apply Hord|by destruct app|done].
  - by destruct app as [cfg game v paused].
  - by destruct (orderly_timer app Hord) as (app' & -> & Hord').
  - done.
Qed.

Lemma orderly_run (inputs : list App.input) (app app' : App.t) :
  orderly app -> safely inputs app -> App.run inputs app = Some app' ->
  orderly app'.
Proof.
  revert app. induction inputs as [|i inputs IH]; intros app Hord Hsafe Hrun.
  - by injection Hrun as <-.
  - cbn [App.run safely] in *. destruct Hsafe as [Hi Hrest].
    pose proof (orderly_react app i Hord Hi) as Hstep.
    destruct (App.react i app) as [[[[]|err] app1]|]; [|done..].
    by apply (IH app1).
Qed.

(** [init] never fails, whatever the configuration. *)
Lemma init_orderly (c : App.config) (random : nat -> Q) :
  exists app0,
    App.init c random = Normal app0
    /\ valid_game (App.game app0)
    /\ settled (App.game app0) (App.blobVisualizer app0)
    /\ chains (App.blobVisualizer app0) = []
    /\ App.cfg app0 = c
    /\ GameOfLife.size (App.game app0) = App.gridSize c
    /\ App.isPaused app0 = negb (App.autoplay c).
Proof.
  unfold App.init.
  change (GameOfLife.constructor random (Some (App.gridSize c))
            (Some (App.initialDensity c)))
    with (GameOfLife.reset random (Some (App.initialDensity c))
            (GameOfLife.mk (App.gridSize c) (App.initialDensity c) [])).
  destruct (reset_valid random (Some (App.initialDensity c))
              (GameOfLife.mk (App.gridSize c) (App.initialDensity c) []))
    as (g & -> & Hvalid).
  destruct (createBlobs_settles _ (initial (App.colors c)) (proj1 Hvalid))
    as (v & Hrun & Hs & _ & _ & _ & Hch & _).
  unfold constructor. rewrite Hrun. eexists. split; [done|].
  split; [done|]. split; [by apply Hs|]. by split.
Qed.

Lemma orderly_facts (app : App.t) :
  orderly app ->
  valid_game (App.game app)
  /\ consistent (App.blobVisualizer app)
  /\ (isAnimating (App.blobVisualizer app) = false ->
      settled (App.game app) (App.blobVisualizer app)
      /\ chains (App.blobVisualizer app) = []).
Proof.
  intros Hord. split; [apply Hord|]. split; [|by apply orderly_rest].
  destruct app as [cfg game v paused]. unfold orderly in Hord.
  cbn [App.game App.blobVisualizer] in *.
  destruct Hord
    as [Hvalid [[Hs Hch]|[(cur & v0 & v1 & c & w & Hshrink)|(w & Hg & Hch)]]].
  - apply Hs.
  - destruct Hshrink as (Hcur & Hbc & Hs0 & Hprep & Hpending
                         & Hc & Hb & Hm & _).
    destruct (prepare_facts game _ cur (GameOfLife.grid game) v0 eq_refl
                Hcur (proj1 Hvalid) ltac:(apply Hs0))
      as (c' & v1' & Hprep' & (Hb1 & Hm1 & _) & _).
    rewrite Hprep in Hprep'. injection Hprep' as ->.
    apply (consistent_books v0); [by rewrite Hb|by rewrite Hm|apply Hs0].
  - apply Hg.
Qed.
End ReactFacts.

Section ApplicationClaims.
Import Js BlobVisualizer.

(** [init] succeeds for every configuration and every sequence of
    random draws: the automaton holds a square grid of 0/1 cells of the
    configured size, the visualizer is at rest on it with nothing
    scheduled, and the application is paused unless [autoplay] is set. *)
Theorem init_settles (c : App.config) (random : nat -> Q) :
  exists app0,
    App.init c random = Normal app0
    /\ valid_game (App.game app0)
    /\ settled (App.game app0) (App.blobVisualizer app0)
    /\ chains (App.blobVisualizer app0) = []
    /\ App.cfg app0 = c
    /\ GameOfLife.size (App.game app0) = App.gridSize c
    /\ App.isPaused app0 = negb (App.autoplay c).
Proof. apply init_orderly. Qed.

(** When the clicks on "Step Forward" and "Reset Game" and the moves of
    the "Initial Density" slider, which resets, wait until no transition
    is animating, the bookkeeping is sound in every state the application
    reaches, whatever the timer, the tweens, the callbacks and the other
    controls do in between: the automaton holds a square grid of 0/1
    cells, [blobs] and [blobsMap] agree, and whenever no transition is
    animating the visualizer is at rest on the automaton's grid with
    nothing scheduled. No safe input makes the application fail. *)
Theorem careful_use_keeps_bookkeeping (c : App.config) (random : nat -> Q)
    (inputs : list App.input) (app0 app : App.t) :
  App.init c random = Normal app0 ->
  safely inputs app0 ->
  App.run inputs app0 = Some app ->
  valid_game (App.game app)
  /\ consistent (App.blobVisualizer app)
  /\ (isAnimating (App.blobVisualizer app) = false ->
      settled (App.game app) (App.blobVisualizer app)
      /\ chains (App.blobVisualizer app) = [])
  /\ forall i, safe app i ->
       forall e app', App.react i app <> Some (Throw e, app').
Proof.
  intros Hinit Hsafe Hrun.
  destruct (init_orderly c random) as (app0' & Hinit' & Hvalid & Hs & Hch & _).
  rewrite Hinit in Hinit'. injection Hinit' as <-.
  assert (orderly app0) as Hord0 by (split; [done|]; by left).
  pose proof (orderly_run inputs app0 app Hord0 Hsafe Hrun) as Hord.
  destruct (orderly_facts app Hord) as (Hv & Hc & Hrest).
  split; [done|]. split; [done|]. split; [done|].
  intros i Hi e app' Hreact.
  pose proof (orderly_react app i Hord Hi) as Hstep.
  by rewrite Hreact in Hstep.
Qed.

Lemma careful_use_keeps_bookkeeping_witness :
  exists app0 app,
    App.init small_config small_random = Normal app0
    /\ App.run calm_inputs app0 = Some app
    /\ valid_game (App.game app)
    /\ consistent (App.blobVisualizer app)
    /\ (isAnimating (App.blobVisualizer app) = false ->
        settled (App.game app) (App.blobVisualizer app)
        /\ chains (App.blobVisualizer app) = [])
    /\ forall i, safe app i ->
         forall e app', App.react i app <> Some (Throw e, app').
Proof.
  destruct (init_orderly small_config small_random) as (app0 & Hinit & _).
  assert (is_Some (App.run calm_inputs app0)) as [app Hrun].
  { vm_compute in Hinit. injection Hinit as <-. vm_compute. by eexists. }
  exists app0, app. split; [done|]. split; [done|].
  apply (careful_use_keeps_bookkeeping small_config small_random
           calm_inputs app0 app Hinit); [|done].
  vm_compute in Hinit. injection Hinit as <-. vm_compute. tauto.
Defined.

Lemma update_run (v : t) : exists v', update v = (Normal tt, v').
Proof.
  unfold update, bind, get. destruct (isAnimating v); [by eexists|].
  destruct (metaballs_pruned v) as (v' & -> & _). by eexists.
Qed.

(** [step] always advances the automaton to the next generation, also
    when the visualizer rejects the update because a transition is
    animating: then the visualizer is left exactly as it was. When no
    transition is animating the visualizer starts one. *)
Theorem step_always_advances (cfg : App.config) (game : GameOfLife.t)
    (v : t) (paused : bool) :
  valid_game game ->
  exists v',
    App.step (App.mk cfg game v paused)
    = (Normal tt,
       App.mk cfg (GameOfLife.set_grid (next_grid game) game) v' paused)
    /\ valid_game (GameOfLife.set_grid (next_grid game) game)
    /\ (isAnimating v = true -> v' = v)
    /\ (isAnimating v = false ->
        isAnimating v' = true
        /\ exists c, pendingChanges v' = Some c
             /\ chains v' = chains v ++ [AwaitShrink (blobsToRemove c) c]).
Proof.
  intros Hvalid. pose proof Hvalid as [Hsq Hbin].
  pose proof (next_grid_valid game) as [Hnsq Hnbin].
  destruct (updateBlobs_run game (GameOfLife.grid game) (next_grid game) v
              Hsq Hnsq) as (v' & Hupd & Hrej & Hacc).
  exists v'. split; [by eapply step_run|]. split; [done|]. split; [done|].
  intros Hidle. destruct (Hacc Hidle) as (c & v1 & _ & Hpending & Hch & ->).
  split; [done|]. exists c. split; [done|].
  cbn [chains set_chains set_isAnimating]. by rewrite Hch.
Qed.

Lemma step_always_advances_witness :
  exists v',
    App.step (App.mk small_config blinker_start blinker_view false)
    = (Normal tt,
       App.mk small_config
         (GameOfLife.set_grid (next_grid blinker_start) blinker_start)
         v' false)
    /\ valid_game (GameOfLife.set_grid (next_grid blinker_start) blinker_start)
    /\ (isAnimating blinker_view = true -> v' = blinker_view)
    /\ (isAnimating blinker_view = false ->
        isAnimating v' = true
        /\ exists c, pendingChanges v' = Some c
             /\ chains v'
                = chains blinker_view ++ [AwaitShrink (blobsToRemove c) c]).
Proof.
  apply (step_always_advances small_config blinker_start blinker_view false).
  split; [apply blinker_start_square|]. decide_by_computation.
Defined.

(** An animation frame never fails on a valid automaton, and it steps
    the automaton only when the application is not paused, no transition
    is animating and the step interval has elapsed; otherwise the
    automaton is left as it is. *)
Theorem animate_waits (app : App.t) (elapsed : bool) :
  valid_game (App.game app) ->
  exists app',
    App.animate elapsed app = (Normal tt, app')
    /\ App.isPaused app' = App.isPaused app
    /\ App.game app'
       = if negb (App.isPaused app)
            && negb (isAnimating (App.blobVisualizer app)) && elapsed
         then GameOfLife.set_grid (next_grid (App.game app)) (App.game app)
         else App.game app.
Proof.
  destruct app as [cfg game v paused]. cbn [App.game App.blobVisualizer App.isPaused].
  intros Hvalid. unfold App.animate, bind at 1, get.
  cbn [App.isPaused App.blobVisualizer].
  destruct (negb paused && negb (isAnimating v) && elapsed) eqn:Hcond.
  - pose proof Hvalid as [Hsq Hbin].
    pose proof (next_grid_valid game) as [Hnsq Hnbin].
    destruct (updateBlobs_run game (GameOfLife.grid game) (next_grid game) v
                Hsq Hnsq) as (v' & Hupd & _).
    rewrite (bind_run _ _ _ _ _ (step_run cfg game v v' paused _ Hvalid Hupd)).
    destruct (update_run v') as [v'' Hu].
    exists (App.mk cfg (GameOfLife.set_grid (next_grid game) game) v'' paused).
    split; [|done]. unfold App.on_visualizer.
    cbn [App.game App.blobVisualizer]. by rewrite Hu.
  - unfold bind at 1, ret. destruct (update_run v) as [v' Hu].
    exists (App.mk cfg game v' paused). split; [|done].
    unfold App.on_visualizer. cbn [App.game App.blobVisualizer].
    by rewrite Hu.
Qed.

Lemma animate_waits_witness :
  exists app',
    App.animate true paused_blinker = (Normal tt, app')
    /\ App.isPaused app' = App.isPaused paused_blinker
    /\ App.game app'
       = if negb (App.isPaused paused_blinker)
            && negb (isAnimating (App.blobVisualizer paused_blinker)) && true
         then GameOfLife.set_grid (next_grid (App.game paused_blinker))
                (App.game paused_blinker)
         else App.game paused_blinker.
Proof.
  apply (animate_waits paused_blinker true).
  split; [exact blinker_start_square|]. decide_by_computation.
Defined.
End ApplicationClaims.
